(** * Keras-LinkNet: the command line (args.py) and the driver (main.py)

    A shallow embedding of [get_arguments] (args.py) and of [train], [test]
    and [main] (main.py), with the properties of the training driver that
    the design document states about them.

    What is not code of these two files is kept apart:
    - the Python runtime (conversions [int], [float], float arithmetic) is
      the class [Python];
    - [argparse] is modelled after its documented behaviour, following the
      structure of CPython's [argparse.py];
    - the data generators, the weighing functions, the network and Keras
      are the class [Collaborators]; every call to them may raise. *)

From Stdlib Require Import ZArith QArith Lia Ascii String FunInd.
From stdpp Require Import gmap strings list.

Local Open Scope Z_scope.

(** ** Exceptions and results *)

Inductive exn :=
| AttributeError (attr : string)
| UnboundLocalError (var : string)
| RuntimeError (msg : string)
| TypeError
| IndexError
| ZeroDivisionError
| AssertionError
| SystemExit (status : Z)
| Exception (name : string).

Inductive result (A : Type) :=
| Ok (a : A)
| Raise (e : exn).
Arguments Ok {A} a.
Arguments Raise {A} e.

#[global] Instance result_ret : MRet result := fun A a => Ok a.
#[global] Instance result_bind : MBind result := fun A B k m =>
  match m with
  | Ok a => k a
  | Raise e => Raise e
  end.

#[global] Instance result_fmap : FMap result := fun A B f m =>
  match m with
  | Ok a => Ok (f a)
  | Raise e => Raise e
  end.

Definition of_option {A} (e : exn) (o : option A) : result A :=
  match o with
  | Some a => Ok a
  | None => Raise e
  end.

(** ** The Python runtime

    Floats stay abstract: only the operations the two files use are named.
    [float_pow x n] is [x ** n] for a float [x] and an int [n]; it can raise
    (ZeroDivisionError, OverflowError). *)

Class Python := {
  float : Type;
  int_of_str : string -> option Z;
  float_of_str : string -> option float;
  float_lit : Z -> Z -> float;
  float_zero : float;
  float_mul : float -> float -> float;
  float_pow : float -> Z -> result float;
  float_eq_int : float -> Z -> bool
}.

Section Values.
Context `{Py : Python}.

Inductive pyval :=
| VNone
| VBool (b : bool)
| VInt (n : Z)
| VFloat (x : float)
| VStr (s : string).

(** [bool(v)], the test an [if] applies to its condition. *)
Definition truthy (v : pyval) : bool :=
  match v with
  | VNone => false
  | VBool b => b
  | VInt n => negb (n =? 0)
  | VFloat x => negb (float_eq_int x 0)
  | VStr s => negb (String.eqb s "")
  end.

(** A namespace is an object whose attributes are set by name. *)
Definition getattr (ns : gmap string pyval) (name : string) : result pyval :=
  of_option (AttributeError name) (ns !! name).

Definition setattr (ns : gmap string pyval) (name : string) (v : pyval)
  : gmap string pyval :=
  <[name := v]> ns.

(** [a // b] on ints: floor division, ZeroDivisionError on a zero divisor. *)
Definition floordiv (a b : Z) : result Z :=
  if b =? 0 then Raise ZeroDivisionError else Ok (a / b).

End Values.

(** ** Strings *)

Definition lower_ascii (c : ascii) : ascii :=
  let n := nat_of_ascii c in
  if ((65 <=? n)%nat && (n <=? 90)%nat)%bool then ascii_of_nat (n + 32) else c.

(** [s.lower()]; the strings compared with it below are ASCII. *)
Fixpoint lower (s : string) : string :=
  match s with
  | EmptyString => EmptyString
  | String c s' => String (lower_ascii c) (lower s')
  end.

Fixpoint contains (c : ascii) (s : string) : bool :=
  match s with
  | EmptyString => false
  | String d s' => if Ascii.eqb c d then true else contains c s'
  end.

(** [s.split(c, 1)] for a string that contains [c]. *)
Fixpoint split1 (c : ascii) (s : string) : string * string :=
  match s with
  | EmptyString => (EmptyString, EmptyString)
  | String d s' =>
      if Ascii.eqb c d then (EmptyString, s')
      else let '(a, b) := split1 c s' in (String d a, b)
  end.

Definition startswith (s p : string) : bool := String.prefix p s.

Definition endswith (s p : string) : bool :=
  let n := String.length s in
  let k := String.length p in
  if (k <=? n)%nat then String.eqb (String.substring (n - k) k s) p else false.

(** [os.path.join] (posixpath). *)
Definition path_join2 (path b : string) : string :=
  if startswith b "/" then b
  else if (String.eqb path "" || endswith path "/")%bool then path +:+ b
  else path +:+ "/" +:+ b.

Definition path_join (a : string) (p : list string) : string :=
  fold_left path_join2 p a.

Definition char_at (s : string) (i : nat) (c : ascii) : bool :=
  match String.get i s with
  | Some d => Ascii.eqb c d
  | None => false
  end.

Fixpoint lstrip (c : ascii) (s : string) : string :=
  match s with
  | String d s' => if Ascii.eqb c d then lstrip c s' else s
  | EmptyString => EmptyString
  end.

Fixpoint replace_char (c d : ascii) (s : string) : string :=
  match s with
  | EmptyString => EmptyString
  | String e s' => String (if Ascii.eqb c e then d else e) (replace_char c d s')
  end.

Definition is_digit (c : ascii) : bool :=
  let n := nat_of_ascii c in ((48 <=? n)%nat && (n <=? 57)%nat)%bool.

Fixpoint all_digits (s : string) : bool :=
  match s with
  | EmptyString => true
  | String c s' => (is_digit c && all_digits s')%bool
  end.

(** The pattern ^-\d+$|^-\d*\.\d+$ that argparse uses to tell a negative
    number from an option; [$] also matches before a final newline.  The
    digits are the ASCII digits; [\d] of Python also matches the decimal
    digits of other scripts. *)
Definition chomp (s : string) : string :=
  if endswith s (String "010" "")
  then String.substring 0 (String.length s - 1) s else s.

Definition digits1 (s : string) : bool :=
  (negb (String.eqb s "") && all_digits s)%bool.

Definition negative_number_like (s : string) : bool :=
  match s with
  | String "-" r =>
      let alt r :=
        (digits1 r
         || (contains "." r
             && (let '(a, b) := split1 "." r in all_digits a && digits1 b)))%bool
      in (alt r || alt (chomp r))%bool
  | _ => false
  end.

(** ** argparse

    The parser of args.py has optional arguments only, each taking one
    argument string (nargs=None, action='store'), and the help option that
    [ArgumentParser()] adds.  The model follows [parse_args] of CPython's
    argparse.py: classification of the argument strings into options ('O')
    and arguments ('A'), consumption of each option with its argument,
    conversion by [type] and the [choices] test, conversion of string
    defaults, and the error for unrecognized arguments.  An error of the
    parser prints the usage and exits with status 2; help exits with status
    0.  An argument string reaches [type] and [choices] as it is written on
    the command line, as the documentation of argparse has it; that CPython
    before 3.13 drops an argument string that is exactly [--] on the way is
    not modelled. *)

Section Argparse.
Context `{Py : Python}.

Inductive argtype := TyIdentity | TyInt | TyFloat | TyStr | TyBool.

Inductive choice := CStr (s : string) | CInt (n : Z).

(** One [parser.add_argument(...)] call. *)
Record Argument := {
  option_strings : list string;
  type_ : argtype;
  choices : option (list choice);
  default : pyval
}.

Inductive action :=
| Store (a : Argument)
| Help.

Definition action_option_strings (a : action) : list string :=
  match a with
  | Store x => option_strings x
  | Help => ["-h"; "--help"]
  end.

(** The attribute an argument is stored under: its first long option
    string without the dashes, else its first option string. *)
Definition dest (a : Argument) : string :=
  let long := filter (fun o => char_at o 1 "-") (option_strings a) in
  let o := match long with
           | o :: _ => o
           | [] => hd "" (option_strings a)
           end in
  replace_char "-" "_" (lstrip "-" o).

Definition option_string_actions (p : list action) : list (string * action) :=
  flat_map (fun a => map (fun o => (o, a)) (action_option_strings a)) p.

Definition lookup_option (p : list action) (s : string) : option action :=
  snd <$> find (fun oa => String.eqb (fst oa) s) (option_string_actions p).

(** The classes of argument strings: 'A', '-' and 'O' with its option
    tuple (action, option string, explicit argument). *)
Inductive token :=
| TArg (s : string)
| TDashDash
| TOpt (a : option action) (option_string : string) (explicit_arg : option string).

Definition _get_option_tuples (p : list action) (option_string : string)
  : list (action * string * option string) :=
  if char_at option_string 1 "-" then
    let '(option_prefix, explicit_arg) :=
      if contains "=" option_string
      then let '(a, b) := split1 "=" option_string in (a, Some b)
      else (option_string, None) in
    omap (fun oa : string * action =>
            if startswith (fst oa) option_prefix
            then Some (snd oa, fst oa, explicit_arg) else None)
         (option_string_actions p)
  else
    let short_option_prefix := String.substring 0 2 option_string in
    let short_explicit_arg :=
      String.substring 2 (String.length option_string - 2) option_string in
    omap (fun oa : string * action =>
            if String.eqb (fst oa) short_option_prefix
            then Some (snd oa, fst oa, Some short_explicit_arg)
            else if startswith (fst oa) option_string
            then Some (snd oa, fst oa, None) else None)
         (option_string_actions p).

Definition _parse_optional (p : list action) (arg_string : string)
  : result token :=
  if String.eqb arg_string "" then Ok (TArg arg_string)
  else if negb (char_at arg_string 0 "-") then Ok (TArg arg_string)
  else match lookup_option p arg_string with
  | Some a => Ok (TOpt (Some a) arg_string None)
  | None =>
  if (String.length arg_string =? 1)%nat then Ok (TArg arg_string)
  else
  let explicit :=
    if contains "=" arg_string
    then let '(o, e) := split1 "=" arg_string in
         (fun a => TOpt (Some a) o (Some e)) <$> lookup_option p o
    else None in
  match explicit with
  | Some t => Ok t
  | None =>
  match _get_option_tuples p arg_string with
  | _ :: _ :: _ => Raise (SystemExit 2)
  | [(a, o, e)] => Ok (TOpt (Some a) o e)
  | [] =>
      if negative_number_like arg_string then Ok (TArg arg_string)
      else if contains " " arg_string then Ok (TArg arg_string)
      else Ok (TOpt None arg_string None)
  end end end.

(** All argument strings after the first "--" are arguments. *)
Fixpoint classify (p : list action) (arg_strings : list string)
  : result (list token) :=
  match arg_strings with
  | [] => Ok []
  | s :: rest =>
      if String.eqb s "--" then Ok (TDashDash :: map TArg rest)
      else t ← _parse_optional p s; ts ← classify p rest; Ok (t :: ts)
  end.

Definition _get_value (a : Argument) (arg_string : string) : result pyval :=
  match type_ a with
  | TyIdentity | TyStr => Ok (VStr arg_string)
  | TyInt => of_option (SystemExit 2) (VInt <$> int_of_str arg_string)
  | TyFloat => of_option (SystemExit 2) (VFloat <$> float_of_str arg_string)
  | TyBool => Ok (VBool (negb (String.eqb arg_string "")))
  end.

(** [value == c] for a choice [c]. *)
Definition eq_choice (v : pyval) (c : choice) : bool :=
  match v, c with
  | VStr s, CStr t => String.eqb s t
  | VInt n, CInt m => n =? m
  | VBool b, CInt m => (if b then 1 else 0) =? m
  | VFloat x, CInt m => float_eq_int x m
  | _, _ => false
  end.

Definition _check_value (a : Argument) (v : pyval) : result unit :=
  match choices a with
  | Some cs => if existsb (eq_choice v) cs then Ok () else Raise (SystemExit 2)
  | None => Ok ()
  end.

(** The one argument string of an option, converted and tested.  It is
    taken as it is written, [--] too; argparse before Python 3.13 removes
    an argument string that is exactly [--] here and stores an empty list
    without conversion or test, so the statements about supplied values
    leave that string aside. *)
Definition _get_values (a : Argument) (arg_string : string) : result pyval :=
  v ← _get_value a arg_string; _ ← _check_value a v; Ok v.

Record pstate := {
  namespace : gmap string pyval;
  seen_actions : gset string;
  extras : list string
}.

Definition take_action (a : Argument) (arg_string : string) (st : pstate)
  : result pstate :=
  v ← _get_values a arg_string;
  Ok {| namespace := setattr (namespace st) (dest a) v;
        seen_actions := {[dest a]} ∪ seen_actions st;
        extras := extras st |}.

Definition add_extra (s : string) (st : pstate) : pstate :=
  {| namespace := namespace st;
     seen_actions := seen_actions st;
     extras := extras st ++ [s] |}.

(** [-h] followed by more single-dash options in the same argument string:
    help is taken first, unless the string does not parse. *)
Fixpoint help_combined (p : list action) (explicit_arg : string)
    (next_is_arg : bool) : exn :=
  match explicit_arg with
  | EmptyString => SystemExit 2
  | String c e =>
      match lookup_option p (String "-" (String c "")) with
      | Some Help =>
          if String.eqb e "" then SystemExit 0
          else help_combined p e next_is_arg
      | Some (Store _) =>
          if String.eqb e "" then
            if next_is_arg then SystemExit 0 else SystemExit 2
          else SystemExit 0
      | None => SystemExit 2
      end
  end.

Definition is_arg (t : list token) : bool :=
  match t with
  | TArg _ :: _ => true
  | _ => false
  end.

(** The loop of [_parse_known_args]: arguments that no option consumes and
    unknown options are extras. *)
Function consume (p : list action) (st : pstate) (toks : list token)
    {struct toks} : result pstate :=
  match toks with
  | [] => Ok st
  | TArg s :: rest => consume p (add_extra s st) rest
  | TDashDash :: rest => consume p (add_extra "--" st) rest
  | TOpt None s _ :: rest => consume p (add_extra s st) rest
  | TOpt (Some Help) o None :: _ => Raise (SystemExit 0)
  | TOpt (Some Help) o (Some e) :: rest =>
      if (negb (char_at o 1 "-") && negb (String.eqb e ""))%bool
      then Raise (help_combined p e (is_arg rest))
      else Raise (SystemExit 2)
  | TOpt (Some (Store a)) o (Some e) :: rest =>
      match take_action a e st with
      | Ok st' => consume p st' rest
      | Raise err => Raise err
      end
  | TOpt (Some (Store a)) o None :: TArg v :: rest =>
      match take_action a v st with
      | Ok st' => consume p st' rest
      | Raise err => Raise err
      end
  | TOpt (Some (Store a)) o None :: _ => Raise (SystemExit 2)
  end.

Definition stores (p : list action) : list Argument :=
  omap (fun a => match a with Store x => Some x | Help => None end) p.

Definition set_default (ns : gmap string pyval) (a : Argument)
  : gmap string pyval :=
  match ns !! dest a with
  | Some _ => ns
  | None => setattr ns (dest a) (default a)
  end.

(** A string default of an argument that was not given is converted by
    [type]; it is not tested against [choices]. *)
Definition convert_default (seen : gset string) (ns : gmap string pyval)
    (a : Argument) : result (gmap string pyval) :=
  if decide (dest a ∈ seen) then Ok ns
  else match default a with
       | VStr s => v ← _get_value a s; Ok (setattr ns (dest a) v)
       | _ => Ok ns
       end.

Fixpoint convert_defaults (seen : gset string) (ns : gmap string pyval)
    (l : list Argument) : result (gmap string pyval) :=
  match l with
  | [] => Ok ns
  | a :: l' => ns' ← convert_default seen ns a; convert_defaults seen ns' l'
  end.

Definition parse_args (p : list action) (args : list string)
  : result (gmap string pyval) :=
  let st0 := {| namespace := fold_left set_default (stores p) ∅;
                seen_actions := ∅;
                extras := [] |} in
  toks ← classify p args;
  st ← consume p st0 toks;
  ns ← convert_defaults (seen_actions st) (namespace st) (stores p);
  match extras st with
  | [] => Ok ns
  | _ :: _ => Raise (SystemExit 2)
  end.

End Argparse.

(** ** args.py *)

Section Args.
Context `{Py : Python}.

Definition arg_mode : Argument :=
  {| option_strings := ["--mode"; "-m"];
     type_ := TyIdentity;
     choices := Some [CStr "train"];
     default := VStr "train" |}.

Definition arg_batch_size : Argument :=
  {| option_strings := ["--batch_size"; "-b"];
     type_ := TyInt;
     choices := None;
     default := VInt 10 |}.

Definition arg_epochs : Argument :=
  {| option_strings := ["--epochs"];
     type_ := TyInt;
     choices := None;
     default := VInt 300 |}.

Definition arg_learning_rate : Argument :=
  {| option_strings := ["--learning_rate"; "-lr"];
     type_ := TyFloat;
     choices := None;
     default := VFloat (float_lit 5 (-4)) |}.

Definition arg_lr_decay : Argument :=
  {| option_strings := ["--lr_decay"];
     type_ := TyFloat;
     choices := None;
     default := VFloat (float_lit 1 (-1)) |}.

Definition arg_lr_decay_epochs : Argument :=
  {| option_strings := ["--lr_decay_epochs"];
     type_ := TyInt;
     choices := None;
     default := VInt 100 |}.

Definition arg_dataset : Argument :=
  {| option_strings := ["--dataset"];
     type_ := TyIdentity;
     choices := Some [CStr "camvid"];
     default := VStr "camvid" |}.

Definition arg_dataset_dir : Argument :=
  {| option_strings := ["--dataset_dir"];
     type_ := TyStr;
     choices := None;
     default := VStr "data/CamVid" |}.

Definition arg_weighing : Argument :=
  {| option_strings := ["--weighing"];
     type_ := TyIdentity;
     choices := Some [CStr "enet"; CStr "mfb"; CStr "none"];
     default := VStr "ENet" |}.

Definition arg_ignore_unlabelled : Argument :=
  {| option_strings := ["--ignore_unlabelled"];
     type_ := TyBool;
     choices := None;
     default := VBool true |}.

Definition arg_workers : Argument :=
  {| option_strings := ["--workers"];
     type_ := TyInt;
     choices := None;
     default := VInt 4 |}.

Definition arg_verbose : Argument :=
  {| option_strings := ["--verbose"];
     type_ := TyIdentity;
     choices := Some [CInt 0; CInt 1; CInt 2];
     default := VInt 1 |}.

Definition arg_name : Argument :=
  {| option_strings := ["--name"];
     type_ := TyStr;
     choices := None;
     default := VStr "LinkNet" |}.

Definition arg_save_dir : Argument :=
  {| option_strings := ["--save_dir"];
     type_ := TyStr;
     choices := None;
     default := VStr "checkpoints" |}.

(** [ArgumentParser()] with its help option, then the fourteen
    [add_argument] calls in the order of the file. *)
Definition parser : list action :=
  Help ::
  map Store
    [arg_mode; arg_batch_size; arg_epochs; arg_learning_rate; arg_lr_decay;
     arg_lr_decay_epochs; arg_dataset; arg_dataset_dir; arg_weighing;
     arg_ignore_unlabelled; arg_workers; arg_verbose; arg_name; arg_save_dir].

(** [get_arguments()]; [argv] is [sys.argv[1:]]. *)
Definition get_arguments (argv : list string) : result (gmap string pyval) :=
  parse_args parser argv.

End Args.

(** ** A runtime to compute with

    Exact rational arithmetic stands in for the floats wherever a statement
    is evaluated on concrete inputs. *)

Module Exact.

Definition digit_value (c : ascii) : Z := Z.of_nat (nat_of_ascii c) - 48.

Fixpoint digits_value (acc : Z) (s : string) : Z :=
  match s with
  | EmptyString => acc
  | String c s' => digits_value (10 * acc + digit_value c) s'
  end.

Definition unsigned_int (s : string) : option Z :=
  if digits1 s then Some (digits_value 0 s) else None.

Definition parse_int (s : string) : option Z :=
  match s with
  | String "-" r => Z.opp <$> unsigned_int r
  | String "+" r => unsigned_int r
  | _ => unsigned_int s
  end.

Definition unsigned_dec (s : string) : option Q :=
  if contains "." s then
    let '(a, b) := split1 "." s in
    if (all_digits a && all_digits b && negb (String.eqb s "."))%bool
    then Some (Qmake (digits_value 0 (a +:+ b)) 1
               / inject_Z (10 ^ Z.of_nat (String.length b)))%Q
    else None
  else inject_Z <$> unsigned_int s.

Definition parse_dec (s : string) : option Q :=
  match s with
  | String "-" r => Qopp <$> unsigned_dec r
  | _ => unsigned_dec s
  end.

Definition qpow (x : Q) (n : Z) : result Q :=
  if ((n <? 0)%Z && (Qnum x =? 0)%Z)%bool then Raise ZeroDivisionError
  else Ok (Qpower x n).

Definition q_eq_int (x : Q) (n : Z) : bool := Qeq_bool x (inject_Z n).

Definition python : Python := {|
  float := Q;
  int_of_str := parse_int;
  float_of_str := parse_dec;
  float_lit := fun m e => (inject_Z m * Qpower 10 e)%Q;
  float_zero := 0%Q;
  float_mul := Qmult;
  float_pow := qpow;
  float_eq_int := q_eq_int
|}.

End Exact.


(** ** The collaborators of main.py

    The data generators (package data), the weighing functions
    (data.utils), the network (models.linknet) and Keras are used through
    these operations.  Each returns or raises.  [first_batch g] stands for
    reading [g[0]] and taking the number of classes and the input shape off
    it; [fit_epoch] is one epoch of [fit_generator] (its batches, then
    validation) run at a given learning rate. *)

Inductive custom_object :=
| Conv2DTranspose
| MeanIoU_mean_iou (num_classes : Z).

Class Collaborators `{Py : Python} := {
  Generator : Type;
  Model : Type;
  Shape : Type;
  import_generator : string -> result unit;
  DataGenerator : string -> pyval -> pyval -> string -> result Generator;
  first_batch : Generator -> result (Z * Shape);
  enet_weighing : Generator -> Z -> result (list float);
  median_freq_balancing : Generator -> Z -> result (list float);
  LinkNet : Z -> Shape -> result Model;
  load_model : string -> list (string * custom_object) -> result Model;
  fit_epoch : Model -> Generator -> Generator -> option (list float) ->
              Z -> float -> result Model;
  save : Model -> string -> result unit;
  evaluate_generator : Model -> Generator -> result unit
}.

Section Main.
Context `{Co : Collaborators}.

(** What a run does, in order.  Of the lines a run prints, the two that
    show a computed value are recorded. *)
Inductive event :=
| EDataGenerator (cls : string) (dataset_dir batch_size : pyval) (mode : string)
| EClassWeighing (technique : string)
| EPrintClassWeights (class_weights : option (list float))
| EPrintCheckpointPath (checkpoint_path : string)
| ELoadModel (path : string) (custom_objects : list (string * custom_object))
| ELinkNet (num_classes : Z)
| ECompile (learning_rate : float)
| EFitGenerator (model : Model) (class_weight : option (list float))
    (epochs initial_epoch : Z)
| ESetLearningRate (epoch : Z) (lr : float)
| EEpoch (epoch : Z) (lr : float)
| ESave (path : string)
| EEvaluate.

(** A computation leaves a trace and returns or raises. *)
Definition M (A : Type) : Type := (list event * result A)%type.

#[global] Instance M_ret : MRet M := fun A a => ([], Ok a).
#[global] Instance M_bind : MBind M := fun A B k m =>
  match m with
  | (t, Ok a) => let '(t', r) := k a in (t ++ t', r)
  | (t, Raise e) => (t, Raise e)
  end.
#[global] Instance M_fmap : FMap M := fun A B f m => (m.1, f <$> m.2).

Definition lift {A} (r : result A) : M A := ([], r).
Definition emit (e : event) : M unit := ([e], Ok ()).
Definition call {A} (e : event) (r : result A) : M A := ([e], r).

(** *** train *)

Section Train.
Variables (epochs initial_epoch : Z).
Variables (train_generator val_generator : Generator).
Variable class_weights : option (list float).
Variables (learning_rate lr_decay : float).
Variable lr_decay_epochs : Z.

Definition _lr_decay (epoch : Z) (lr : float) : result float :=
  e ← floordiv epoch lr_decay_epochs;
  p ← float_pow lr_decay e;
  Ok (float_mul p learning_rate).

(** Keras: [fit_generator] runs the epochs [initial_epoch], ...,
    [epochs - 1]; at the beginning of each, [LearningRateScheduler] calls
    the schedule on the epoch index and the optimizer's current learning
    rate and sets the optimizer's learning rate to the result. *)
Fixpoint fit_epochs (model : Model) (lr : float) (epoch : Z) (n : nat)
  : M Model :=
  match n with
  | O => mret model
  | S n' =>
      lr' ← lift (_lr_decay epoch lr);
      _ ← emit (ESetLearningRate epoch lr');
      model' ← call (EEpoch epoch lr')
                 (fit_epoch model train_generator val_generator class_weights
                    epoch lr');
      fit_epochs model' lr' (epoch + 1) n'
  end.

Definition fit_generator (model : Model) : M Model :=
  _ ← emit (EFitGenerator model class_weights epochs initial_epoch);
  fit_epochs model learning_rate initial_epoch (Z.to_nat (epochs - initial_epoch)).

End Train.

Definition train (epochs initial_epoch : Z)
    (train_generator val_generator : Generator)
    (class_weights : option (list float))
    (learning_rate lr_decay : float) (lr_decay_epochs : Z)
    (workers verbose : pyval) (tensorboard_logdir : string)
    (checkpoint_model : option Model) : M Model :=
  '(num_classes, input_shape) ← lift (first_batch train_generator);
  model ← match checkpoint_model with
          | None => call (ELinkNet num_classes) (LinkNet num_classes input_shape)
          | Some m => mret m
          end;
  _ ← emit (ECompile learning_rate);
  fit_generator epochs initial_epoch train_generator val_generator
    class_weights learning_rate lr_decay lr_decay_epochs model.

(** *** test *)

Definition test (model : Model) (test_generator : Generator)
    (workers verbose : pyval) : M Model :=
  _ ← call EEvaluate (evaluate_generator model test_generator);
  mret model.

(** *** main *)

Definition str_lower (v : pyval) : result string :=
  match v with
  | VStr s => Ok (lower s)
  | _ => Raise (AttributeError "lower")
  end.

(** [args.<name>.lower() == s] *)
Definition lower_is (args : gmap string pyval) (name s : string) : result bool :=
  v ← getattr args name; l ← str_lower v; Ok (String.eqb l s).

(** [args.mode.lower() in (a, b)] *)
Definition mode_in (args : gmap string pyval) (a b : string) : result bool :=
  v ← getattr args "mode"; l ← str_lower v;
  Ok (String.eqb l a || String.eqb l b)%bool.

(** The hyper-parameters have the types that get_arguments declares for
    them; a call that is handed a value of another type raises TypeError. *)
Definition as_int (v : pyval) : result Z :=
  match v with
  | VInt n => Ok n
  | VBool b => Ok (if b then 1 else 0)
  | _ => Raise TypeError
  end.

Definition as_float (v : pyval) : result float :=
  match v with
  | VFloat x => Ok x
  | _ => Raise TypeError
  end.

Definition as_str (v : pyval) : result string :=
  match v with
  | VStr s => Ok s
  | _ => Raise TypeError
  end.

(** [class_weights[-1] = 0] *)
Definition set_last_zero (w : list float) : result (list float) :=
  match w with
  | [] => Raise IndexError
  | _ :: _ => Ok (<[pred (length w) := float_zero]> w)
  end.

(** The local variables of [main] that a branch may leave unbound. *)
Record locals := {
  train_generator_ : option Generator;
  val_generator_ : option Generator;
  test_generator_ : option Generator;
  num_classes_ : option Z;
  class_weights_ : option (option (list float))
}.

Definition local {A} (name : string) (o : option A) : result A :=
  of_option (UnboundLocalError name) o.

Definition quote : string := String (ascii_of_nat 34) "".

(** Lines 112-121: the generator class of the dataset. *)
Definition main_import (args : gmap string pyval) : M string :=
  camvid ← lift (lower_is args "dataset" "camvid");
  if camvid : bool then
    _ ← lift (import_generator "CamVidGenerator"); mret "CamVidGenerator"
  else
    cityscapes ← lift (lower_is args "dataset" "cityscapes");
    if cityscapes : bool then
      _ ← lift (import_generator "CityscapesGenerator");
      mret "CityscapesGenerator"
    else
      d ← lift (getattr args "dataset" ≫= as_str);
      lift (Raise (RuntimeError
                     (quote +:+ d +:+ quote +:+ " is not a supported dataset."))).

(** Lines 144-158. *)
Definition main_class_weights (args : gmap string pyval)
    (train_generator : Generator) (num_classes : Z)
  : M (option (list float)) :=
  weighing ← lift (getattr args "weighing");
  match weighing with
  | VNone => mret None
  | _ =>
      enet ← lift (lower_is args "weighing" "enet");
      if enet : bool then
        Some <$> call (EClassWeighing "enet")
                   (enet_weighing train_generator num_classes)
      else
        mfb ← lift (lower_is args "weighing" "mfb");
        if mfb : bool then
          Some <$> call (EClassWeighing "mfb")
                     (median_freq_balancing train_generator num_classes)
        else mret None
  end.

(** Lines 160-165. *)
Definition main_ignore_unlabelled (args : gmap string pyval)
    (class_weights : option (list float)) : M (option (list float)) :=
  match class_weights with
  | Some w =>
      ignore_unlabelled ← lift (getattr args "ignore_unlabelled");
      if truthy ignore_unlabelled then
        camvid ← lift (lower_is args "dataset" "camvid");
        if camvid : bool then Some <$> lift (set_last_zero w)
        else mret class_weights
      else mret class_weights
  | None => mret None
  end.

(** Lines 123-167: the training and validation generators and the class
    weights. *)
Definition main_train_data (args : gmap string pyval) (cls : string)
  : M locals :=
  training ← lift (mode_in args "train" "full");
  if training : bool then
    dataset_dir ← lift (getattr args "dataset_dir");
    batch_size ← lift (getattr args "batch_size");
    train_generator ← call (EDataGenerator cls dataset_dir batch_size "train")
                        (DataGenerator cls dataset_dir batch_size "train");
    dataset_dir ← lift (getattr args "dataset_dir");
    batch_size ← lift (getattr args "batch_size");
    val_generator ← call (EDataGenerator cls dataset_dir batch_size "val")
                      (DataGenerator cls dataset_dir batch_size "val");
    '(num_classes, _) ← lift (first_batch train_generator);
    class_weights ← main_class_weights args train_generator num_classes;
    class_weights ← main_ignore_unlabelled args class_weights;
    _ ← emit (EPrintClassWeights class_weights);
    mret {| train_generator_ := Some train_generator;
            val_generator_ := Some val_generator;
            test_generator_ := None;
            num_classes_ := Some num_classes;
            class_weights_ := Some class_weights |}
  else
    mret {| train_generator_ := None; val_generator_ := None;
            test_generator_ := None; num_classes_ := None;
            class_weights_ := None |}.

(** Lines 169-184: the test generator. *)
Definition main_test_data (args : gmap string pyval) (cls : string)
    (l : locals) : M locals :=
  testing ← lift (mode_in args "test" "full");
  if testing : bool then
    dataset_dir ← lift (getattr args "dataset_dir");
    batch_size ← lift (getattr args "batch_size");
    test_generator ← call (EDataGenerator cls dataset_dir batch_size "test")
                       (DataGenerator cls dataset_dir batch_size "test");
    '(num_classes, _) ← lift (first_batch test_generator);
    mret {| train_generator_ := train_generator_ l;
            val_generator_ := val_generator_ l;
            test_generator_ := Some test_generator;
            num_classes_ := Some num_classes;
            class_weights_ := class_weights_ l |}
  else mret l.

(** Lines 112-184. *)
Definition main_data (args : gmap string pyval) : M locals :=
  cls ← main_import args;
  l ← main_train_data args cls;
  main_test_data args cls l.

(** Lines 186-188: [os.path.join(args.checkpoint_dir, args.name,
    args.name + '.h5')]. *)
Definition main_checkpoint_path (args : gmap string pyval) : result string :=
  checkpoint_dir ← getattr args "checkpoint_dir";
  name ← getattr args "name";
  name' ← getattr args "name";
  file ← (λ s, s +:+ ".h5") <$> as_str name';
  dir ← as_str checkpoint_dir;
  name ← as_str name;
  Ok (path_join dir [name; file]).

(** The dict [custom_objects] of lines 196-199. *)
Definition custom_objects (num_classes : Z) : list (string * custom_object) :=
  [("Conv2DTranspose", Conv2DTranspose);
   ("mean_iou", MeanIoU_mean_iou num_classes)].

(** Lines 191-200. *)
Definition main_resume (args : gmap string pyval) (l : locals)
    (checkpoint_path : string) : M (option Model) :=
  resume ← lift (getattr args "resume");
  if truthy resume then
    num_classes ← lift (local "num_classes" (num_classes_ l));
    Some <$> call (ELoadModel checkpoint_path (custom_objects num_classes))
               (load_model checkpoint_path (custom_objects num_classes))
  else mret None.

(** Lines 202-220. *)
Definition main_train (args : gmap string pyval) (l : locals)
    (checkpoint_path : string) (model : option Model) : M (option Model) :=
  training ← lift (mode_in args "train" "full");
  if training : bool then
    tensorboard_logdir ← lift (
      checkpoint_dir ← getattr args "checkpoint_dir";
      name ← getattr args "name";
      dir ← as_str checkpoint_dir;
      name ← as_str name;
      Ok (path_join dir [name]));
    epochs ← lift (getattr args "epochs");
    initial_epoch ← lift (getattr args "initial_epoch");
    train_generator ← lift (local "train_generator" (train_generator_ l));
    val_generator ← lift (local "val_generator" (val_generator_ l));
    class_weights ← lift (local "class_weights" (class_weights_ l));
    learning_rate ← lift (getattr args "learning_rate");
    lr_decay ← lift (getattr args "lr_decay");
    lr_decay_epochs ← lift (getattr args "lr_decay_epochs");
    workers ← lift (getattr args "workers");
    verbose ← lift (getattr args "verbose");
    epochs ← lift (as_int epochs);
    initial_epoch ← lift (as_int initial_epoch);
    learning_rate ← lift (as_float learning_rate);
    lr_decay ← lift (as_float lr_decay);
    lr_decay_epochs ← lift (as_int lr_decay_epochs);
    model ← train epochs initial_epoch train_generator val_generator
              class_weights learning_rate lr_decay lr_decay_epochs workers
              verbose tensorboard_logdir model;
    _ ← call (ESave checkpoint_path) (save model checkpoint_path);
    mret (Some model)
  else mret model.

(** Lines 222-224. *)
Definition main_test (args : gmap string pyval) (l : locals)
    (model : option Model) : M unit :=
  testing ← lift (mode_in args "test" "full");
  if testing : bool then
    model ← lift (of_option AssertionError model);
    test_generator ← lift (local "test_generator" (test_generator_ l));
    workers ← lift (getattr args "workers");
    verbose ← lift (getattr args "verbose");
    _ ← test model test_generator workers verbose;
    mret ()
  else mret ().

(** The body of [main] after [args = get_arguments()]. *)
Definition main_body (args : gmap string pyval) : M unit :=
  l ← main_data args;
  checkpoint_path ← lift (main_checkpoint_path args);
  _ ← emit (EPrintCheckpointPath checkpoint_path);
  model ← main_resume args l checkpoint_path;
  model ← main_train args l checkpoint_path model;
  main_test args l model.

Definition main (argv : list string) : M unit :=
  args ← lift (get_arguments argv);
  main_body args.

End Main.

(** ** Collaborators to compute with

    Generators are named by their mode, a model is the number of epochs it
    was trained for, every class weight is one.  [lab loaded] answers
    [load_model] with [loaded]; everything else succeeds. *)

Module Lab.
#[local] Existing Instance Exact.python.

Definition lab (loaded : result Z) : Collaborators := {|
  Generator := string;
  Model := Z;
  Shape := unit;
  import_generator := fun _ => Ok ();
  DataGenerator := fun _ _ _ mode => Ok mode;
  first_batch := fun _ => Ok (12, ());
  enet_weighing := fun _ n => Ok (repeat 1%Q (Z.to_nat n));
  median_freq_balancing := fun _ n => Ok (repeat 1%Q (Z.to_nat n));
  LinkNet := fun _ _ => Ok 0;
  load_model := fun _ _ => loaded;
  fit_epoch := fun m _ _ _ _ _ => Ok (m + 1);
  save := fun _ _ => Ok ();
  evaluate_generator := fun _ _ => Ok ()
|}.

(** The namespace of the defaults. *)
Definition defaults : gmap string pyval :=
  fold_left set_default (stores parser) ∅.

(** The defaults with the three attributes that [main] reads and args.py
    does not define. *)
Definition resuming (initial_epoch : Z) : gmap string pyval :=
  <["checkpoint_dir" := VStr "checkpoints"]>
  (<["resume" := VBool true]>
  (<["initial_epoch" := VInt initial_epoch]>
  (<["epochs" := VInt (initial_epoch + 2)]> defaults))).

(** What the data stage of a run on the defaults leaves. *)
Definition weights : list float := repeat (1%Q : float) 11 ++ [0%Q : float].

Definition data_events (loaded : result Z) : list (@event _ (lab loaded)) :=
  [EDataGenerator "CamVidGenerator" (VStr "data/CamVid") (VInt 10) "train";
   EDataGenerator "CamVidGenerator" (VStr "data/CamVid") (VInt 10) "val";
   EClassWeighing "enet";
   EPrintClassWeights (Some weights)].

Definition data_locals (loaded : result Z) : @locals _ (lab loaded) :=
  {| train_generator_ := Some ("train" : @Generator _ (lab loaded));
     val_generator_ := Some ("val" : @Generator _ (lab loaded));
     test_generator_ := None;
     num_classes_ := Some 12;
     class_weights_ := Some (Some weights) |}.

End Lab.

(** ** Notions used in the statements *)

Section CommandLine.
Context `{Py : Python}.

(** The command line hands the argument string [v] to the argument [a]:
    as [--opt=v] (or [-ov]), or as the argument string after the option. *)
Definition supplies (toks : list token) (a : Argument) (v : string) : Prop :=
  ∃ pre o post,
    toks = pre ++ TOpt (Some (Store a)) o (Some v) :: post ∨
    toks = pre ++ TOpt (Some (Store a)) o None :: TArg v :: post.

Definition is_help (t : token) : bool :=
  match t with
  | TOpt (Some Help) _ _ => true
  | _ => false
  end.

(** Every action of an option tuple is an action of the parser. *)
Definition known (p : list action) (t : token) : Prop :=
  match t with
  | TOpt (Some a) _ _ => a ∈ p
  | _ => True
  end.

(** What a value stored for [a] can be: a converted and checked argument
    string, or the default, converted if it is a string. *)
Definition admits (a : Argument) (v : pyval) : Prop :=
  (∃ s, _get_values a s = Ok v) ∨
  v = default a ∨
  (∃ s, default a = VStr s ∧ _get_value a s = Ok v).

Definition dests : list string := dest <$> stores parser.

Definition parsed (ns : gmap string pyval) : Prop :=
  (∀ a, a ∈ stores parser → ∃ v, ns !! dest a = Some v ∧ admits a v) ∧
  (∀ k, k ∉ dests → ns !! k = None).

End CommandLine.

Section Notions.
Context `{Co : Collaborators}.

Definition trace {A} (m : M A) : list event := m.1.
Definition outcome {A} (m : M A) : result A := m.2.

(** [m] emits only events that satisfy [P], and what it returns
    satisfies [Q]. *)
Definition wp {A} (m : M A) (P : event → Prop) (Q : A → Prop) : Prop :=
  Forall P (trace m) ∧ ∀ a, outcome m = Ok a → Q a.

(** The events in which a model is resumed, built, trained, saved or
    evaluated. *)
Definition model_event (e : event) : bool :=
  match e with
  | EDataGenerator _ _ _ _ | EClassWeighing _ | EPrintClassWeights _
  | EPrintCheckpointPath _ => false
  | _ => true
  end.


(** The class weights an event shows end in 0. *)
Definition unlabelled_ignored (e : event) : Prop :=
  match e with
  | EPrintClassWeights (Some w) | EFitGenerator _ (Some w) _ _ =>
      last w = Some float_zero
  | _ => True
  end.

Definition zeroed (class_weights : option (list float)) : Prop :=
  ∀ w, class_weights = Some w → last w = Some float_zero.

(** An event of an epoch: its learning rate is set, its batches run. *)
Definition epoch_event (e : event) : bool :=
  match e with
  | ESetLearningRate _ _ | EEpoch _ _ => true
  | _ => false
  end.

(** The schedule as the design document has it:
    [learning_rate * lr_decay^(epoch // lr_decay_epochs)]. *)
Definition staircase (learning_rate lr_decay : float) (lr_decay_epochs : Z)
    (epoch : Z) : result float :=
  e ← floordiv epoch lr_decay_epochs;
  p ← float_pow lr_decay e;
  Ok (float_mul learning_rate p).

(** The events of epochs run at the given rates: the rate is set, then
    the batches run. *)
Definition epoch_events (l : list (Z * float)) : list event :=
  l ≫= λ ir, [ESetLearningRate ir.1 ir.2; EEpoch ir.1 ir.2].

(** The rates of [n] epochs from [epoch] on, as far as [f] gives them. *)
Fixpoint rates_from (f : Z → result float) (epoch : Z) (n : nat)
  : list (Z * float) :=
  match n with
  | O => []
  | S n' =>
      match f epoch with
      | Ok r => (epoch, r) :: rates_from f (epoch + 1) n'
      | Raise _ => []
      end
  end.

(** The hyper-parameters that [main] hands to [train], as attributes of
    the types that get_arguments gives them. *)
Definition hyperparameters (args : gmap string pyval)
    (epochs initial_epoch : Z) (learning_rate lr_decay : float)
    (lr_decay_epochs : Z) : Prop :=
  args !! "epochs" = Some (VInt epochs) ∧
  args !! "initial_epoch" = Some (VInt initial_epoch) ∧
  args !! "learning_rate" = Some (VFloat learning_rate) ∧
  args !! "lr_decay" = Some (VFloat lr_decay) ∧
  args !! "lr_decay_epochs" = Some (VInt lr_decay_epochs) ∧
  is_Some (args !! "workers") ∧ is_Some (args !! "verbose").

Definition builds_model (e : event) : bool :=
  match e with
  | ELinkNet _ => true
  | _ => false
  end.

(** The learning rates a trace sets, with their epochs. *)
Definition lr_schedule (t : list event) : list (Z * float) :=
  omap (λ e, match e with
             | ESetLearningRate i r => Some (i, r)
             | _ => None
             end) t.

End Notions.

(** ** Notions used in the further properties *)

Section CommandLineShape.
Context `{Py : Python}.

(** A command line that is nothing but options of the parser, each with
    its argument string: [--opt=v], [-ov] or [--opt v]. *)
Fixpoint option_value_pairs (toks : list token) : bool :=
  match toks with
  | [] => true
  | TOpt (Some (Store _)) _ (Some _) :: rest => option_value_pairs rest
  | TOpt (Some (Store _)) _ None :: TArg _ :: rest => option_value_pairs rest
  | _ => false
  end.

(** [v] is the argument string that the command line hands to [a] last. *)
Definition supplies_last (toks : list token) (a : Argument) (v : string)
  : Prop :=
  ∃ pre o post,
    (toks = pre ++ TOpt (Some (Store a)) o (Some v) :: post ∨
     toks = pre ++ TOpt (Some (Store a)) o None :: TArg v :: post) ∧
    ∀ v', ¬ supplies post a v'.

(** An option tuple without the option string that was written for it. *)
Definition forget_option_string (t : token) : token :=
  match t with
  | TOpt (Some (Store a)) _ e => TOpt (Some (Store a)) "" e
  | _ => t
  end.

(** Every option string the parser knows. *)
Definition parser_option_strings : list string :=
  fst <$> option_string_actions parser.

End CommandLineShape.

Section RunShape.
Context `{Co : Collaborators}.

(** The paths a trace saves a model to, in order. *)
Definition saves (t : list event) : list string :=
  omap (λ e, match e with
             | ESave p => Some p
             | _ => None
             end) t.

(** A generator is made of the class [cls], from the [dataset_dir] and the
    [batch_size] of the namespace, for one of the three splits. *)
Definition generator_of (args : gmap string pyval) (cls : string) (e : event)
  : Prop :=
  match e with
  | EDataGenerator c dataset_dir batch_size mode =>
      c = cls ∧ args !! "dataset_dir" = Some dataset_dir ∧
      args !! "batch_size" = Some batch_size ∧ mode ∈ ["train"; "val"; "test"]
  | _ => True
  end.

(** The class weights are those a weighing function returned. *)
Definition computed (class_weights : option (list float)) : Prop :=
  ∀ w, class_weights = Some w →
       ∃ g n, enet_weighing g n = Ok w ∨ median_freq_balancing g n = Ok w.

Definition as_computed (e : event) : Prop :=
  match e with
  | EPrintClassWeights cw | EFitGenerator _ cw _ _ => computed cw
  | _ => True
  end.

(** No weighing function runs and the class weights shown are [None]. *)
Definition unweighted (e : event) : Prop :=
  match e with
  | EClassWeighing _ => False
  | EPrintClassWeights cw | EFitGenerator _ cw _ _ => cw = None
  | _ => True
  end.

End RunShape.

(** ** More namespaces to compute with *)

Module Runs.
#[local] Existing Instance Exact.python.

(** The defaults with [checkpoint_dir] and [initial_epoch] defined, two
    epochs to run and no resume. *)
Definition fresh (initial_epoch : Z) : gmap string pyval :=
  <["resume" := VBool false]> (Lab.resuming initial_epoch).

Definition in_mode (mode : string) (args : gmap string pyval)
  : gmap string pyval :=
  <["mode" := VStr mode]> args.

Definition checkpoint : string := "checkpoints/LinkNet/LinkNet.h5".

(** What the data stage leaves in the modes test and full. *)
Definition test_event (loaded : result Z) : @event _ (Lab.lab loaded) :=
  EDataGenerator "CamVidGenerator" (VStr "data/CamVid") (VInt 10) "test".

Definition no_locals (loaded : result Z) : @locals _ (Lab.lab loaded) :=
  {| train_generator_ := None; val_generator_ := None;
     test_generator_ := None; num_classes_ := None; class_weights_ := None |}.

Definition test_locals (loaded : result Z) : @locals _ (Lab.lab loaded) :=
  {| train_generator_ := None; val_generator_ := None;
     test_generator_ := Some ("test" : @Generator _ (Lab.lab loaded));
     num_classes_ := Some 12; class_weights_ := None |}.

Definition full_locals (loaded : result Z) : @locals _ (Lab.lab loaded) :=
  {| train_generator_ := Some ("train" : @Generator _ (Lab.lab loaded));
     val_generator_ := Some ("val" : @Generator _ (Lab.lab loaded));
     test_generator_ := Some ("test" : @Generator _ (Lab.lab loaded));
     num_classes_ := Some 12;
     class_weights_ := Some (Some Lab.weights) |}.

End Runs.

(** * Properties *)

(** ** The result monad *)

Lemma bind_Ok {A B} (m : result A) (k : A → result B) b :
  m ≫= k = Ok b ↔ ∃ a, m = Ok a ∧ k a = Ok b.
Proof.
  destruct m as [a|e]; simpl; split.
  - eauto.
  - intros (a' & [= ->] & H). done.
  - done.
  - intros (a' & [=] & _).
Qed.

Lemma bind_Raise {A B} (m : result A) (k : A → result B) e :
  m ≫= k = Raise e ↔ m = Raise e ∨ ∃ a, m = Ok a ∧ k a = Raise e.
Proof.
  destruct m as [a|e']; simpl; split.
  - eauto.
  - intros [[=] | (a' & [= ->] & H)]. done.
  - intros [= ->]. by left.
  - intros [[= ->] | (a' & [=] & _)]. done.
Qed.

Lemma of_option_Ok {A} e (o : option A) a : of_option e o = Ok a ↔ o = Some a.
Proof. destruct o; simpl; naive_solver. Qed.

Lemma of_option_Raise {A} e (o : option A) e' :
  of_option e o = Raise e' → e' = e ∧ o = None.
Proof. destruct o; simpl; naive_solver. Qed.

(** ** argparse *)

Section ArgparseFacts.
Context `{Py : Python}.

Lemma option_string_actions_in p oa :
  oa ∈ option_string_actions p → oa.2 ∈ p.
Proof.
  unfold option_string_actions. rewrite list_elem_of_In, in_flat_map.
  intros (a & Ha & Hoa). apply list_elem_of_In in Ha.
  apply in_map_iff in Hoa as (o & <- & _). done.
Qed.

Lemma lookup_option_in p s a : lookup_option p s = Some a → a ∈ p.
Proof.
  unfold lookup_option. intros H.
  destruct (find _ _) as [oa|] eqn:E; simplify_eq/=.
  apply find_some in E as [E _]. apply list_elem_of_In in E.
  by apply option_string_actions_in in E.
Qed.

Lemma _get_option_tuples_in p s a o e :
  (a, o, e) ∈ _get_option_tuples p s → a ∈ p.
Proof.
  unfold _get_option_tuples.
  destruct (char_at s 1 "-").
  - destruct (if contains "=" s then _ else _) as [pre ex].
    rewrite list_elem_of_omap. intros (oa & Hoa & H).
    destruct (startswith _ _); simplify_eq. by apply option_string_actions_in.
  - rewrite list_elem_of_omap. intros (oa & Hoa & H).
    repeat case_match; simplify_eq; by apply option_string_actions_in.
Qed.

Lemma _parse_optional_known p s t : _parse_optional p s = Ok t → known p t.
Proof.
  unfold _parse_optional. intros H.
  repeat (case_match; simplify_eq/=); try done.
  - by eapply lookup_option_in.
  - match goal with H : _ <$> _ = Some _ |- _ =>
      apply fmap_Some in H as (a & Ha & ->) end.
    by eapply lookup_option_in.
  - eapply _get_option_tuples_in.
    match goal with H : _get_option_tuples _ _ = _ |- _ => rewrite H end.
    apply list_elem_of_singleton. reflexivity.
  - eapply _get_option_tuples_in.
    match goal with H : _get_option_tuples _ _ = _ |- _ => rewrite H end.
    apply list_elem_of_singleton. reflexivity.
Qed.

Lemma classify_known p argv toks :
  classify p argv = Ok toks → Forall (known p) toks.
Proof.
  revert toks. induction argv as [|s argv IH]; simpl; intros toks H.
  - by simplify_eq.
  - destruct (String.eqb s "--").
    + simplify_eq. constructor; [done|].
      apply Forall_forall. intros t Ht.
      apply list_elem_of_fmap in Ht as (x & -> & _). done.
    + apply bind_Ok in H as (t & Ht & H).
      apply bind_Ok in H as (ts & Hts & H). simplify_eq.
      constructor; [by eapply _parse_optional_known | by apply IH].
Qed.

Lemma _parse_optional_exit p s e :
  _parse_optional p s = Raise e → e = SystemExit 2.
Proof.
  unfold _parse_optional. intros H.
  repeat (case_match; simplify_eq/=); done.
Qed.

Lemma classify_exit p argv e : classify p argv = Raise e → e = SystemExit 2.
Proof.
  induction argv as [|s argv IH]; simpl; intros H; [done|].
  destruct (String.eqb s "--"); [done|].
  apply bind_Raise in H as [H | (t & _ & H)].
  - by eapply _parse_optional_exit.
  - apply bind_Raise in H as [H | (ts & _ & H)]; [by apply IH | done].
Qed.

Lemma _get_value_exit a s e : _get_value a s = Raise e → e = SystemExit 2.
Proof.
  unfold _get_value. intros H.
  destruct (type_ a); simplify_eq/=;
    by apply of_option_Raise in H as [-> _].
Qed.

Lemma _get_values_exit a s e : _get_values a s = Raise e → e = SystemExit 2.
Proof.
  unfold _get_values. intros H.
  apply bind_Raise in H as [H | (v & _ & H)]; [by eapply _get_value_exit|].
  apply bind_Raise in H as [H | (? & _ & H)]; [|done].
  unfold _check_value in H. repeat case_match; by simplify_eq.
Qed.

Lemma take_action_exit a s st e :
  take_action a s st = Raise e → e = SystemExit 2.
Proof.
  unfold take_action. intros H.
  apply bind_Raise in H as [H | (v & _ & H)]; [by eapply _get_values_exit|done].
Qed.

Lemma take_action_Ok a s st st' :
  take_action a s st = Ok st' ↔
  ∃ v, _get_values a s = Ok v ∧
       st' = {| namespace := setattr (namespace st) (dest a) v;
                seen_actions := {[dest a]} ∪ seen_actions st;
                extras := extras st |}.
Proof.
  unfold take_action. rewrite bind_Ok. split.
  - intros (v & Hv & [= <-]). eauto.
  - intros (v & Hv & ->). eauto.
Qed.

Lemma take_action_Raise a s st e :
  take_action a s st = Raise e ↔ _get_values a s = Raise e.
Proof.
  unfold take_action. rewrite bind_Raise. split.
  - intros [H | (v & _ & [=])]. done.
  - by left.
Qed.

Lemma help_combined_exit p e b :
  help_combined p e b = SystemExit 0 ∨ help_combined p e b = SystemExit 2.
Proof.
  induction e as [|c e IH]; simpl; [by right|].
  repeat case_match; auto.
Qed.

(** The parser leaves only through [sys.exit]: status 2 for an error,
    status 0 when help was asked for. *)
Lemma consume_exit p st toks e :
  consume p st toks = Raise e →
  e = SystemExit 2 ∨ (e = SystemExit 0 ∧ Exists is_help toks).
Proof.
  functional induction (consume p st toks); intros H; simplify_eq;
    try (destruct (IHr H) as [?|[? ?]]; [by left | right; split; [done|]];
         try (by apply Exists_cons_tl); by do 2 apply Exists_cons_tl).
  - by right; split; [|apply Exists_cons_hd].
  - destruct (help_combined_exit p e0 (is_arg rest)) as [E|E]; rewrite E;
      [right; split; [done|by apply Exists_cons_hd] | by left].
  - by left.
  - left. by eapply take_action_exit.
  - left. by eapply take_action_exit.
  - by left.
Qed.

Lemma elem_of_stores p x : x ∈ stores p ↔ Store x ∈ p.
Proof.
  unfold stores. rewrite list_elem_of_omap. split.
  - intros ([y|] & Hy & [= <-]). done.
  - intros H. exists (Store x). done.
Qed.

Lemma stores_parser :
  stores parser =
  [arg_mode; arg_batch_size; arg_epochs; arg_learning_rate; arg_lr_decay;
   arg_lr_decay_epochs; arg_dataset; arg_dataset_dir; arg_weighing;
   arg_ignore_unlabelled; arg_workers; arg_verbose; arg_name; arg_save_dir].
Proof. reflexivity. Qed.

Lemma dests_eq :
  dests =
  ["mode"; "batch_size"; "epochs"; "learning_rate"; "lr_decay";
   "lr_decay_epochs"; "dataset"; "dataset_dir"; "weighing";
   "ignore_unlabelled"; "workers"; "verbose"; "name"; "save_dir"].
Proof. reflexivity. Qed.

Lemma dests_NoDup : NoDup dests.
Proof. rewrite dests_eq. apply (bool_decide_unpack _). by vm_compute. Qed.

Lemma dest_inj a a' :
  a ∈ stores parser → a' ∈ stores parser → dest a = dest a' → a = a'.
Proof.
  intros Ha Ha' E.
  apply list_elem_of_lookup in Ha as [i Hi].
  apply list_elem_of_lookup in Ha' as [j Hj].
  assert (dests !! i = Some (dest a)) as Di
    by (unfold dests; by rewrite list_lookup_fmap, Hi).
  assert (dests !! j = Some (dest a)) as Dj
    by (unfold dests; by rewrite list_lookup_fmap, Hj, E).
  assert (i = j) as -> by (eapply NoDup_lookup; eauto using dests_NoDup).
  congruence.
Qed.

Lemma parsed_setattr ns a v :
  parsed ns → a ∈ stores parser → admits a v →
  parsed (setattr ns (dest a) v).
Proof.
  intros [H1 H2] Ha Hv. unfold setattr. split.
  - intros a' Ha'. destruct (decide (dest a = dest a')) as [E|E].
    + apply dest_inj in E as <-; [|done..].
      exists v. by rewrite lookup_insert_eq.
    + rewrite lookup_insert_ne; auto.
  - intros k Hk. rewrite lookup_insert_ne; [auto|].
    intros <-. apply Hk. unfold dests. apply list_elem_of_fmap. eauto.
Qed.

Lemma consume_parsed st toks st' :
  consume parser st toks = Ok st' →
  Forall (known parser) toks →
  parsed (namespace st) → parsed (namespace st').
Proof.
  functional induction (consume parser st toks); intros H K P;
    simplify_eq; try done;
    try (apply IHr; [done | by inversion K | done]).
  - apply IHr; [done | by inversion K |].
    match goal with T : take_action _ _ _ = Ok _ |- _ =>
      apply take_action_Ok in T as (w & Hw & ->) end. simpl.
    inversion K as [|? ? Ka _]; subst. simpl in Ka.
    apply parsed_setattr; [done | by apply elem_of_stores | left; eauto].
  - apply IHr; [done | by inversion K as [|? ? _ [|]] |].
    match goal with T : take_action _ _ _ = Ok _ |- _ =>
      apply take_action_Ok in T as (w & Hw & ->) end. simpl.
    inversion K as [|? ? Ka _]; subst. simpl in Ka.
    apply parsed_setattr; [done | by apply elem_of_stores | left; eauto].
Qed.

Lemma convert_defaults_parsed seen l : ∀ ns ns',
  convert_defaults seen ns l = Ok ns' →
  Forall (λ a, a ∈ stores parser) l →
  parsed ns → parsed ns'.
Proof.
  induction l as [|a l IH]; simpl; intros ns ns' H F P; [by simplify_eq|].
  apply bind_Ok in H as (ns1 & H1 & H).
  inversion F; subst. eapply IH; [done..|].
  unfold convert_default in H1.
  destruct (decide _); [by simplify_eq|].
  destruct (default a) eqn:D; simplify_eq; try done.
  apply bind_Ok in H1 as (v & Hv & [= <-]).
  apply parsed_setattr; [done..|]. right; right; eauto.
Qed.

Lemma set_defaults_other l : ∀ ns k,
  k ∉ dest <$> l → fold_left set_default l ns !! k = ns !! k.
Proof.
  induction l as [|a l IH]; simpl; intros ns k Hk; [done|].
  apply not_elem_of_cons in Hk as [Hk1 Hk2].
  rewrite IH by done. unfold set_default, setattr.
  destruct (ns !! dest a); [done|]. by rewrite lookup_insert_ne.
Qed.

Lemma initial_namespace_parsed :
  parsed (fold_left set_default (stores parser) ∅).
Proof.
  split.
  - intros a Ha. exists (default a). split; [|by right; left].
    rewrite stores_parser in Ha.
    repeat (apply elem_of_cons in Ha as [-> | Ha]).
    all: try (vm_compute; reflexivity).
    inversion Ha.
  - intros k Hk. by rewrite set_defaults_other.
Qed.

Lemma parse_args_parsed argv ns : get_arguments argv = Ok ns → parsed ns.
Proof.
  unfold get_arguments, parse_args. intros H.
  apply bind_Ok in H as (toks & Ht & H).
  apply bind_Ok in H as (st & Hs & H).
  apply bind_Ok in H as (ns' & Hn & H).
  destruct (extras st); simplify_eq.
  eapply convert_defaults_parsed; [done| |].
  - apply Forall_forall. auto.
  - eapply consume_parsed; [done | by eapply classify_known |].
    apply initial_namespace_parsed.
Qed.

(** What [parsed] says of single attributes. *)

Lemma parsed_attr ns a :
  parsed ns → a ∈ stores parser → ∃ v, ns !! dest a = Some v ∧ admits a v.
Proof. intros [H _]. apply H. Qed.

Lemma parsed_absent ns k : parsed ns → k ∉ dests → ns !! k = None.
Proof. intros [_ H]. apply H. Qed.

Ltac in_stores := rewrite stores_parser; repeat constructor.


Lemma parsed_dataset ns : parsed ns → ns !! "dataset" = Some (VStr "camvid").
Proof.
  intros P. destruct (parsed_attr ns arg_dataset P) as (v & Hv & A); [in_stores|].
  change (dest arg_dataset) with "dataset" in Hv. rewrite Hv. f_equal.
  destruct A as [(s & Hs) | [-> | (s & [= <-] & [= <-])]]; [|done..].
  unfold _get_values, _get_value, _check_value in Hs. simpl in Hs.
  destruct (String.eqb s "camvid") eqn:E; simplify_eq/=.
  by apply String.eqb_eq in E as ->.
Qed.


(** [choices=[0, 1, 2]] without [type=int]: no argument string passes. *)
Lemma verbose_rejects s : _get_values arg_verbose s = Raise (SystemExit 2).
Proof. reflexivity. Qed.

Lemma parsed_verbose ns : parsed ns → ns !! "verbose" = Some (VInt 1).
Proof.
  intros P. destruct (parsed_attr ns arg_verbose P) as (v & Hv & A); [in_stores|].
  change (dest arg_verbose) with "verbose" in Hv. rewrite Hv. f_equal.
  destruct A as [(s & Hs) | [-> | (s & [=] & _)]]; [|done].
  by rewrite verbose_rejects in Hs.
Qed.

Lemma parsed_ignore_unlabelled ns :
  parsed ns → ∃ b, ns !! "ignore_unlabelled" = Some (VBool b).
Proof.
  intros P.
  destruct (parsed_attr ns arg_ignore_unlabelled P) as (v & Hv & A); [in_stores|].
  change (dest arg_ignore_unlabelled) with "ignore_unlabelled" in Hv. rewrite Hv.
  destruct A as [(s & [= <-]) | [-> | (s & [=] & _)]]; eauto.
Qed.





End ArgparseFacts.

Section SuppliesFacts.
Context `{Py : Python}.

Lemma supplies_cons t toks a v : supplies toks a v → supplies (t :: toks) a v.
Proof.
  intros (pre & o & post & [-> | ->]); exists (t :: pre), o, post; auto.
Qed.

Lemma supplies_nil a v : ¬ supplies [] a v.
Proof. intros (pre & o & post & [H | H]); by destruct pre. Qed.

Lemma supplies_cons_inv t toks a v :
  supplies (t :: toks) a v →
  (∃ o, t = TOpt (Some (Store a)) o (Some v)) ∨
  (∃ o rest, t = TOpt (Some (Store a)) o None ∧ toks = TArg v :: rest) ∨
  supplies toks a v.
Proof.
  intros (pre & o & post & H). destruct pre as [|t' pre]; simpl in H.
  - destruct H as [H | H]; simplify_eq; [left | right; left]; eauto.
  - right; right. exists pre, o, post. destruct H as [H | H]; simplify_eq; auto.
Qed.


(** An argument string that [type] or [choices] refuses stops the parser
    wherever the command line supplies it. *)
Lemma consume_rejects p st toks a v e st' :
  supplies toks a v → _get_values a v = Raise e →
  consume p st toks ≠ Ok st'.
Proof.
  intros S R. revert S.
  functional induction (consume p st toks); intros S C; simplify_eq;
    try (apply supplies_cons_inv in S as [(? & ?) | [(? & ? & ? & ?) | S]];
         simplify_eq; by apply IHr).
  - by apply supplies_nil in S.
  - apply supplies_cons_inv in S as [(? & ?) | [(? & ? & ? & ?) | S]];
      simplify_eq; [|by apply IHr].
    match goal with T : take_action _ _ _ = Ok _ |- _ =>
      apply take_action_Ok in T as (w & Hw & _) end. congruence.
  - apply supplies_cons_inv in S as [(? & ?) | [(? & ? & ? & ?) | S]];
      simplify_eq.
    + match goal with T : take_action _ _ _ = Ok _ |- _ =>
        apply take_action_Ok in T as (w & Hw & _) end. congruence.
    + apply supplies_cons_inv in S as [(? & ?) | [(? & ? & ? & ?) | S]];
        simplify_eq; by apply IHr.
Qed.








End SuppliesFacts.

(** ** The trace monad *)

Section MonadFacts.
Context `{Co : Collaborators}.

Lemma M_bind_Ok {A B} (m : M A) (k : A → M B) t a :
  m = (t, Ok a) → m ≫= k = (t ++ (k a).1, (k a).2).
Proof. intros ->. simpl. unfold mbind, M_bind. by destruct (k a). Qed.

Lemma M_bind_Raise {A B} (m : M A) (k : A → M B) t e :
  m = (t, Raise e) → m ≫= k = (t, Raise e).
Proof. by intros ->. Qed.

Lemma M_bind_lift_Ok {A B} (r : result A) (k : A → M B) a :
  r = Ok a → lift r ≫= k = k a.
Proof. intros ->. unfold lift, mbind, M_bind. by destruct (k a). Qed.

Lemma M_bind_lift_Raise {A B} (r : result A) (k : A → M B) e :
  r = Raise e → lift r ≫= k = ([], Raise e).
Proof. by intros ->. Qed.

Lemma M_bind_ret {A B} (a : A) (k : A → M B) : mret a ≫= k = k a.
Proof. unfold mret, M_ret, mbind, M_bind. by destruct (k a). Qed.

Lemma M_bind_emit {B} e (k : unit → M B) :
  emit e ≫= k = (e :: (k ()).1, (k ()).2).
Proof. unfold emit, mbind, M_bind. by destruct (k ()). Qed.

Lemma M_bind_call_Ok {A B} e (r : result A) (k : A → M B) a :
  r = Ok a → call e r ≫= k = (e :: (k a).1, (k a).2).
Proof. intros ->. unfold call, mbind, M_bind. by destruct (k a). Qed.

Lemma M_bind_call_Raise {A B} e (r : result A) (k : A → M B) x :
  r = Raise x → call e r ≫= k = ([e], Raise x).
Proof. by intros ->. Qed.

Lemma wp_ret {A} (a : A) P (Q : A → Prop) : Q a → wp (mret a) P Q.
Proof. intros H. split; [constructor|]. by intros ? [= <-]. Qed.

Lemma wp_lift {A} (r : result A) P (Q : A → Prop) :
  (∀ a, r = Ok a → Q a) → wp (lift r) P Q.
Proof. intros H. split; [constructor | done]. Qed.

Lemma wp_emit e (P : event → Prop) (Q : unit → Prop) :
  P e → Q () → wp (emit e) P Q.
Proof. intros H1 H2. split; [by repeat constructor|]. by intros [] _. Qed.

Lemma wp_call {A} e (r : result A) (P : event → Prop) (Q : A → Prop) :
  P e → (∀ a, r = Ok a → Q a) → wp (call e r) P Q.
Proof. intros H1 H2. split; [by repeat constructor | done]. Qed.

Lemma wp_bind {A B} (m : M A) (k : A → M B) P (Q : A → Prop) (R : B → Prop) :
  wp m P Q → (∀ a, Q a → wp (k a) P R) → wp (m ≫= k) P R.
Proof.
  intros [H1 H2] H. destruct m as [t [a|e]]; [|by split].
  destruct (H a (H2 a eq_refl)) as [H3 H4].
  unfold wp, trace, outcome in *. rewrite (M_bind_Ok _ _ t a eq_refl). simpl.
  split; [by apply Forall_app | done].
Qed.

Lemma wp_seq {A B} (m : M A) (k : A → M B) P (R : B → Prop) :
  wp m P (λ _, True) → (∀ a, wp (k a) P R) → wp (m ≫= k) P R.
Proof. intros H1 H2. eapply wp_bind; [done|]. auto. Qed.

Lemma wp_fmap {A B} (f : A → B) (m : M A) P (Q : A → Prop) (R : B → Prop) :
  wp m P Q → (∀ a, Q a → R (f a)) → wp (f <$> m) P R.
Proof.
  intros [H1 H2] H. split; [done|].
  destruct m as [t [a|e]]; simpl; [|done]. intros b [= <-]. by apply H, H2.
Qed.

Lemma wp_fmap_trivial {A B} (f : A → B) (m : M A) P :
  wp m P (λ _, True) → wp (f <$> m) P (λ _, True).
Proof. intros H. by eapply wp_fmap. Qed.

Lemma wp_weaken {A} (m : M A) P (Q Q' : A → Prop) :
  wp m P Q → (∀ a, Q a → Q' a) → wp m P Q'.
Proof. intros [H1 H2] H. split; [done|]. auto. Qed.

Lemma wp_mono {A} (m : M A) (P P' : event → Prop) (Q : A → Prop) :
  wp m P Q → (∀ e, P e → P' e) → wp m P' Q.
Proof. intros [H1 H2] H. split; [|done]. eapply Forall_impl; eauto. Qed.

Lemma wp_if {A} (b : bool) (m1 m2 : M A) P Q :
  wp m1 P Q → wp m2 P Q → wp (if b then m1 else m2) P Q.
Proof. by destruct b. Qed.

End MonadFacts.

(** ** main.py *)

Ltac wp_step :=
  match goal with
  | |- wp (mret _) _ _ => apply wp_ret
  | |- wp (lift _) _ _ => apply wp_lift
  | |- wp (emit _) _ _ => apply wp_emit
  | |- wp (call _ _) _ _ => apply wp_call
  | |- wp (_ ≫= _) _ _ => apply wp_seq; [|intros ?]
  | |- wp (_ <$> _) _ (λ _, True) => apply wp_fmap_trivial
  | |- wp (if _ then _ else _) _ _ => apply wp_if
  | |- wp (match ?x with _ => _ end) _ _ => destruct x
  end.

Ltac wp_trivial := repeat (wp_step; try done).

Section MainFacts.
Context `{Co : Collaborators}.

Lemma main_data_no_model args :
  wp (main_data args) (λ e, model_event e = false) (λ _, True).
Proof.
  unfold main_data, main_import, main_train_data, main_test_data,
    main_class_weights, main_ignore_unlabelled.
  wp_trivial.
Qed.



Lemma lower_is_eq args name s t :
  args !! name = Some (VStr s) →
  lower_is args name t = Ok (String.eqb (lower s) t).
Proof. intros H. unfold lower_is, getattr. by rewrite H. Qed.

Lemma mode_in_eq args s a b :
  args !! "mode" = Some (VStr s) →
  mode_in args a b = Ok (String.eqb (lower s) a || String.eqb (lower s) b)%bool.
Proof. intros H. unfold mode_in, getattr. by rewrite H. Qed.

Lemma set_last_zero_Ok w :
  w ≠ [] → ∃ w', set_last_zero w = Ok w' ∧ last w' = Some float_zero.
Proof.
  intros H. destruct w as [|x w]; [done|].
  eexists. split; [done|].
  rewrite last_lookup, length_insert. apply list_lookup_insert_eq. simpl. lia.
Qed.

Lemma set_last_zero_last w w' :
  set_last_zero w = Ok w' → last w' = Some float_zero.
Proof.
  intros H. destruct w as [|x w]; [done|].
  destruct (set_last_zero_Ok (x :: w)) as (w'' & E & L); [done|]. congruence.
Qed.


End MainFacts.

(** ** train: the learning-rate schedule *)

Section TrainFacts.
Context `{Co : Collaborators}.

Lemma rates_from_spec f : ∀ n e i r,
  (i, r) ∈ rates_from f e n → f i = Ok r ∧ e ≤ i < e + Z.of_nat n.
Proof.
  induction n as [|n IH]; simpl; intros e i r H; [by apply elem_of_nil in H|].
  destruct (f e) as [r'|] eqn:E; [|by apply elem_of_nil in H].
  apply elem_of_cons in H as [[= -> ->] | H]; [split; [done|lia]|].
  apply IH in H as [H1 H2]. split; [done|lia].
Qed.

Lemma rates_from_complete f : ∀ n e,
  (∀ j, e ≤ j < e + Z.of_nat n → ∃ r, f j = Ok r) →
  ∀ i, e ≤ i < e + Z.of_nat n → ∃ r, (i, r) ∈ rates_from f e n.
Proof.
  induction n as [|n IH]; simpl; intros e H i Hi; [lia|].
  destruct (H e) as [r Hr]; [lia|]. rewrite Hr.
  destruct (decide (i = e)) as [->|Hne].
  - exists r. by left.
  - destruct (IH (e + 1)) with (i := i) as [r' Hr']; [|lia|].
    + intros j Hj. apply H. lia.
    + exists r'. by right.
Qed.

Lemma prefix_elem {A} (l1 l2 : list A) x : l1 `prefix_of` l2 → x ∈ l1 → x ∈ l2.
Proof. intros [k ->] H. apply elem_of_app. by left. Qed.

Lemma epoch_events_cons i r l :
  epoch_events ((i, r) :: l) =
  ESetLearningRate i r :: EEpoch i r :: epoch_events l.
Proof. reflexivity. Qed.

Lemma elem_of_epoch_events i r l : EEpoch i r ∈ epoch_events l ↔ (i, r) ∈ l.
Proof.
  induction l as [|[j s] l IH].
  - split; intros H; by apply elem_of_nil in H.
  - rewrite epoch_events_cons, !elem_of_cons, IH. split.
    + intros [[=] | [[= -> ->] | H]]; auto.
    + intros [[= -> ->] | H]; auto.
Qed.

Lemma lr_schedule_epoch_events l : lr_schedule (epoch_events l) = l.
Proof.
  induction l as [|[j s] l IH]; [done|].
  rewrite epoch_events_cons.
  change (lr_schedule (ESetLearningRate j s :: EEpoch j s :: epoch_events l))
    with ((j, s) :: lr_schedule (epoch_events l)).
  by rewrite IH.
Qed.

Lemma lr_schedule_app t1 t2 :
  lr_schedule (t1 ++ t2) = lr_schedule t1 ++ lr_schedule t2.
Proof. apply omap_app. Qed.

Lemma lr_schedule_other t :
  Forall (λ e, epoch_event e = false) t → lr_schedule t = [].
Proof.
  induction 1 as [|e t He _ IH]; [done|].
  rewrite <- IH. by destruct e.
Qed.

(** In the events of epochs, the batches of an epoch come right after its
    learning rate is set. *)
Lemma epoch_events_split l : ∀ t1 i r t2,
  epoch_events l = t1 ++ EEpoch i r :: t2 →
  ∃ t1', t1 = t1' ++ [ESetLearningRate i r].
Proof.
  induction l as [|[j s] l IH]; intros t1 i r t2 H.
  - by destruct t1.
  - rewrite epoch_events_cons in H.
    destruct t1 as [|e1 [|e2 t1]]; simpl in H.
    + discriminate.
    + injection H as <- <- <- _. by exists [].
    + injection H as <- <- H. apply IH in H as [t1' ->].
      by exists (ESetLearningRate j s :: EEpoch j s :: t1').
Qed.

Lemma app_split_other (pre : list event) : ∀ X t1 e t2,
  Forall (λ e, epoch_event e = false) pre → epoch_event e = true →
  pre ++ X = t1 ++ e :: t2 →
  ∃ t1', t1 = pre ++ t1' ∧ X = t1' ++ e :: t2.
Proof.
  induction pre as [|x pre IH]; intros X t1 e t2 F He H; [by exists t1|].
  inversion F as [|? ? Hx F']; subst.
  destruct t1 as [|y t1]; simpl in H.
  - injection H as -> _. congruence.
  - injection H as -> H.
    destruct (IH _ _ _ _ F' He H) as (t1' & -> & ->). by exists t1'.
Qed.

Section Schedule.
Variables (train_generator val_generator : Generator).
Variable class_weights : option (list float).
Variables (learning_rate lr_decay : float).
Variable lr_decay_epochs : Z.

Let f (i : Z) : result float :=
  _lr_decay learning_rate lr_decay lr_decay_epochs i learning_rate.

(** The trace of the epoch loop: epochs at the scheduled rates, up to the
    epoch at which the schedule or the training raises. *)
Lemma fit_epochs_trace : ∀ n model lr epoch,
  ∃ l, trace (fit_epochs train_generator val_generator class_weights
                learning_rate lr_decay lr_decay_epochs model lr epoch n)
       = epoch_events l ∧
       l `prefix_of` rates_from f epoch n ∧
       (∀ m, outcome (fit_epochs train_generator val_generator class_weights
                        learning_rate lr_decay lr_decay_epochs model lr epoch n)
             = Ok m → l = rates_from f epoch n).
Proof.
  induction n as [|n IH]; intros model lr epoch.
  - exists []. split; [done|]. split; [apply prefix_nil | done].
  - cbn [fit_epochs rates_from]. unfold f at 1 3.
    change (_lr_decay learning_rate lr_decay lr_decay_epochs epoch learning_rate)
      with (_lr_decay learning_rate lr_decay lr_decay_epochs epoch lr).
    destruct (_lr_decay learning_rate lr_decay lr_decay_epochs epoch lr)
      as [r|e] eqn:E.
    + rewrite (M_bind_lift_Ok _ _ r), M_bind_emit by done.
      destruct (fit_epoch model train_generator val_generator class_weights
                  epoch r) as [m'|e'] eqn:Ef.
      * rewrite (M_bind_call_Ok _ _ _ m') by done.
        destruct (IH m' r (epoch + 1)) as (l & Hl & Hp & Ho).
        exists ((epoch, r) :: l). unfold trace, outcome in *. simpl.
        rewrite Hl. split; [done|]. split; [by apply prefix_cons|].
        intros m Hm. by rewrite (Ho m).
      * rewrite (M_bind_call_Raise _ _ _ e') by done.
        exists [(epoch, r)]. split; [done|]. split; [|done].
        apply prefix_cons, prefix_nil.
    + rewrite (M_bind_lift_Raise _ _ e) by done.
      exists []. split; [done|]. split; [apply prefix_nil | done].
Qed.

End Schedule.

(** [train], call by call. *)
Lemma train_eq epochs initial_epoch tg vg cw lr d n workers verbose dir ckpt :
  train epochs initial_epoch tg vg cw lr d n workers verbose dir ckpt =
  match first_batch tg with
  | Raise e => ([], Raise e)
  | Ok (nc, sh) =>
      let fit m :=
        fit_epochs tg vg cw lr d n m lr initial_epoch
          (Z.to_nat (epochs - initial_epoch)) in
      match ckpt with
      | Some m =>
          (ECompile lr :: EFitGenerator m cw epochs initial_epoch
             :: trace (fit m), outcome (fit m))
      | None =>
          match LinkNet nc sh with
          | Ok m =>
              (ELinkNet nc :: ECompile lr
                 :: EFitGenerator m cw epochs initial_epoch :: trace (fit m),
               outcome (fit m))
          | Raise e => ([ELinkNet nc], Raise e)
          end
      end
  end.
Proof.
  unfold train, fit_generator.
  destruct (first_batch tg) as [[nc sh]|e]; [|done].
  rewrite (M_bind_lift_Ok _ _ (nc, sh)) by done.
  destruct ckpt as [m|].
  - by rewrite M_bind_ret, !M_bind_emit.
  - destruct (LinkNet nc sh) as [m|e] eqn:E.
    + by rewrite (M_bind_call_Ok _ _ _ m), !M_bind_emit.
    + by rewrite (M_bind_call_Raise _ _ _ e).
Qed.

(** The trace of [train]: events that set the model up, then epochs at
    the scheduled rates. *)
Lemma train_trace epochs initial_epoch tg vg cw lr d n workers verbose dir ckpt :
  ∃ pre l,
    trace (train epochs initial_epoch tg vg cw lr d n workers verbose dir ckpt)
    = pre ++ epoch_events l ∧
    Forall (λ e, epoch_event e = false) pre ∧
    l `prefix_of` rates_from (λ i, _lr_decay lr d n i lr) initial_epoch
                    (Z.to_nat (epochs - initial_epoch)) ∧
    (∀ m, outcome (train epochs initial_epoch tg vg cw lr d n workers verbose
                     dir ckpt) = Ok m →
          l = rates_from (λ i, _lr_decay lr d n i lr) initial_epoch
                (Z.to_nat (epochs - initial_epoch))).
Proof.
  rewrite train_eq.
  destruct (first_batch tg) as [[nc sh]|e];
    [|exists [], []; split; [done|]; split; [done|];
      split; [apply prefix_nil | done]].
  assert (∀ m, ∃ l,
    trace (fit_epochs tg vg cw lr d n m lr initial_epoch
             (Z.to_nat (epochs - initial_epoch))) = epoch_events l ∧
    l `prefix_of` rates_from (λ i, _lr_decay lr d n i lr) initial_epoch
                    (Z.to_nat (epochs - initial_epoch)) ∧
    (∀ m', outcome (fit_epochs tg vg cw lr d n m lr initial_epoch
                      (Z.to_nat (epochs - initial_epoch))) = Ok m' →
           l = rates_from (λ i, _lr_decay lr d n i lr) initial_epoch
                 (Z.to_nat (epochs - initial_epoch)))) as F
    by (intros m; apply fit_epochs_trace).
  destruct ckpt as [m|]; [|destruct (LinkNet nc sh) as [m|e]]; simpl.
  - destruct (F m) as (l & Hl & Hp & Ho).
    exists [ECompile lr; EFitGenerator m cw epochs initial_epoch], l.
    unfold trace, outcome in *. simpl. rewrite Hl.
    split; [done|]. split; [by repeat constructor|]. by split.
  - destruct (F m) as (l & Hl & Hp & Ho).
    exists [ELinkNet nc; ECompile lr; EFitGenerator m cw epochs initial_epoch], l.
    unfold trace, outcome in *. simpl. rewrite Hl.
    split; [done|]. split; [by repeat constructor|]. by split.
  - exists [ELinkNet nc], []. split; [done|]. split; [by repeat constructor|].
    split; [apply prefix_nil | done].
Qed.

(** With a schedule that is defined and epochs that train, the epoch
    loop runs to its end. *)
Lemma fit_epochs_returns tg vg cw lr d k :
  (∀ m i r, ∃ m', fit_epoch m tg vg cw i r = Ok m') →
  ∀ n model cur epoch,
  (∀ j, epoch ≤ j < epoch + Z.of_nat n → ∃ r, _lr_decay lr d k j lr = Ok r) →
  ∃ m, outcome (fit_epochs tg vg cw lr d k model cur epoch n) = Ok m.
Proof.
  intros Hf. induction n as [|n IH]; intros model cur epoch H.
  - by exists model.
  - cbn [fit_epochs]. destruct (H epoch) as [r Hr]; [lia|].
    change (_lr_decay lr d k epoch lr) with (_lr_decay lr d k epoch cur) in Hr.
    rewrite (M_bind_lift_Ok _ _ r), M_bind_emit by done.
    destruct (Hf model epoch r) as [m' Hm'].
    rewrite (M_bind_call_Ok _ _ _ m') by done.
    destruct (IH m' r (epoch + 1)) as [m Hm]; [intros j Hj; apply H; lia|].
    exists m. unfold outcome in *. by simpl.
Qed.

End TrainFacts.

(** ** main: what the stages emit *)

Section StageFacts.
Context `{Co : Collaborators}.
Variable P : event → Prop.

Lemma fit_epochs_wp tg vg cw lr d k :
  (∀ i r, P (ESetLearningRate i r)) → (∀ i r, P (EEpoch i r)) →
  ∀ n m cur e, wp (fit_epochs tg vg cw lr d k m cur e n) P (λ _, True).
Proof.
  intros H1 H2. induction n as [|n IH]; intros m cur e; cbn [fit_epochs].
  - by apply wp_ret.
  - wp_trivial.
Qed.

Lemma train_wp epochs initial_epoch tg vg cw lr d n workers verbose dir ckpt :
  P (ECompile lr) → (∀ m, P (EFitGenerator m cw epochs initial_epoch)) →
  (∀ i r, P (ESetLearningRate i r)) → (∀ i r, P (EEpoch i r)) →
  (ckpt = None → ∀ nc, P (ELinkNet nc)) →
  wp (train epochs initial_epoch tg vg cw lr d n workers verbose dir ckpt)
    P (λ _, True).
Proof.
  intros H1 H2 H3 H4 H5. unfold train, fit_generator.
  wp_trivial; auto. by apply fit_epochs_wp.
Qed.

Lemma main_resume_wp args l p :
  (∀ c, P (ELoadModel p c)) →
  wp (main_resume args l p) P
    (λ model, ∀ v, args !! "resume" = Some v → truthy v = true →
              is_Some model).
Proof.
  intros H. unfold main_resume.
  destruct (getattr args "resume") as [v|e] eqn:E.
  - rewrite (M_bind_lift_Ok _ _ v) by done. apply of_option_Ok in E.
    destruct (truthy v) eqn:T.
    + apply wp_seq; [by apply wp_lift|]. intros nc.
      apply (wp_fmap _ _ _ (λ _, True)); [by apply wp_call|].
      intros m _ ? _ _. eauto.
    + apply wp_ret. intros ? ?. congruence.
  - rewrite (M_bind_lift_Raise _ _ e) by done. by split.
Qed.

Lemma main_train_wp args l p model :
  (∀ lr, P (ECompile lr)) →
  (∀ cw m e k, class_weights_ l = Some cw → P (EFitGenerator m cw e k)) →
  (∀ i r, P (ESetLearningRate i r)) → (∀ i r, P (EEpoch i r)) →
  (model = None → ∀ nc, P (ELinkNet nc)) → P (ESave p) →
  wp (main_train args l p model) P (λ _, True).
Proof.
  intros H1 H2 H3 H4 H5 H6. unfold main_train.
  apply wp_seq; [by apply wp_lift|]. intros [|]; [|by apply wp_ret].
  do 5 (apply wp_seq; [by apply wp_lift|]; intros ?).
  eapply wp_bind; [apply wp_lift; intros cw Hcw; exact Hcw|].
  intros cw Hcw. apply of_option_Ok in Hcw.
  do 10 (apply wp_seq; [by apply wp_lift|]; intros ?).
  apply wp_seq; [apply train_wp; eauto|]. intros m.
  wp_trivial.
Qed.

Lemma main_test_wp args l model :
  P EEvaluate → wp (main_test args l model) P (λ _, True).
Proof. intros H. unfold main_test, test. wp_trivial. Qed.

(** [main], stage by stage. *)
Lemma main_body_wp args (Q : locals → Prop) :
  wp (main_data args) P Q →
  (∀ p, P (EPrintCheckpointPath p)) →
  (∀ p c, P (ELoadModel p c)) →
  (∀ lr, P (ECompile lr)) →
  (∀ l cw m e k, Q l → class_weights_ l = Some cw → P (EFitGenerator m cw e k)) →
  (∀ i r, P (ESetLearningRate i r)) → (∀ i r, P (EEpoch i r)) →
  ((∃ v, args !! "resume" = Some v ∧ truthy v = true) ∨ ∀ nc, P (ELinkNet nc)) →
  (∀ p, P (ESave p)) → P EEvaluate →
  wp (main_body args) P (λ _, True).
Proof.
  intros Hd Hp Hl Hc Hf Hs He Hn Hsv Hev. unfold main_body.
  eapply wp_bind; [exact Hd|]. intros l Hl'.
  apply wp_seq; [by apply wp_lift|]. intros p.
  apply wp_seq; [by apply wp_emit|]. intros _.
  eapply wp_bind; [by apply main_resume_wp|]. intros model Hm.
  apply wp_seq; [|intros ?; by apply main_test_wp].
  apply main_train_wp; eauto.
  intros -> nc. destruct Hn as [(v & Hv & Ht) | Hn]; [|done].
  by destruct (Hm v Hv Ht).
Qed.

End StageFacts.

Section BodyFacts.
Context `{Co : Collaborators}.

Lemma trace_bind {A B} (m : M A) (k : A → M B) :
  ∃ rest, trace (m ≫= k) = trace m ++ rest.
Proof.
  destruct m as [t [a|e]].
  - rewrite (M_bind_Ok _ _ t a) by done. by eexists.
  - exists []. unfold trace. simpl. by rewrite app_nil_r.
Qed.

Lemma main_ignore_unlabelled_zeroed args cw v :
  lower_is args "dataset" "camvid" = Ok true →
  args !! "ignore_unlabelled" = Some v → truthy v = true →
  wp (main_ignore_unlabelled args cw) unlabelled_ignored zeroed.
Proof.
  intros Hd Hv Ht. unfold main_ignore_unlabelled.
  destruct cw as [w|]; [|by apply wp_ret].
  unfold getattr. rewrite Hv. rewrite (M_bind_lift_Ok _ _ v) by done.
  rewrite Ht, Hd. rewrite (M_bind_lift_Ok _ _ true) by done.
  apply (wp_fmap _ _ _ (λ w', last w' = Some float_zero)).
  - apply wp_lift. apply set_last_zero_last.
  - by intros w' H ? [= <-].
Qed.

(** The two branches of [main] that no run from the command line takes:
    a dataset other than camvid keeps its weights, and a weighing
    technique other than enet and mfb gives no weights. *)
Lemma main_ignore_unlabelled_other args d w v :
  args !! "dataset" = Some (VStr d) → lower d ≠ "camvid" →
  args !! "ignore_unlabelled" = Some v →
  main_ignore_unlabelled args (Some w) = ([], Ok (Some w)).
Proof.
  intros Hd Hn Hv. unfold main_ignore_unlabelled, getattr. rewrite Hv.
  rewrite (M_bind_lift_Ok _ _ v) by done. destruct (truthy v); [|done].
  rewrite (lower_is_eq _ _ _ _ Hd), (proj2 (String.eqb_neq _ _) Hn).
  by rewrite (M_bind_lift_Ok _ _ false).
Qed.

Lemma main_class_weights_other args tg nc s :
  args !! "weighing" = Some (VStr s) →
  lower s ≠ "enet" → lower s ≠ "mfb" →
  main_class_weights args tg nc = ([], Ok None).
Proof.
  intros Hw H1 H2. unfold main_class_weights, getattr. rewrite Hw.
  rewrite (M_bind_lift_Ok _ _ (VStr s)) by done.
  rewrite !(lower_is_eq _ _ _ _ Hw).
  rewrite (proj2 (String.eqb_neq _ _) H1), (proj2 (String.eqb_neq _ _) H2).
  by rewrite !(M_bind_lift_Ok _ _ false).
Qed.

Lemma main_train_data_zeroed args cls v :
  lower_is args "dataset" "camvid" = Ok true →
  args !! "ignore_unlabelled" = Some v → truthy v = true →
  wp (main_train_data args cls) unlabelled_ignored
    (λ l, ∀ cw, class_weights_ l = Some cw → zeroed cw).
Proof.
  intros Hd Hv Ht. unfold main_train_data.
  apply wp_seq; [by apply wp_lift|]. intros [|]; [|by apply wp_ret].
  do 2 (apply wp_seq; [by apply wp_lift|]; intros ?).
  apply wp_seq; [by apply wp_call|]. intros tg.
  do 2 (apply wp_seq; [by apply wp_lift|]; intros ?).
  apply wp_seq; [by apply wp_call|]. intros vg.
  apply wp_seq; [by apply wp_lift|]. intros [nc sh].
  apply wp_seq; [unfold main_class_weights; wp_trivial|]. intros cw.
  eapply wp_bind; [by eapply main_ignore_unlabelled_zeroed|]. intros cw' Hz.
  apply wp_seq.
  - apply wp_emit; [|done]. destruct cw' as [w|]; [|done]. by apply Hz.
  - intros _. apply wp_ret. by intros ? [= <-].
Qed.

Lemma main_data_zeroed args v :
  lower_is args "dataset" "camvid" = Ok true →
  args !! "ignore_unlabelled" = Some v → truthy v = true →
  wp (main_data args) unlabelled_ignored
    (λ l, ∀ cw, class_weights_ l = Some cw → zeroed cw).
Proof.
  intros Hd Hv Ht. unfold main_data.
  apply wp_seq; [unfold main_import; wp_trivial|]. intros cls.
  eapply wp_bind; [by eapply main_train_data_zeroed|]. intros l Hl.
  unfold main_test_data.
  apply wp_seq; [by apply wp_lift|]. intros [|]; [|by apply wp_ret].
  do 2 (apply wp_seq; [by apply wp_lift|]; intros ?).
  apply wp_seq; [by apply wp_call|]. intros g.
  apply wp_seq; [by apply wp_lift|]. intros [nc sh].
  by apply wp_ret.
Qed.

(** After the data stage of a training run the generators and the class
    weights are bound, and the first batch of the training generator was
    read. *)
Lemma main_data_bound args t0 l :
  mode_in args "train" "full" = Ok true →
  main_data args = (t0, Ok l) →
  ∃ tg vg cw nc sh nc',
    train_generator_ l = Some tg ∧ val_generator_ l = Some vg ∧
    class_weights_ l = Some cw ∧ first_batch tg = Ok (nc, sh) ∧
    num_classes_ l = Some nc'.
Proof.
  intros Hm H.
  assert (wp (main_data args) (λ _, True)
            (λ l, ∃ tg vg cw nc sh nc',
               train_generator_ l = Some tg ∧ val_generator_ l = Some vg ∧
               class_weights_ l = Some cw ∧ first_batch tg = Ok (nc, sh) ∧
               num_classes_ l = Some nc')) as [_ W];
    [|apply W; by rewrite H].
  unfold main_data.
  apply wp_seq; [unfold main_import; wp_trivial|]. intros cls.
  apply (wp_bind _ _ _
           (λ l, ∃ tg vg cw nc sh,
              train_generator_ l = Some tg ∧ val_generator_ l = Some vg ∧
              class_weights_ l = Some cw ∧ first_batch tg = Ok (nc, sh) ∧
              num_classes_ l = Some nc)).
  - unfold main_train_data. rewrite Hm.
    rewrite (M_bind_lift_Ok _ _ true) by done.
    do 2 (apply wp_seq; [by apply wp_lift|]; intros ?).
    apply wp_seq; [by apply wp_call|]. intros tg.
    do 2 (apply wp_seq; [by apply wp_lift|]; intros ?).
    apply wp_seq; [by apply wp_call|]. intros vg.
    eapply wp_bind; [apply wp_lift; intros b Hb; exact Hb|].
    intros [nc sh] Hb.
    apply wp_seq;
      [unfold main_class_weights, main_ignore_unlabelled; wp_trivial|].
    intros cw.
    apply wp_seq;
      [unfold main_class_weights, main_ignore_unlabelled; wp_trivial|].
    intros cw'. apply wp_seq; [by apply wp_emit|]. intros _.
    apply wp_ret. by exists tg, vg, cw', nc, sh.
  - intros l' (tg & vg & cw & nc & sh & H1 & H2 & H3 & H4 & H5).
    unfold main_test_data.
    apply wp_seq; [by apply wp_lift|]. intros [|].
    + do 2 (apply wp_seq; [by apply wp_lift|]; intros ?).
      apply wp_seq; [by apply wp_call|]. intros g.
      apply wp_seq; [by apply wp_lift|]. intros [nc' sh'].
      apply wp_ret. by exists tg, vg, cw, nc, sh, nc'.
    + apply wp_ret. by exists tg, vg, cw, nc, sh, nc.
Qed.

Lemma main_checkpoint_path_Ok args p :
  main_checkpoint_path args = Ok p →
  ∃ dir name,
    args !! "checkpoint_dir" = Some (VStr dir) ∧
    args !! "name" = Some (VStr name) ∧
    p = path_join dir [name; name +:+ ".h5"].
Proof.
  unfold main_checkpoint_path, getattr. intros H.
  destruct (args !! "checkpoint_dir") as [[| | | |dir]|]; simplify_eq/=;
    destruct (args !! "name") as [[| | | |name]|]; simplify_eq/=.
  by exists dir, name.
Qed.

(** A training run that resumes: up to the call of [train]. *)
Lemma main_body_resume args t0 l p v nc :
  main_data args = (t0, Ok l) →
  main_checkpoint_path args = Ok p →
  args !! "resume" = Some v → truthy v = true →
  num_classes_ l = Some nc →
  main_body args =
  match load_model p (custom_objects nc) with
  | Raise e =>
      (t0 ++ [EPrintCheckpointPath p; ELoadModel p (custom_objects nc)],
       Raise e)
  | Ok m =>
      let rest := model ← main_train args l p (Some m); main_test args l model in
      (t0 ++ [EPrintCheckpointPath p; ELoadModel p (custom_objects nc)]
          ++ trace rest, outcome rest)
  end.
Proof.
  intros Hd Hp Hv Ht Hn.
  assert (main_resume args l p =
          ([ELoadModel p (custom_objects nc)],
           Some <$> load_model p (custom_objects nc))) as Hr.
  { unfold main_resume, getattr. rewrite Hv.
    rewrite (M_bind_lift_Ok _ _ v) by done. rewrite Ht, Hn.
    by rewrite (M_bind_lift_Ok _ _ nc). }
  unfold main_body.
  rewrite (M_bind_Ok _ _ t0 l) by done.
  rewrite (M_bind_lift_Ok _ _ p), M_bind_emit by done.
  rewrite Hr. destruct (load_model p (custom_objects nc)) as [m|e].
  - by rewrite (M_bind_Ok _ _ [ELoadModel p (custom_objects nc)] (Some m)).
  - by rewrite (M_bind_Raise _ _ [ELoadModel p (custom_objects nc)] e).
Qed.

(** [main] hands [train] the attributes of the namespace and the model
    that was loaded. *)
Lemma main_train_calls args l p model tg vg cw epochs k lr d n dir name :
  mode_in args "train" "full" = Ok true →
  args !! "checkpoint_dir" = Some (VStr dir) →
  args !! "name" = Some (VStr name) →
  hyperparameters args epochs k lr d n →
  train_generator_ l = Some tg → val_generator_ l = Some vg →
  class_weights_ l = Some cw →
  ∃ workers verbose,
    args !! "workers" = Some workers ∧ args !! "verbose" = Some verbose ∧
    main_train args l p model =
    (m ← train epochs k tg vg cw lr d n workers verbose (path_join dir [name])
           model;
     _ ← call (ESave p) (save m p);
     mret (Some m)).
Proof.
  intros Hm Hdir Hname (He & Hk & Hlr & Hd & Hn & [wk Hwk] & [vb Hvb])
    Htg Hvg Hcw.
  exists wk, vb. split; [done|]. split; [done|].
  unfold main_train. rewrite Hm. rewrite (M_bind_lift_Ok _ _ true) by done.
  unfold getattr.
  rewrite Hdir, Hname, He, Hk, Hlr, Hd, Hn, Hwk, Hvb, Htg, Hvg, Hcw.
  by repeat (erewrite M_bind_lift_Ok; [|reflexivity]).
Qed.

End BodyFacts.

(** ** The program *)

Section ProgramFacts.
Context `{Co : Collaborators}.


Lemma main_exits argv e :
  get_arguments argv = Raise e → main argv = ([], Raise e).
Proof. intros H. unfold main. by rewrite (M_bind_lift_Raise _ _ e). Qed.

Lemma parsed_lower_dataset args :
  parsed args → lower_is args "dataset" "camvid" = Ok true.
Proof. intros P. by rewrite (lower_is_eq _ _ _ _ (parsed_dataset _ P)). Qed.



(** The events after [m] satisfy [P] if those of the continuation do. *)
Lemma trace_bind_wp {A B} (m : M A) (k : A → M B) P :
  (∀ a, wp (k a) P (λ _, True)) →
  ∃ rest, trace (m ≫= k) = trace m ++ rest ∧ Forall P rest.
Proof.
  intros H. destruct m as [t [a|e]].
  - rewrite (M_bind_Ok _ _ t a) by done. eexists. split; [done|]. apply H.
  - exists []. unfold trace. simpl. by rewrite app_nil_r.
Qed.

Lemma fit_epochs_first tg vg cw lr d k m cur e n r :
  (0 < n)%nat → _lr_decay lr d k e cur = Ok r →
  ∃ t', trace (fit_epochs tg vg cw lr d k m cur e n)
        = ESetLearningRate e r :: EEpoch e r :: t'.
Proof.
  intros Hn Hr. destruct n as [|n]; [lia|]. cbn [fit_epochs].
  rewrite (M_bind_lift_Ok _ _ r), M_bind_emit by done.
  destruct (fit_epoch m tg vg cw e r) as [m'|x] eqn:E.
  - rewrite (M_bind_call_Ok _ _ _ m') by done. by eexists.
  - rewrite (M_bind_call_Raise _ _ _ x) by done. by eexists.
Qed.

Lemma _lr_decay_staircase lr d n :
  (∀ x y : float, float_mul x y = float_mul y x) →
  ∀ i cur, _lr_decay lr d n i cur = staircase lr d n i.
Proof.
  intros comm i cur. unfold _lr_decay, staircase.
  destruct (floordiv i n) as [q|]; [|done]. simpl.
  destruct (float_pow d q) as [x|]; [|done]. simpl. by rewrite comm.
Qed.

Lemma rates_from_ext f g : (∀ i, f i = g i) →
  ∀ n e, rates_from f e n = rates_from g e n.
Proof.
  intros H. induction n as [|n IH]; intros e; simpl; [done|].
  rewrite H. destruct (g e); [|done]. by rewrite IH.
Qed.

Lemma train_no_build epochs k tg vg cw lr d n workers verbose dir m :
  Forall (λ e, builds_model e = false)
    (trace (train epochs k tg vg cw lr d n workers verbose dir (Some m))).
Proof. by apply (train_wp (λ e, builds_model e = false)). Qed.

Lemma main_body_no_build args v :
  args !! "resume" = Some v → truthy v = true →
  Forall (λ e, builds_model e = false) (trace (main_body args)).
Proof.
  intros Hv Ht.
  apply (main_body_wp (λ e, builds_model e = false) args (λ _, True));
    try done; [|by eauto].
  eapply wp_mono; [apply main_data_no_model|]. by intros [].
Qed.

End ProgramFacts.

Lemma exact_mul_comm :
  ∀ x y : @float Exact.python, float_mul x y = float_mul y x.
Proof.
  intros [a b] [c d]. simpl. unfold Qmult. simpl.
  by rewrite Z.mul_comm, Pos.mul_comm.
Qed.


(** * The claims *)

Section Claims.
Context `{Co : Collaborators}.


(** C4.  With [ignore_unlabelled] set, on the namespace of a run from the
    command line and on any namespace that names the camvid dataset: the
    class weights that [main] prints and those it hands to the training
    end in 0, whichever function produced them, and a vector of weights is
    changed in its last entry only. *)
Theorem unlabelled_weight_zeroed args v :
  (∃ argv, get_arguments argv = Ok args) ∨
  lower_is args "dataset" "camvid" = Ok true →
  args !! "ignore_unlabelled" = Some v → truthy v = true →
  Forall unlabelled_ignored (trace (main_body args)) ∧
  ∀ w, w ≠ [] →
       ∃ w', main_ignore_unlabelled args (Some w) = ([], Ok (Some w')) ∧
             last w' = Some float_zero ∧ length w' = length w ∧
             ∀ i, (i < length w - 1)%nat → w' !! i = w !! i.
Proof.
  intros Hd Hv Ht.
  assert (lower_is args "dataset" "camvid" = Ok true) as Hc.
  { destruct Hd as [[argv H] | H]; [|done].
    by apply parsed_lower_dataset, (parse_args_parsed argv). }
  split.
  - apply (main_body_wp unlabelled_ignored args
             (λ l, ∀ cw, class_weights_ l = Some cw → zeroed cw));
      try done; [by eapply main_data_zeroed | | by right].
    intros l [w|] m e k Hl Hw; [|done]. simpl. by eapply Hl.
  - intros w Hw. destruct (set_last_zero_Ok w Hw) as (w' & Hz & Hl).
    exists w'. unfold main_ignore_unlabelled, getattr. rewrite Hv.
    rewrite (M_bind_lift_Ok _ _ v) by done. rewrite Ht, Hc.
    rewrite (M_bind_lift_Ok _ _ true) by done. rewrite Hz.
    split; [done|]. split; [done|].
    destruct w as [|x w]; [done|]. simpl in Hz. injection Hz as <-.
    split; [by rewrite length_insert|].
    intros i Hi. apply list_lookup_insert_ne. simpl in *. lia.
Qed.


(** C6.  [--verbose] is declared with [choices=[0, 1, 2]], ints, and
    without [type=int]: the argument string is compared with the ints as a
    string, so the parser refuses 0, 1 and 2 themselves, the values that
    the help text of the option lists.  [main] exits with status 2 on each
    of them, before any event, and the only verbosity a run can have is
    the default 1. *)
Theorem verbose_choices_refused :
  main ["--verbose"; "0"] = ([], Raise (SystemExit 2)) ∧
  main ["--verbose"; "1"] = ([], Raise (SystemExit 2)) ∧
  main ["--verbose"; "2"] = ([], Raise (SystemExit 2)) ∧
  main ["--verbose=1"] = ([], Raise (SystemExit 2)) ∧
  _get_values arg_verbose "1" = Raise (SystemExit 2) ∧
  (λ ns, ns !! "verbose") <$> get_arguments [] = Ok (Some (VInt 1)).
Proof.
  assert (∀ argv, get_arguments argv = Raise (SystemExit 2) →
                  main argv = ([], Raise (SystemExit 2))) as E
    by (intros argv; apply main_exits).
  split; [by apply E|]. split; [by apply E|]. split; [by apply E|].
  split; [by apply E|]. split; reflexivity.
Qed.


(** C2.  The schedule that [train] installs is the staircase of the design
    document, [learning_rate * lr_decay^(epoch // lr_decay_epochs)] with
    floor division, for every epoch index and whatever the optimizer's
    learning rate is; float multiplication is taken to commute.  In a run
    of [train] the batches of an epoch run at that rate, set right before
    them, and with collaborators that return and a schedule that is
    defined every epoch from [initial_epoch] to [epochs - 1] runs so. *)
Theorem lr_schedule_staircase
    (comm : ∀ x y : float, float_mul x y = float_mul y x)
    epochs initial_epoch tg vg cw lr d n workers verbose dir ckpt :
  let run := train epochs initial_epoch tg vg cw lr d n workers verbose dir
               ckpt in
  (∀ i cur, _lr_decay lr d n i cur = staircase lr d n i) ∧
  (∀ i r, EEpoch i r ∈ trace run →
          initial_epoch ≤ i < epochs ∧ staircase lr d n i = Ok r) ∧
  (∀ t1 i r t2, trace run = t1 ++ EEpoch i r :: t2 →
                ∃ t1', t1 = t1' ++ [ESetLearningRate i r]) ∧
  ((∃ nc sh, first_batch tg = Ok (nc, sh) ∧
             (ckpt = None → ∃ m, LinkNet nc sh = Ok m)) →
   (∀ m i r, ∃ m', fit_epoch m tg vg cw i r = Ok m') →
   (∀ j, initial_epoch ≤ j < epochs → ∃ r, staircase lr d n j = Ok r) →
   (∃ m, outcome run = Ok m) ∧
   ∀ i, initial_epoch ≤ i < epochs →
        ∃ r, staircase lr d n i = Ok r ∧ EEpoch i r ∈ trace run).
Proof.
  intros run.
  pose proof (_lr_decay_staircase lr d n comm) as S.
  destruct (train_trace epochs initial_epoch tg vg cw lr d n workers verbose
              dir ckpt) as (pre & l & Ht & Hpre & Hp & Ho).
  fold run in Ht, Ho.
  assert (∀ i r, (i, r) ∈ l →
                 initial_epoch ≤ i < epochs ∧ staircase lr d n i = Ok r) as Hl.
  { intros i r Hi. eapply prefix_elem in Hi; [|exact Hp].
    apply rates_from_spec in Hi as [Hf Hi]. rewrite S in Hf.
    split; [lia | done]. }
  split; [done|]. split; [|split].
  - intros i r Hi. rewrite Ht in Hi. apply elem_of_app in Hi as [Hi|Hi].
    + rewrite Forall_forall in Hpre. by apply Hpre in Hi.
    + by apply Hl, elem_of_epoch_events.
  - intros t1 i r t2 H. rewrite Ht in H.
    apply app_split_other in H as (t1' & -> & H); [|done..].
    apply epoch_events_split in H as [t1'' ->].
    exists (pre ++ t1''). by rewrite app_assoc.
  - intros (nc & sh & Hb & Hn) Hf Hs.
    assert (∃ m, outcome run = Ok m) as [m Hm].
    { unfold run. rewrite train_eq, Hb.
      assert (∀ m0, ∃ m,
        outcome (fit_epochs tg vg cw lr d n m0 lr initial_epoch
                   (Z.to_nat (epochs - initial_epoch))) = Ok m) as F.
      { intros m0. apply fit_epochs_returns; [done|].
        intros j Hj. rewrite S. apply Hs. lia. }
      destruct ckpt as [m0|]; [by apply F|].
      destruct Hn as [m0 ->]; [done|]. by apply F. }
    split; [by eauto|]. intros i Hi.
    destruct (rates_from_complete (λ i, _lr_decay lr d n i lr)
                (Z.to_nat (epochs - initial_epoch)) initial_epoch)
      with (i := i) as [r Hr].
    + intros j Hj. rewrite S. apply Hs. lia.
    + lia.
    + rewrite <- (Ho m Hm) in Hr. exists r.
      split; [by apply Hl|]. rewrite Ht. apply elem_of_app. right.
      by apply elem_of_epoch_events.
Qed.

(** C3.  A run of [train] on a restored model and a run on a fresh model,
    both started at epoch [k] with the same [learning_rate], [lr_decay] and
    [lr_decay_epochs], set the same learning rates: each sets the rates of
    the staircase from epoch [k] on, as far as it gets, and all of them if
    it returns; the first is the rate of epoch [k].  The schedule does not
    read the optimizer's learning rate. *)
Theorem resume_same_schedule
    (comm : ∀ x y : float, float_mul x y = float_mul y x)
    epochs k lr d n tg1 vg1 cw1 workers1 verbose1 dir1 m
    tg2 vg2 cw2 workers2 verbose2 dir2 :
  let resumed := train epochs k tg1 vg1 cw1 lr d n workers1 verbose1 dir1
                   (Some m) in
  let fresh := train epochs k tg2 vg2 cw2 lr d n workers2 verbose2 dir2
                 None in
  let rates := rates_from (staircase lr d n) k (Z.to_nat (epochs - k)) in
  (∀ cur1 cur2, _lr_decay lr d n k cur1 = _lr_decay lr d n k cur2 ∧
                _lr_decay lr d n k cur1 = staircase lr d n k) ∧
  lr_schedule (trace resumed) `prefix_of` rates ∧
  lr_schedule (trace fresh) `prefix_of` rates ∧
  (∀ m1, outcome resumed = Ok m1 → lr_schedule (trace resumed) = rates) ∧
  (∀ m2, outcome fresh = Ok m2 → lr_schedule (trace fresh) = rates) ∧
  (∀ i r, (i, r) ∈ rates → k ≤ i < epochs ∧ staircase lr d n i = Ok r) ∧
  (∀ i r1 r2, (i, r1) ∈ lr_schedule (trace resumed) →
              (i, r2) ∈ lr_schedule (trace fresh) → r1 = r2) ∧
  (∀ r, k < epochs → staircase lr d n k = Ok r → rates !! 0%nat = Some (k, r)).
Proof.
  intros resumed fresh rates.
  pose proof (_lr_decay_staircase lr d n comm) as S.
  assert (rates_from (λ i, _lr_decay lr d n i lr) k (Z.to_nat (epochs - k))
          = rates) as R by (apply rates_from_ext; intros i; apply S).
  assert (∀ run : M Model,
    (∃ pre l, trace run = pre ++ epoch_events l ∧
       Forall (λ e, epoch_event e = false) pre ∧ l `prefix_of` rates ∧
       (∀ m', outcome run = Ok m' → l = rates)) →
    lr_schedule (trace run) `prefix_of` rates ∧
    (∀ m', outcome run = Ok m' → lr_schedule (trace run) = rates)) as K.
  { intros run (pre & l & Ht & Hpre & Hp & Ho).
    rewrite Ht, lr_schedule_app, lr_schedule_other, lr_schedule_epoch_events
      by done. done. }
  destruct (K resumed) as [P1 O1].
  { unfold resumed. rewrite <- R. apply train_trace. }
  destruct (K fresh) as [P2 O2].
  { unfold fresh. rewrite <- R. apply train_trace. }
  split; [by split; [|apply S]|].
  assert (∀ i r, (i, r) ∈ rates →
                 k ≤ i < epochs ∧ staircase lr d n i = Ok r) as Hr.
  { intros i r Hi. apply rates_from_spec in Hi as [Hf Hi]. split; [lia|done]. }
  do 4 (split; [done|]). split; [done|]. split.
  - intros i r1 r2 H1 H2.
    apply (prefix_elem _ _ _ P1), Hr in H1 as [_ H1].
    apply (prefix_elem _ _ _ P2), Hr in H2 as [_ H2]. congruence.
  - intros r Hk Hr'. unfold rates.
    destruct (Z.to_nat (epochs - k)) as [|n'] eqn:E; [lia|].
    simpl. by rewrite Hr'.
Qed.

(** C8.  A training run whose namespace asks to resume: [main] loads the
    model from the checkpoint path with two custom objects registered by
    name, the layer [Conv2DTranspose] under 'Conv2DTranspose' and the
    metric [MeanIoU(num_classes).mean_iou] under 'mean_iou', and hands the
    model to [train] with the [initial_epoch] of the namespace.  No model
    is built, the epochs that run start at [initial_epoch], and nothing of
    this depends on the model that was loaded: the epoch to start at is
    not read off the checkpoint. *)
Theorem resume_at_initial_epoch args t0 l p v epochs k lr d n m :
  main_data args = (t0, Ok l) →
  main_checkpoint_path args = Ok p →
  args !! "resume" = Some v → truthy v = true →
  mode_in args "train" "full" = Ok true →
  hyperparameters args epochs k lr d n →
  (∀ nc, num_classes_ l = Some nc →
         load_model p [("Conv2DTranspose", Conv2DTranspose);
                       ("mean_iou", MeanIoU_mean_iou nc)] = Ok m) →
  ∃ dir name nc cw rest,
    args !! "checkpoint_dir" = Some (VStr dir) ∧
    args !! "name" = Some (VStr name) ∧
    p = path_join dir [name; name +:+ ".h5"] ∧
    num_classes_ l = Some nc ∧ class_weights_ l = Some cw ∧
    trace (main_body args) =
      t0 ++ [EPrintCheckpointPath p;
             ELoadModel p [("Conv2DTranspose", Conv2DTranspose);
                           ("mean_iou", MeanIoU_mean_iou nc)];
             ECompile lr; EFitGenerator m cw epochs k] ++ rest ∧
    (∀ i r, EEpoch i r ∈ rest → k ≤ i < epochs) ∧
    (k < epochs → ∀ r, _lr_decay lr d n k lr = Ok r →
       ∃ rest', rest = ESetLearningRate k r :: EEpoch k r :: rest') ∧
    Forall (λ e, builds_model e = false) (trace (main_body args)) ∧
    (∀ path objs, ELoadModel path objs ∈ trace (main_body args) →
       path = p ∧
       objs = [("Conv2DTranspose", Conv2DTranspose);
               ("mean_iou", MeanIoU_mean_iou nc)]).
Proof.
  intros Hd Hp Hv Ht Hm Hh Hl.
  destruct (main_checkpoint_path_Ok _ _ Hp) as (dir & name & Hdir & Hname & Hpe).
  destruct (main_data_bound _ _ _ Hm Hd)
    as (tg & vg & cw & nc0 & sh & nc & Htg & Hvg & Hcw & Hb & Hnc).
  pose proof (main_body_no_build args v Hv Ht) as NB.
  assert (∃ rest,
    trace (main_body args) =
      t0 ++ [EPrintCheckpointPath p;
             ELoadModel p [("Conv2DTranspose", Conv2DTranspose);
                           ("mean_iou", MeanIoU_mean_iou nc)];
             ECompile lr; EFitGenerator m cw epochs k] ++ rest ∧
    (∀ i r, EEpoch i r ∈ rest → k ≤ i < epochs) ∧
    (k < epochs → ∀ r, _lr_decay lr d n k lr = Ok r →
       ∃ rest', rest = ESetLearningRate k r :: EEpoch k r :: rest') ∧
    Forall (λ e, match e with ELoadModel _ _ => False | _ => True end) rest)
    as (rest & E & H1 & H2 & H3).
  2: { exists dir, name, nc, cw, rest. do 9 (split; [done|]).
       intros path objs Hin. rewrite E in Hin.
       rewrite !elem_of_app in Hin. destruct Hin as [Hin | [Hin | Hin]].
       - pose proof (main_data_no_model args) as [F _].
         rewrite Hd in F. rewrite Forall_forall in F. by apply F in Hin.
       - repeat (apply elem_of_cons in Hin as [Hin | Hin]); simplify_eq;
           [done|]. by apply elem_of_nil in Hin.
       - rewrite Forall_forall in H3. by apply H3 in Hin. }
  rewrite (main_body_resume _ _ _ _ _ _ Hd Hp Hv Ht Hnc).
  change (custom_objects nc)
    with [("Conv2DTranspose", Conv2DTranspose);
          ("mean_iou", MeanIoU_mean_iou nc)].
  rewrite (Hl nc Hnc).
  destruct (main_train_calls args l p (Some m) tg vg cw epochs k lr d n dir
              name Hm Hdir Hname Hh Htg Hvg Hcw)
    as (workers & verbose & _ & _ & ->).
  destruct (trace_bind_wp
              (m' ← train epochs k tg vg cw lr d n workers verbose
                      (path_join dir [name]) (Some m);
               _ ← call (ESave p) (save m' p); mret (Some m'))
              (λ model, main_test args l model)
              (λ e, epoch_event e = false ∧
                    match e with ELoadModel _ _ => False | _ => True end))
    as (ra & Ea & Fa).
  { intros model. by apply main_test_wp. }
  destruct (trace_bind_wp
              (train epochs k tg vg cw lr d n workers verbose
                 (path_join dir [name]) (Some m))
              (λ m', _ ← call (ESave p) (save m' p); mret (Some m'))
              (λ e, epoch_event e = false ∧
                    match e with ELoadModel _ _ => False | _ => True end))
    as (rb & Eb & Fb).
  { intros m'. wp_trivial. }
  cbn zeta. unfold trace at 1. cbn [fst]. rewrite Ea, Eb.
  rewrite train_eq, Hb. cbn zeta. unfold trace at 1. cbn [fst].
  destruct (fit_epochs_trace tg vg cw lr d n
              (Z.to_nat (epochs - k)) m lr k) as (le & Hle & Hpre & _).
  exists (trace (fit_epochs tg vg cw lr d n m lr k (Z.to_nat (epochs - k)))
            ++ rb ++ ra).
  split; [|split; [|split]].
  - by rewrite <- !app_assoc.
  - intros i r Hi. rewrite !elem_of_app in Hi. destruct Hi as [Hi|[Hi|Hi]].
    + rewrite Hle in Hi. apply elem_of_epoch_events in Hi.
      eapply prefix_elem in Hi; [|exact Hpre].
      apply rates_from_spec in Hi as [_ Hi]. lia.
    + rewrite Forall_forall in Fb. apply Fb in Hi as [Hi _]. done.
    + rewrite Forall_forall in Fa. apply Fa in Hi as [Hi _]. done.
  - intros Hk r Hr.
    destruct (fit_epochs_first tg vg cw lr d n m lr k
                (Z.to_nat (epochs - k)) r) as [t' Ht']; [lia|done|].
    rewrite Ht'. by eexists.
  - rewrite !Forall_app. split; [|split].
    + pose proof (fit_epochs_wp
                    (λ e, match e with ELoadModel _ _ => False | _ => True end)
                    tg vg cw lr d n) as W.
      apply W; done.
    + eapply Forall_impl; [exact Fb|]. by intros ? [_ ?].
    + eapply Forall_impl; [exact Fa|]. by intros ? [_ ?].
Qed.


(** C9.  A run whose namespace asks to resume and whose checkpoint does
    not load ends with the exception of [load_model], right after the call:
    no model is built and nothing is trained.  Whenever resume is asked
    for, [main] builds no model; [train] builds one exactly when it is
    handed none. *)
Theorem failed_resume_is_fatal args t0 l p v nc e :
  main_data args = (t0, Ok l) →
  main_checkpoint_path args = Ok p →
  args !! "resume" = Some v → truthy v = true →
  num_classes_ l = Some nc →
  load_model p (custom_objects nc) = Raise e →
  main_body args =
    (t0 ++ [EPrintCheckpointPath p; ELoadModel p (custom_objects nc)],
     Raise e) ∧
  (∀ args' v', args' !! "resume" = Some v' → truthy v' = true →
     Forall (λ e, builds_model e = false) (trace (main_body args'))) ∧
  (∀ epochs k tg vg cw lr d n workers verbose dir m,
     Forall (λ e, builds_model e = false)
       (trace (train epochs k tg vg cw lr d n workers verbose dir (Some m)))) ∧
  (∀ epochs k tg vg cw lr d n workers verbose dir nc' sh,
     first_batch tg = Ok (nc', sh) →
     ∃ t', trace (train epochs k tg vg cw lr d n workers verbose dir None)
           = ELinkNet nc' :: t').
Proof.
  intros Hd Hp Hv Ht Hn Hl. split; [|split; [|split]].
  - by rewrite (main_body_resume _ _ _ _ _ _ Hd Hp Hv Ht Hn), Hl.
  - intros args' v'. apply main_body_no_build.
  - intros. apply train_no_build.
  - intros epochs k tg vg cw lr d n workers verbose dir nc' sh Hb.
    rewrite train_eq, Hb. destruct (LinkNet nc' sh); by eexists.
Qed.

End Claims.

(** C7.  The run of [main] on the defaults, with collaborators that
    return: it raises AttributeError on [args.checkpoint_dir] and nothing
    is saved.  The namespace holds [save_dir], which [main] never reads,
    and no [checkpoint_dir]. *)
Theorem default_run_saves_nothing :
  @main Exact.python (Lab.lab (Ok 7)) []
  = (Lab.data_events (Ok 7), Raise (AttributeError "checkpoint_dir")) ∧
  Forall (λ e, match e with ESave _ => False | _ => True end)
    (Lab.data_events (Ok 7)) ∧
  (λ ns, ns !! "save_dir") <$> @get_arguments Exact.python []
    = Ok (Some (VStr "checkpoints")) ∧
  (λ ns, ns !! "checkpoint_dir") <$> @get_arguments Exact.python []
    = Ok None.
Proof.
  split; [reflexivity|]. split; [by repeat constructor|].
  split; reflexivity.
Qed.

(** ** The statements at concrete inputs *)

Section Witnesses.
#[local] Existing Instance Exact.python.


Lemma unlabelled_weight_zeroed_witness :
  lower_is (Lab.resuming 100) "dataset" "camvid" = Ok true ∧
  Lab.resuming 100 !! "ignore_unlabelled" = Some (VBool true) ∧
  Forall unlabelled_ignored
    (trace (main_body (Co := Lab.lab (Ok 7)) (Lab.resuming 100))).
Proof.
  assert (lower_is (Lab.resuming 100) "dataset" "camvid" = Ok true) as H1
    by reflexivity.
  assert (Lab.resuming 100 !! "ignore_unlabelled" = Some (VBool true)) as H2
    by reflexivity.
  split; [exact H1|]. split; [exact H2|].
  exact (proj1 (unlabelled_weight_zeroed (Co := Lab.lab (Ok 7)) _ _
                  (or_intror H1) H2 eq_refl)).
Defined.



Lemma lr_schedule_staircase_witness :
  let lr := float_lit 5 (-4) in
  let d := float_lit 1 (-1) in
  ∃ r, staircase lr d 100 100 = Ok r ∧
       EEpoch 100 r ∈
         trace (train (Co := Lab.lab (Ok 7)) 102 100 "train" "val" None lr d 100
                  (VInt 4) (VInt 1) "checkpoints/LinkNet" (Some 7)).
Proof.
  intros lr d.
  refine (proj2 (proj2 (proj2 (proj2
            (lr_schedule_staircase (Co := Lab.lab (Ok 7)) exact_mul_comm
               102 100 "train" "val" None lr d 100
               (VInt 4) (VInt 1) "checkpoints/LinkNet" (Some 7)))) _ _ _)
            100 _).
  - exists 12, (). split; [reflexivity | discriminate].
  - intros m i r. by eexists.
  - intros j Hj. unfold staircase, floordiv. simpl. unfold Exact.qpow.
    replace (j / 100 <? 0) with false; [by eexists|].
    symmetry. apply Z.ltb_ge. apply Z.div_pos; lia.
  - lia.
Defined.

Lemma resume_same_schedule_witness :
  let lr := float_lit 5 (-4) in
  let d := float_lit 1 (-1) in
  let resumed := train (Co := Lab.lab (Ok 7)) 102 100 "train" "val" None lr d
                   100 (VInt 4) (VInt 1) "checkpoints/LinkNet" (Some 7) in
  let fresh := train (Co := Lab.lab (Ok 7)) 102 100 "train" "val" None lr d
                 100 (VInt 4) (VInt 1) "checkpoints/LinkNet" None in
  lr_schedule (trace resumed) = rates_from (staircase lr d 100) 100 2 ∧
  lr_schedule (trace fresh) = rates_from (staircase lr d 100) 100 2.
Proof.
  intros lr d resumed fresh.
  pose proof (resume_same_schedule (Co := Lab.lab (Ok 7)) exact_mul_comm
                102 100 lr d 100 "train" "val" None (VInt 4) (VInt 1)
                "checkpoints/LinkNet" 7 "train" "val" None (VInt 4) (VInt 1)
                "checkpoints/LinkNet") as (_ & _ & _ & H1 & H2 & _).
  split; [apply (H1 9) | apply (H2 2)]; reflexivity.
Defined.

Lemma resume_at_initial_epoch_witness :
  ∃ rest,
    trace (main_body (Co := Lab.lab (Ok 7)) (Lab.resuming 100)) =
    Lab.data_events (Ok 7)
    ++ [EPrintCheckpointPath "checkpoints/LinkNet/LinkNet.h5";
        ELoadModel "checkpoints/LinkNet/LinkNet.h5"
          [("Conv2DTranspose", Conv2DTranspose);
           ("mean_iou", MeanIoU_mean_iou 12)];
        ECompile (float_lit 5 (-4));
        EFitGenerator (Co := Lab.lab (Ok 7)) 7 (Some Lab.weights) 102 100]
    ++ rest.
Proof.
  destruct (resume_at_initial_epoch (Co := Lab.lab (Ok 7)) (Lab.resuming 100)
              (Lab.data_events (Ok 7)) (Lab.data_locals (Ok 7))
              "checkpoints/LinkNet/LinkNet.h5" (VBool true)
              102 100 (float_lit 5 (-4)) (float_lit 1 (-1)) 100 7)
    as (dir & name & nc & cw & rest & _ & _ & _ & Hn & Hc & Ht & _).
  - reflexivity.
  - reflexivity.
  - reflexivity.
  - reflexivity.
  - reflexivity.
  - repeat split; try reflexivity; eexists; reflexivity.
  - reflexivity.
  - exists rest. simpl in Hn, Hc. injection Hn as <-. injection Hc as <-.
    exact Ht.
Defined.

Lemma failed_resume_is_fatal_witness :
  let loaded := Raise (Exception "OSError") in
  main_body (Co := Lab.lab loaded) (Lab.resuming 100) =
  (Lab.data_events loaded
   ++ [EPrintCheckpointPath "checkpoints/LinkNet/LinkNet.h5";
       ELoadModel "checkpoints/LinkNet/LinkNet.h5" (custom_objects 12)],
   Raise (Exception "OSError")).
Proof.
  intros loaded.
  refine (proj1 (failed_resume_is_fatal (Co := Lab.lab loaded)
                   (Lab.resuming 100) (Lab.data_events loaded)
                   (Lab.data_locals loaded)
                   "checkpoints/LinkNet/LinkNet.h5" (VBool true) 12
                   (Exception "OSError") _ _ _ _ _ _)); reflexivity.
Defined.

End Witnesses.

(** * Further properties *)

(** ** The command line *)

Section CommandLineFacts.
Context `{Py : Python}.

Lemma in_parser_stores a : Store a ∈ parser → a ∈ stores parser.
Proof. apply elem_of_stores. Qed.

(** The string defaults of args.py belong to arguments whose [type]
    leaves a string as it is. *)
Lemma string_default_kept a s :
  a ∈ stores parser → default a = VStr s → _get_value a s = Ok (VStr s).
Proof.
  intros Ha. rewrite stores_parser in Ha.
  repeat (apply elem_of_cons in Ha as [-> | Ha]); try (by intros [=]);
    try (by inversion Ha); intros [= <-]; reflexivity.
Qed.

Lemma initial_namespace_default a :
  a ∈ stores parser →
  fold_left set_default (stores parser) ∅ !! dest a = Some (default a).
Proof.
  intros Ha. rewrite stores_parser in Ha.
  repeat (apply elem_of_cons in Ha as [-> | Ha]);
    try (vm_compute; reflexivity).
  inversion Ha.
Qed.

Lemma convert_defaults_seen seen a l : ∀ ns ns',
  convert_defaults seen ns l = Ok ns' →
  Forall (λ b, b ∈ stores parser) l → a ∈ stores parser →
  dest a ∈ seen → ns' !! dest a = ns !! dest a.
Proof.
  induction l as [|b l IH]; simpl; intros ns ns' H F Ha Hs; [by simplify_eq|].
  apply bind_Ok in H as (ns1 & H1 & H).
  inversion F; subst. rewrite (IH _ _ H) by done.
  unfold convert_default in H1.
  destruct (decide (dest b ∈ seen)) as [Hb|Hb]; [by simplify_eq|].
  destruct (default b) eqn:D; simplify_eq; try done.
  apply bind_Ok in H1 as (v & Hv & [= <-]). unfold setattr.
  apply lookup_insert_ne. intros E. apply Hb. by rewrite E.
Qed.

Lemma convert_defaults_default seen a l : ∀ ns ns',
  convert_defaults seen ns l = Ok ns' →
  Forall (λ b, b ∈ stores parser) l → a ∈ stores parser →
  ns !! dest a = Some (default a) → ns' !! dest a = Some (default a).
Proof.
  induction l as [|b l IH]; simpl; intros ns ns' H F Ha Hd; [by simplify_eq|].
  apply bind_Ok in H as (ns1 & H1 & H).
  inversion F as [|? ? Hb F']; subst. apply (IH _ _ H); [done..|].
  unfold convert_default in H1.
  destruct (decide (dest b ∈ seen)); [by simplify_eq|].
  destruct (default b) as [| | | |s] eqn:D; simplify_eq; try done.
  rewrite (string_default_kept b s Hb D) in H1. simpl in H1.
  injection H1 as <-. unfold setattr.
  destruct (decide (dest b = dest a)) as [E|E].
  - apply dest_inj in E as ->; [|done..]. by rewrite lookup_insert_eq, D.
  - by rewrite lookup_insert_ne.
Qed.

(** Converting the defaults of args.py never fails. *)
Lemma convert_defaults_total seen l : ∀ ns,
  Forall (λ b, b ∈ stores parser) l →
  ∃ ns', convert_defaults seen ns l = Ok ns'.
Proof.
  induction l as [|b l IH]; simpl; intros ns F; [by eexists|].
  inversion F as [|? ? Hb F']; subst.
  assert (∃ ns1, convert_default seen ns b = Ok ns1) as [ns1 ->].
  { unfold convert_default. destruct (decide _); [by eexists|].
    destruct (default b) as [| | | |s] eqn:D; try by eexists.
    rewrite (string_default_kept b s Hb D). by eexists. }
  simpl. by apply IH.
Qed.

Lemma parser_option_strings_eq :
  parser_option_strings =
  ["-h"; "--help"; "--mode"; "-m"; "--batch_size"; "-b"; "--epochs";
   "--learning_rate"; "-lr"; "--lr_decay"; "--lr_decay_epochs"; "--dataset";
   "--dataset_dir"; "--weighing"; "--ignore_unlabelled"; "--workers";
   "--verbose"; "--name"; "--save_dir"].
Proof. reflexivity. Qed.

Lemma supplies_pair_arg a o v b s :
  supplies [TOpt (Some (Store a)) o None; TArg v] b s → b = a ∧ s = v.
Proof.
  intros S.
  apply supplies_cons_inv in S as [(? & ?) | [(? & ? & ? & ?) | S]];
    simplify_eq; [done|].
  apply supplies_cons_inv in S as [(? & ?) | [(? & ? & ? & ?) | S]];
    simplify_eq.
  by apply supplies_nil in S.
Qed.

Lemma supplies_explicit_arg a o v b s :
  supplies [TOpt (Some (Store a)) o (Some v)] b s → b = a ∧ s = v.
Proof.
  intros S.
  apply supplies_cons_inv in S as [(? & ?) | [(? & ? & ? & ?) | S]];
    simplify_eq; [done|].
  by apply supplies_nil in S.
Qed.

Lemma stores_parser_Forall : Forall (λ b, b ∈ stores parser) (stores parser).
Proof. by apply Forall_forall. Qed.

(** An option that the command line does not supply is left alone by the
    loop of the parser. *)
Lemma consume_keeps st toks st' a :
  consume parser st toks = Ok st' → Forall (known parser) toks →
  a ∈ stores parser → (∀ v, ¬ supplies toks a v) →
  namespace st' !! dest a = namespace st !! dest a.
Proof.
  intros C K Ha. revert C K.
  functional induction (consume parser st toks); intros C K N; simplify_eq;
    try done;
    try (rewrite IHr; [done | done | by inversion K
                      | intros v S; by apply (N v), supplies_cons]).
  - match goal with T : take_action _ _ _ = Ok _ |- _ =>
      apply take_action_Ok in T as (w & Hw & ->) end.
    inversion K as [|? ? Ka K']; subst. simpl in Ka.
    rewrite IHr; [|done|done|intros v S; by apply (N v), supplies_cons].
    simpl. unfold setattr. apply lookup_insert_ne. intros E.
    apply dest_inj in E as ->; [|by apply elem_of_stores|done].
    apply (N e). exists [], o, rest. by left.
  - match goal with T : take_action _ _ _ = Ok _ |- _ =>
      apply take_action_Ok in T as (w & Hw & ->) end.
    inversion K as [|? ? Ka K']; subst. simpl in Ka.
    inversion K' as [|? ? _ K'']; subst.
    rewrite IHr; [|done|done|intros v' S; by apply (N v'), supplies_cons, supplies_cons].
    simpl. unfold setattr. apply lookup_insert_ne. intros E.
    apply dest_inj in E as ->; [|by apply elem_of_stores|done].
    apply (N v). exists [], o, rest. by right.
Qed.

Lemma consume_seen st toks st' k :
  consume parser st toks = Ok st' → k ∈ seen_actions st → k ∈ seen_actions st'.
Proof.
  functional induction (consume parser st toks); intros C S; simplify_eq;
    try done; try (by apply IHr).
  - match goal with T : take_action _ _ _ = Ok _ |- _ =>
      apply take_action_Ok in T as (w & Hw & ->) end.
    apply IHr; [done|]. simpl. by apply elem_of_union_r.
  - match goal with T : take_action _ _ _ = Ok _ |- _ =>
      apply take_action_Ok in T as (w & Hw & ->) end.
    apply IHr; [done|]. simpl. by apply elem_of_union_r.
Qed.

Lemma supplies_last_cons_inv t toks a v :
  supplies_last (t :: toks) a v →
  (∃ o, t = TOpt (Some (Store a)) o (Some v) ∧ ∀ v', ¬ supplies toks a v') ∨
  (∃ o rest, t = TOpt (Some (Store a)) o None ∧ toks = TArg v :: rest ∧
             ∀ v', ¬ supplies rest a v') ∨
  supplies_last toks a v.
Proof.
  intros (pre & o & post & H & N). destruct pre as [|t' pre]; simpl in H.
  - destruct H as [H | H]; simplify_eq; [left | right; left]; eauto.
  - right; right. exists pre, o, post.
    destruct H as [H | H]; simplify_eq; auto.
Qed.

Lemma supplies_last_nil a v : ¬ supplies_last [] a v.
Proof. intros (pre & o & post & [H | H] & _); by destruct pre. Qed.

(** The argument string that the command line hands to an option last is
    the one whose value the loop of the parser leaves in the namespace. *)
Lemma consume_last st toks st' a v :
  consume parser st toks = Ok st' → Forall (known parser) toks →
  a ∈ stores parser → supplies_last toks a v →
  ∃ x, _get_values a v = Ok x ∧ namespace st' !! dest a = Some x ∧
       dest a ∈ seen_actions st'.
Proof.
  intros C K Ha. revert C K.
  functional induction (consume parser st toks); intros C K S; simplify_eq;
    try (apply supplies_last_cons_inv in S
           as [(? & ? & ?) | [(? & ? & ? & ? & ?) | S]];
         simplify_eq; apply IHr; [done | by inversion K | done]).
  - by apply supplies_last_nil in S.
  - match goal with T : take_action _ _ _ = Ok _ |- _ =>
      apply take_action_Ok in T as (w & Hw & ->) end.
    inversion K as [|? ? Ka K']; subst.
    apply supplies_last_cons_inv in S
      as [(? & ? & N) | [(? & ? & ? & ? & ?) | S]]; simplify_eq;
      [|by apply IHr].
    exists w. split; [done|]. split.
    + rewrite (consume_keeps _ _ _ _ C K' Ha N). simpl. unfold setattr.
      by rewrite lookup_insert_eq.
    + eapply consume_seen; [done|]. simpl.
      by apply elem_of_union_l, elem_of_singleton.
  - match goal with T : take_action _ _ _ = Ok _ |- _ =>
      apply take_action_Ok in T as (w & Hw & ->) end.
    inversion K as [|? ? Ka K']; subst. inversion K' as [|? ? _ K'']; subst.
    apply supplies_last_cons_inv in S
      as [(? & ? & N) | [(? & ? & ? & ? & N) | S]]; simplify_eq.
    + exists w. split; [done|]. split.
      * rewrite (consume_keeps _ _ _ _ C K'' Ha N). simpl. unfold setattr.
        by rewrite lookup_insert_eq.
      * eapply consume_seen; [done|]. simpl.
      by apply elem_of_union_l, elem_of_singleton.
    + apply supplies_last_cons_inv in S
        as [(? & ? & ?) | [(? & ? & ? & ? & ?) | S]]; simplify_eq.
      by apply IHr.
Qed.

(** The loop of the parser returns with no extras exactly on option and
    value pairs whose values are accepted. *)
Lemma consume_pairs p st toks st' :
  consume p st toks = Ok st' → extras st' = [] →
  extras st = [] ∧ option_value_pairs toks = true.
Proof.
  functional induction (consume p st toks); intros C E; simplify_eq;
    try done;
    try (destruct (IHr C E) as [E' _]; simpl in E';
         by apply app_eq_nil in E' as [_ ?]).
  - match goal with T : take_action _ _ _ = Ok _ |- _ =>
      apply take_action_Ok in T as (w & Hw & ->) end.
    destruct (IHr C E) as [E' W]. by simpl in *.
  - match goal with T : take_action _ _ _ = Ok _ |- _ =>
      apply take_action_Ok in T as (w & Hw & ->) end.
    destruct (IHr C E) as [E' W]. by simpl in *.
Qed.

Lemma pairs_consume p st toks :
  option_value_pairs toks = true →
  (∀ a v, supplies toks a v → ∃ x, _get_values a v = Ok x) →
  ∃ st', consume p st toks = Ok st' ∧ extras st' = extras st.
Proof.
  functional induction (consume p st toks); intros W V;
    try discriminate; simpl in W.
  - by eexists.
  - match goal with T : take_action _ _ _ = Ok _ |- _ =>
      apply take_action_Ok in T as (w & Hw & ->) end.
    destruct IHr as (st'' & -> & E); [done| |by eexists].
    intros b v S. by apply V, supplies_cons.
  - destruct (V a e) as [x Hx]; [exists [], o, rest; by left|].
    match goal with T : take_action _ _ _ = Raise _ |- _ =>
      apply take_action_Raise in T end. congruence.
  - match goal with T : take_action _ _ _ = Ok _ |- _ =>
      apply take_action_Ok in T as (w & Hw & ->) end.
    destruct IHr as (st'' & -> & E); [done| |by eexists].
    intros b v' S. by apply V, supplies_cons, supplies_cons.
  - destruct (V a v) as [x Hx]; [exists [], o, rest; by right|].
    match goal with T : take_action _ _ _ = Raise _ |- _ =>
      apply take_action_Raise in T end. congruence.
  - by destruct _x as [|[]].
Qed.

Lemma get_values_cases a v :
  (∃ x, _get_values a v = Ok x) ∨ _get_values a v = Raise (SystemExit 2).
Proof.
  destruct (_get_values a v) as [x|e] eqn:E; [by eauto|].
  right. by apply _get_values_exit in E as ->.
Qed.

(** What [get_arguments] does once the argument strings are classified. *)
Lemma get_arguments_classified argv toks :
  classify parser argv = Ok toks →
  get_arguments argv =
  (st ← consume parser {| namespace := fold_left set_default (stores parser) ∅;
                          seen_actions := ∅; extras := [] |} toks;
   ns ← convert_defaults (seen_actions st) (namespace st) (stores parser);
   match extras st with
   | [] => Ok ns
   | _ :: _ => Raise (SystemExit 2)
   end).
Proof. intros H. unfold get_arguments, parse_args. by rewrite H. Qed.

(** Help stops the loop of the parser wherever it stands. *)
Lemma consume_help p st toks st' :
  Exists is_help toks → consume p st toks ≠ Ok st'.
Proof.
  functional induction (consume p st toks); intros H C; simplify_eq;
    try (apply IHr; [|done]; inversion H; subst; [done|done]).
  - inversion H.
  - apply IHr; [|done]. inversion H as [? ? Hh|? ? Ht]; subst; [done|].
    inversion Ht; subst; done.
Qed.

Lemma classify_app p pre s post :
  "--" ∉ pre → s ≠ "--" →
  classify p (pre ++ s :: post) =
  (tp ← classify p pre; t ← _parse_optional p s; ts ← classify p post;
   Ok (tp ++ t :: ts)).
Proof.
  intros Hpre Hs. induction pre as [|x pre IH]; simpl.
  - by rewrite (proj2 (String.eqb_neq _ _) Hs).
  - apply not_elem_of_cons in Hpre as [Hx Hpre].
    rewrite (proj2 (String.eqb_neq x "--")) by done.
    rewrite IH by done.
    destruct (_parse_optional p x) as [t|]; [|done]. simpl.
    destruct (classify p pre) as [tp|]; [|done]. simpl.
    destruct (_parse_optional p s) as [t'|]; [|done]. simpl.
    by destruct (classify p post).
Qed.

Lemma get_arguments_exit argv e :
  get_arguments argv = Raise e → e = SystemExit 0 ∨ e = SystemExit 2.
Proof.
  unfold get_arguments, parse_args. intros H.
  apply bind_Raise in H as [H | (toks & Ht & H)];
    [right; by eapply classify_exit|].
  apply bind_Raise in H as [H | (st & Hs & H)].
  { apply consume_exit in H as [-> | [-> _]]; auto. }
  apply bind_Raise in H as [H | (ns & Hn & H)].
  { by destruct (convert_defaults_total (seen_actions st) (stores parser)
                   (namespace st) stores_parser_Forall) as [ns' E];
      rewrite E in H. }
  destruct (extras st); simplify_eq. by right.
Qed.

End CommandLineFacts.

Section AbbreviationFacts.
Context `{Py : Python}.

Lemma find_option_None (l : list (string * action)) s :
  s ∉ l.*1 → find (λ oa, String.eqb oa.1 s) l = None.
Proof.
  induction l as [|[o a] l IH]; simpl; intros H; [done|].
  apply not_elem_of_cons in H as [H1 H2].
  rewrite (proj2 (String.eqb_neq o s)) by done. by apply IH.
Qed.

Lemma omap_two {A B} (f : A → option B) l x y :
  x ∈ l → y ∈ l → x ≠ y → is_Some (f x) → is_Some (f y) →
  ∃ a b r, omap f l = a :: b :: r.
Proof.
  intros Hx Hy Hn [u Hu] [v Hv].
  assert (∀ l' z w, z ∈ l' → f z = Some w → ∃ c r, omap f l' = c :: r) as NE.
  { intros l' z w Hz Hw.
    assert (w ∈ omap f l') as Hin by (apply list_elem_of_omap; eauto).
    destruct (omap f l'); [by apply elem_of_nil in Hin | by eauto]. }
  induction l as [|z l IH]; [by apply elem_of_nil in Hx|].
  apply elem_of_cons in Hx as [<- | Hx]; apply elem_of_cons in Hy as [<- | Hy];
    cbn [omap list_omap]; try done.
  - rewrite Hu. destruct (NE l y v Hy Hv) as (c & r & E). rewrite E. by eauto.
  - rewrite Hv. destruct (NE l x u Hx Hu) as (c & r & E). rewrite E. by eauto.
  - destruct (IH Hx Hy) as (a & b & r & E). rewrite E.
    destruct (f z); by eauto.
Qed.

Lemma prefix_cons_inv a p s :
  String.prefix (String a p) s = true →
  ∃ s', s = String a s' ∧ String.prefix p s' = true.
Proof.
  destruct s as [|b s']; [done|]. cbn [String.prefix].
  destruct (ascii_dec a b) as [<-|]; [by eauto | done].
Qed.

(** An abbreviation that two option strings start with is refused. *)
Lemma _parse_optional_ambiguous s o1 o2 :
  String.prefix "--" s = true → contains "=" s = false →
  s ∉ parser_option_strings →
  o1 ∈ parser_option_strings → o2 ∈ parser_option_strings → o1 ≠ o2 →
  String.prefix s o1 = true → String.prefix s o2 = true →
  _parse_optional parser s = Raise (SystemExit 2).
Proof.
  intros Hs He Hn H1 H2 Hd P1 P2.
  apply prefix_cons_inv in Hs as (s1 & -> & Hs).
  apply prefix_cons_inv in Hs as (r & -> & _).
  set (s := String "-" (String "-" r)) in *.
  unfold _parse_optional.
  change (String.eqb s "") with false.
  change (char_at s 0 "-") with true. cbn [negb].
  unfold lookup_option at 1. rewrite (find_option_None _ s Hn). cbn [fmap option_fmap option_map].
  change (String.length s =? 1)%nat with false. rewrite He.
  unfold _get_option_tuples. change (char_at s 1 "-") with true. rewrite He.
  unfold parser_option_strings in H1, H2.
  apply list_elem_of_fmap in H1 as ([o1' a1] & -> & H1).
  apply list_elem_of_fmap in H2 as ([o2' a2] & -> & H2). cbn [fst] in *.
  match goal with |- context [omap ?f ?l] =>
    destruct (omap_two f l (o1', a1) (o2', a2)) as (x & y & t & E) end.
  - exact H1.
  - exact H2.
  - intros [= -> _]. by apply Hd.
  - cbn beta. unfold startswith. cbn [fst]. rewrite P1. by eexists.
  - cbn beta. unfold startswith. cbn [fst]. rewrite P2. by eexists.
  - rewrite E. by destruct x as [[? ?] ?].
Qed.

Lemma parsed_int ns a :
  parsed ns → a ∈ stores parser → type_ a = TyInt →
  (∃ n, default a = VInt n) → ∃ n, ns !! dest a = Some (VInt n).
Proof.
  intros P Ha Ht [d Hd]. destruct (parsed_attr ns a P Ha) as (v & Hv & A).
  rewrite Hv. destruct A as [(s & Hs) | [-> | (s & E & _)]].
  - unfold _get_values, _get_value in Hs. rewrite Ht in Hs.
    destruct (int_of_str s) as [n|]; simpl in Hs; [|done].
    destruct (_check_value a (VInt n)); simplify_eq/=. by eauto.
  - rewrite Hd. by eauto.
  - congruence.
Qed.

Lemma parsed_float ns a :
  parsed ns → a ∈ stores parser → type_ a = TyFloat →
  (∃ x, default a = VFloat x) → ∃ x, ns !! dest a = Some (VFloat x).
Proof.
  intros P Ha Ht [d Hd]. destruct (parsed_attr ns a P Ha) as (v & Hv & A).
  rewrite Hv. destruct A as [(s & Hs) | [-> | (s & E & _)]].
  - unfold _get_values, _get_value in Hs. rewrite Ht in Hs.
    destruct (float_of_str s) as [x|]; simpl in Hs; [|done].
    destruct (_check_value a (VFloat x)); simplify_eq/=. by eauto.
  - rewrite Hd. by eauto.
  - congruence.
Qed.

Lemma parsed_str ns a :
  parsed ns → a ∈ stores parser → type_ a = TyStr →
  (∃ s, default a = VStr s) → ∃ s, ns !! dest a = Some (VStr s).
Proof.
  intros P Ha Ht [d Hd]. destruct (parsed_attr ns a P Ha) as (v & Hv & A).
  rewrite Hv. destruct A as [(s & Hs) | [-> | (s & E & Hs)]].
  - unfold _get_values, _get_value in Hs. rewrite Ht in Hs. simpl in Hs.
    destruct (_check_value a (VStr s)); simplify_eq/=. by eauto.
  - rewrite Hd. by eauto.
  - unfold _get_value in Hs. rewrite Ht in Hs. simplify_eq. by eauto.
Qed.

End AbbreviationFacts.

Section FurtherCommandLine.
Context `{Co : Collaborators}.

(** X1.  On a command line that is accepted, an option that the command
    line does not supply has the default that args.py declares for it: the
    defaults are not tested against [choices], and the string defaults
    come through their conversion unchanged. *)
Theorem unsupplied_option_keeps_default argv toks args a :
  classify parser argv = Ok toks → get_arguments argv = Ok args →
  a ∈ stores parser → (∀ v, ¬ supplies toks a v) →
  args !! dest a = Some (default a).
Proof.
  intros Hc H Ha N. rewrite (get_arguments_classified _ _ Hc) in H.
  apply bind_Ok in H as (st & Hs & H).
  apply bind_Ok in H as (ns & Hn & H).
  destruct (extras st); simplify_eq.
  eapply convert_defaults_default; [done | apply stores_parser_Forall | done |].
  rewrite (consume_keeps _ _ _ _ Hs (classify_known _ _ _ Hc) Ha N).
  cbn [namespace]. exact (initial_namespace_default a Ha).
Qed.

(** X2.  On a command line that is accepted, an option that is given
    several times has the value of its last argument string, converted by
    its [type]: the earlier ones are overwritten.  (The argument string
    [--] is left aside: argparse before Python 3.13 drops it.) *)
Theorem last_value_is_stored argv toks args a v :
  classify parser argv = Ok toks → get_arguments argv = Ok args →
  supplies_last toks a v → v ≠ "--" →
  ∃ x, _get_values a v = Ok x ∧ args !! dest a = Some x.
Proof.
  intros Hc H S _. pose proof (classify_known _ _ _ Hc) as K.
  assert (a ∈ stores parser) as Ha.
  { destruct S as (pre & o & post & [-> | ->] & _);
      apply Forall_app in K as [_ K]; inversion K as [|? ? Ka _]; subst;
      by apply elem_of_stores. }
  rewrite (get_arguments_classified _ _ Hc) in H.
  apply bind_Ok in H as (st & Hs & H).
  apply bind_Ok in H as (ns & Hn & H).
  destruct (extras st); simplify_eq.
  destruct (consume_last _ _ _ _ _ Hs K Ha S) as (x & Hx & Hl & Hse).
  exists x. split; [done|].
  by rewrite (convert_defaults_seen _ a _ _ _ Hn stores_parser_Forall Ha Hse).
Qed.

(** X3.  The command lines that [get_arguments] accepts are exactly those
    made of options of the parser, each with one argument string that its
    [type] and its [choices] accept: a positional argument, an unknown
    option, a lone [--], an option without its argument string or a request
    for help never yields a namespace.  (Command lines that hand [--] to
    an option as its argument string are left aside: argparse before
    Python 3.13 drops that string.) *)
Theorem accepted_command_lines argv toks :
  classify parser argv = Ok toks → (∀ a, ¬ supplies toks a "--") →
  (∃ args, get_arguments argv = Ok args) ↔
  option_value_pairs toks = true ∧
  ∀ a v, supplies toks a v → ∃ x, _get_values a v = Ok x.
Proof.
  intros Hc _. rewrite (get_arguments_classified _ _ Hc). split.
  - intros (args & H).
    apply bind_Ok in H as (st & Hs & H).
    apply bind_Ok in H as (ns & Hn & H).
    destruct (extras st) eqn:E; simplify_eq.
    split; [by eapply consume_pairs|].
    intros a v S. destruct (get_values_cases a v) as [?|R]; [done|].
    by eapply consume_rejects in Hs.
  - intros [W V].
    edestruct (pairs_consume parser) as (st & Hs & E); [exact W | exact V|].
    destruct (convert_defaults_total (seen_actions st) (stores parser)
                (namespace st) stores_parser_Forall) as [ns Hn].
    exists ns. apply bind_Ok. exists st. split; [exact Hs|].
    apply bind_Ok. exists ns. split; [exact Hn|]. by rewrite E.
Qed.

(** X4.  A command line with [-h] or [--help] among its options never
    starts a run: [main] leaves through the parser before any event, with
    status 0 or, if the command line has an error that the parser meets
    first, 2.  With help as the first argument string the status is 0
    whenever the rest of the command line can be classified. *)
Theorem help_exits pre h post :
  h ∈ ["-h"; "--help"] → "--" ∉ pre →
  (∃ status, main (pre ++ h :: post) = ([], Raise (SystemExit status)) ∧
             (status = 0 ∨ status = 2)) ∧
  (∀ toks, classify parser post = Ok toks →
           main (h :: post) = ([], Raise (SystemExit 0))).
Proof.
  intros Hh Hpre.
  assert (h ≠ "--" ∧ _parse_optional parser h = Ok (TOpt (Some Help) h None))
    as [Hn Hp].
  { apply elem_of_cons in Hh as [-> | Hh]; [done|].
    apply list_elem_of_singleton in Hh as ->. done. }
  split.
  - assert (∀ st, get_arguments (pre ++ h :: post) ≠ Ok st) as N.
    { intros args H.
      destruct (classify parser (pre ++ h :: post)) as [toks|e] eqn:Hc;
        [|unfold get_arguments, parse_args in H; by rewrite Hc in H].
      rewrite (get_arguments_classified _ _ Hc) in H.
      apply bind_Ok in H as (st & Hs & _).
      apply (consume_help _ _ _ st) in Hs; [done|].
      rewrite classify_app in Hc by done.
      apply bind_Ok in Hc as (tp & _ & Hc). rewrite Hp in Hc. simpl in Hc.
      apply bind_Ok in Hc as (ts & _ & [= <-]).
      apply Exists_app. right. by apply Exists_cons_hd. }
    destruct (get_arguments (pre ++ h :: post)) as [args|e] eqn:E;
      [by destruct (N args)|].
    destruct (get_arguments_exit _ _ E) as [-> | ->]; rewrite (main_exits _ _ E);
      eauto.
  - intros toks Hc. apply main_exits.
    assert (classify parser (h :: post) = Ok (TOpt (Some Help) h None :: toks))
      as Hc'.
    { simpl. rewrite (proj2 (String.eqb_neq h "--")) by done.
      by rewrite Hp, Hc. }
    by rewrite (get_arguments_classified _ _ Hc').
Qed.

(** X5.  An abbreviation of a long option that two option strings of the
    parser start with, such as [--lr] or [--w], is refused: [main] exits
    with status 2 before any event, and does so even when the command line
    asks for help before it, since the argument strings are classified
    before any option is acted on. *)
Theorem ambiguous_abbreviation_exits pre s post o1 o2 :
  "--" ∉ pre → s ≠ "--" →
  String.prefix "--" s = true → contains "=" s = false →
  s ∉ parser_option_strings →
  o1 ∈ parser_option_strings → o2 ∈ parser_option_strings → o1 ≠ o2 →
  String.prefix s o1 = true → String.prefix s o2 = true →
  main (pre ++ s :: post) = ([], Raise (SystemExit 2)).
Proof.
  intros Hpre Hn Hs He Hno H1 H2 Hd P1 P2. apply main_exits.
  unfold get_arguments, parse_args. rewrite classify_app by done.
  rewrite (_parse_optional_ambiguous s o1 o2) by done.
  destruct (classify parser pre) as [tp|e] eqn:E; [done|].
  by apply classify_exit in E as ->.
Qed.

(** X6.  A namespace that [get_arguments] returns has the fourteen
    attributes of args.py and no other, and the hyper-parameters and
    settings have the types declared for them: ints, floats, strings and a
    bool, whether they come from the command line or from the defaults.
    (Command lines that hand [--] to an option as its argument string are
    left aside, as above.) *)
Theorem namespace_is_typed argv toks args :
  classify parser argv = Ok toks → (∀ a, ¬ supplies toks a "--") →
  get_arguments argv = Ok args →
  (∀ k, is_Some (args !! k) ↔ k ∈ dests) ∧
  (∀ k, k ∈ ["batch_size"; "epochs"; "lr_decay_epochs"; "workers"] →
        ∃ n, args !! k = Some (VInt n)) ∧
  (∀ k, k ∈ ["learning_rate"; "lr_decay"] → ∃ x, args !! k = Some (VFloat x)) ∧
  (∀ k, k ∈ ["dataset_dir"; "name"; "save_dir"] →
        ∃ s, args !! k = Some (VStr s)) ∧
  (∃ b, args !! "ignore_unlabelled" = Some (VBool b)).
Proof.
  intros _ _ H. pose proof (parse_args_parsed _ _ H) as P.
  split; [|split; [|split; [|split]]].
  - intros k. split.
    + intros [v Hv]. destruct (decide (k ∈ dests)) as [|Hk]; [done|].
      by rewrite (parsed_absent _ _ P Hk) in Hv.
    + intros Hk. unfold dests in Hk.
      apply list_elem_of_fmap in Hk as (a & -> & Ha).
      destruct (parsed_attr _ a P Ha) as (v & Hv & _). by eauto.
  - intros k Hk.
    repeat (apply elem_of_cons in Hk as [-> | Hk]);
      [apply (parsed_int _ arg_batch_size) | apply (parsed_int _ arg_epochs)
      |apply (parsed_int _ arg_lr_decay_epochs) | apply (parsed_int _ arg_workers)
      |by apply elem_of_nil in Hk];
      try done; try (by eexists); rewrite stores_parser; repeat constructor.
  - intros k Hk.
    repeat (apply elem_of_cons in Hk as [-> | Hk]);
      [apply (parsed_float _ arg_learning_rate)
      |apply (parsed_float _ arg_lr_decay)
      |by apply elem_of_nil in Hk];
      try done; try (by eexists); rewrite stores_parser; repeat constructor.
  - intros k Hk.
    repeat (apply elem_of_cons in Hk as [-> | Hk]);
      [apply (parsed_str _ arg_dataset_dir) | apply (parsed_str _ arg_name)
      |apply (parsed_str _ arg_save_dir) | by apply elem_of_nil in Hk];
      try done; try (by eexists); rewrite stores_parser; repeat constructor.
  - by apply parsed_ignore_unlabelled.
Qed.

End FurtherCommandLine.

(** ** The driver *)

Section LiftFacts.
Context `{Co : Collaborators}.

Lemma lift_bind_cases {A B} (r : result A) (k : A → M B) :
  (∃ e, r = Raise e ∧ lift r ≫= k = ([], Raise e)) ∨
  (∃ a, r = Ok a ∧ lift r ≫= k = k a).
Proof.
  destruct r as [a|e]; [right | left]; eexists; (split; [done|]).
  - by apply M_bind_lift_Ok.
  - by apply M_bind_lift_Raise.
Qed.

End LiftFacts.

(** One [lift] at the head of a computation: it raises, or the computation
    goes on with what it returns. *)
Ltac lift_step :=
  match goal with
  | |- context [lift ?r ≫= ?k] =>
      let E := fresh "E" in
      destruct (lift_bind_cases r k) as [(? & _ & E) | (? & ? & E)];
      rewrite E; clear E
  end.

Section DriverFacts.
Context `{Co : Collaborators}.

Lemma trace_bind_eq {A B} (m : M A) (k : A → M B) :
  trace (m ≫= k) =
  trace m ++ match outcome m with
             | Ok a => trace (k a)
             | Raise _ => []
             end.
Proof.
  destruct m as [t [a|e]]; unfold trace, outcome; cbn [fst snd].
  - by rewrite (M_bind_Ok _ _ t a).
  - by rewrite app_nil_r.
Qed.

Lemma outcome_bind_eq {A B} (m : M A) (k : A → M B) :
  outcome (m ≫= k) = match outcome m with
                     | Ok a => outcome (k a)
                     | Raise e => Raise e
                     end.
Proof.
  destruct m as [t [a|e]]; unfold outcome; cbn [snd]; [|done].
  by rewrite (M_bind_Ok _ _ t a).
Qed.

Lemma saves_app t1 t2 : saves (t1 ++ t2) = saves t1 ++ saves t2.
Proof. apply omap_app. Qed.

Lemma saves_none t :
  Forall (λ e, match e with ESave _ => False | _ => True end) t → saves t = [].
Proof.
  induction 1 as [|e t He _ IH]; [done|].
  destruct e; try done. all: exact IH.
Qed.

(** Training, then saving: the model is saved once the training has
    returned, and only then. *)
Lemma train_save_eq (run : M Model) p :
  (m ← run; _ ← call (ESave p) (save m p); mret (Some m)) =
  match outcome run with
  | Raise e => (trace run, Raise e)
  | Ok m => (trace run ++ [ESave p], (λ _, Some m) <$> save m p)
  end.
Proof.
  destruct run as [t [m|e]]; unfold trace, outcome; cbn [fst snd]; [|done].
  rewrite (M_bind_Ok _ _ t m) by done. f_equal.
  all: destruct (save m p) as [[]|e] eqn:E.
  - rewrite (M_bind_call_Ok _ _ _ ()) by done. done.
  - rewrite (M_bind_call_Raise _ _ _ e) by done. done.
  - rewrite (M_bind_call_Ok _ _ _ ()) by done. done.
  - rewrite (M_bind_call_Raise _ _ _ e) by done. done.
Qed.

(** Lines 202-220: [main] either leaves the model alone, or raises before
    the call of [train], or calls [train] and saves what it returns. *)
Lemma main_train_cases args l p model :
  main_train args l p model = ([], Ok model) ∨
  (∃ e, main_train args l p model = ([], Raise e)) ∨
  ∃ epochs k tg vg cw lr d n workers verbose dir,
    mode_in args "train" "full" = Ok true ∧
    train_generator_ l = Some tg ∧ val_generator_ l = Some vg ∧
    class_weights_ l = Some cw ∧
    main_train args l p model =
    (m ← train epochs k tg vg cw lr d n workers verbose dir model;
     _ ← call (ESave p) (save m p); mret (Some m)).
Proof.
  unfold main_train.
  lift_step; [by eauto|]. destruct x; [|by left].
  do 16 (lift_step; [by eauto|]).
  right; right.
  repeat match goal with H : local _ _ = Ok _ |- _ =>
    apply of_option_Ok in H end.
  by repeat eexists.
Qed.

Lemma main_test_cases args l model :
  main_test args l model = ([], Ok ()) ∨
  (∃ e, main_test args l model = ([], Raise e)) ∨
  ∃ m g, mode_in args "test" "full" = Ok true ∧ model = Some m ∧
         test_generator_ l = Some g ∧
         main_test args l model =
         ([EEvaluate], (λ _, ()) <$> evaluate_generator m g).
Proof.
  unfold main_test.
  lift_step; [by eauto|]. destruct x; [|by left].
  do 4 (lift_step; [by eauto|]).
  right; right.
  match goal with H : of_option _ model = Ok _ |- _ =>
    apply of_option_Ok in H end.
  match goal with H : local _ _ = Ok _ |- _ => apply of_option_Ok in H end.
  eexists _, _. split; [done|]. split; [done|]. split; [done|].
  unfold test.
  match goal with |- context [evaluate_generator ?m ?g] =>
    by destruct (evaluate_generator m g) as [[]|e] end.
Qed.

End DriverFacts.

Section BodyShape.
Context `{Co : Collaborators}.

Lemma main_resume_cases args l p :
  (∃ e, main_resume args l p = ([], Raise e)) ∨
  (∃ v, args !! "resume" = Some v ∧ truthy v = false ∧
        main_resume args l p = ([], Ok None)) ∨
  (∃ v nc, args !! "resume" = Some v ∧ truthy v = true ∧
           num_classes_ l = Some nc ∧
           main_resume args l p =
           ([ELoadModel p (custom_objects nc)],
            Some <$> load_model p (custom_objects nc))).
Proof.
  unfold main_resume. lift_step; [by eauto|].
  match goal with H : getattr _ _ = Ok ?v |- _ =>
    apply of_option_Ok in H; destruct (truthy v) eqn:T end.
  - lift_step; [by eauto|].
    match goal with H : local _ _ = Ok _ |- _ => apply of_option_Ok in H end.
    right; right. by eauto 10.
  - right; left. by eauto.
Qed.

Lemma main_body_eq args t0 l p :
  main_data args = (t0, Ok l) → main_checkpoint_path args = Ok p →
  main_body args =
  (t0 ++ EPrintCheckpointPath p ::
     trace (model ← main_resume args l p;
            model ← main_train args l p model; main_test args l model),
   outcome (model ← main_resume args l p;
            model ← main_train args l p model; main_test args l model)).
Proof.
  intros Hd Hp. unfold main_body.
  rewrite (M_bind_Ok _ _ t0 l) by done.
  by rewrite (M_bind_lift_Ok _ _ p), M_bind_emit by done.
Qed.

Lemma main_body_data_raises args t0 e :
  main_data args = (t0, Raise e) → main_body args = (t0, Raise e).
Proof. intros Hd. unfold main_body. by rewrite (M_bind_Raise _ _ t0 e). Qed.

Lemma main_body_path_raises args t0 l e :
  main_data args = (t0, Ok l) → main_checkpoint_path args = Raise e →
  main_body args = (t0, Raise e).
Proof.
  intros Hd Hp. unfold main_body.
  rewrite (M_bind_Ok _ _ t0 l) by done.
  rewrite (M_bind_lift_Raise _ _ e) by done. cbn [fst snd].
  by rewrite app_nil_r.
Qed.

Lemma main_data_saves args : saves (trace (main_data args)) = [].
Proof.
  apply saves_none. eapply Forall_impl; [apply main_data_no_model|].
  by intros [].
Qed.

Lemma train_saves epochs k tg vg cw lr d n workers verbose dir ckpt :
  saves (trace (train epochs k tg vg cw lr d n workers verbose dir ckpt)) = [].
Proof.
  apply saves_none.
  by apply (train_wp (λ e, match e with ESave _ => False | _ => True end)).
Qed.

(** What [main] does with the model once resuming is over: the model is
    saved at most once, at the checkpoint path, and after a save only the
    evaluation is left. *)
Lemma after_resume_saves args l p model :
  let rest := model' ← main_train args l p model; main_test args l model' in
  saves (trace rest) = [] ∨
  ∃ pre post, trace rest = pre ++ ESave p :: post ∧ saves pre = [] ∧
              (post = [] ∨ post = [EEvaluate]).
Proof.
  intros rest. unfold rest.
  assert (∀ model', saves (trace (main_test args l model')) = [] ∧
                    (trace (main_test args l model') = [] ∨
                     trace (main_test args l model') = [EEvaluate])) as T.
  { intros model'.
    destruct (main_test_cases args l model')
      as [-> | [(e & ->) | (m & g & _ & _ & _ & ->)]]; auto. }
  destruct (main_train_cases args l p model)
    as [E | [(e & E) | (epochs & k & tg & vg & cw & lr & d & n & workers &
                        verbose & dir & _ & _ & _ & _ & E)]].
  - rewrite (M_bind_Ok _ _ [] model) by done. left. apply T.
  - rewrite (M_bind_Raise _ _ [] e) by done. by left.
  - rewrite E, train_save_eq.
    pose proof (train_saves epochs k tg vg cw lr d n workers verbose dir model)
      as S.
    destruct (outcome (train epochs k tg vg cw lr d n workers verbose dir model))
      as [m|e].
    + destruct (save m p) as [[]|e].
      * rewrite (M_bind_Ok _ _ _ (Some m)) by done. right.
        exists (trace (train epochs k tg vg cw lr d n workers verbose dir model)),
          (trace (main_test args l (Some m))).
        unfold trace at 1. cbn [fst]. rewrite <- app_assoc.
        split; [done|]. split; [exact S | apply T].
      * rewrite (M_bind_Raise _ _ _ e) by done. right.
        exists (trace (train epochs k tg vg cw lr d n workers verbose dir model)),
          [].
        split; [done|]. split; [exact S | by left].
    + rewrite (M_bind_Raise _ _ _ e) by done. by left.
Qed.

Lemma main_data_test_bound args t0 l :
  mode_in args "test" "full" = Ok true →
  main_data args = (t0, Ok l) →
  ∃ g nc sh, test_generator_ l = Some g ∧ num_classes_ l = Some nc ∧
             first_batch g = Ok (nc, sh).
Proof.
  intros Hm H.
  assert (wp (main_data args) (λ _, True)
            (λ l, ∃ g nc sh, test_generator_ l = Some g ∧
                             num_classes_ l = Some nc ∧
                             first_batch g = Ok (nc, sh))) as [_ W];
    [|apply W; by rewrite H].
  unfold main_data.
  apply wp_seq; [unfold main_import; wp_trivial|]. intros cls.
  apply wp_seq;
    [unfold main_train_data, main_class_weights, main_ignore_unlabelled;
     wp_trivial|].
  intros l'. unfold main_test_data. rewrite Hm.
  rewrite (M_bind_lift_Ok _ _ true) by done.
  do 2 (apply wp_seq; [by apply wp_lift|]; intros ?).
  apply wp_seq; [by apply wp_call|]. intros g.
  eapply wp_bind; [apply wp_lift; intros b Hb; exact Hb|].
  intros [nc sh] Hb. apply wp_ret. by exists g, nc, sh.
Qed.

(** Outside the training modes the data stage binds no training
    generator and no class weights, and outside the testing modes no test
    generator. *)
Lemma main_data_unbound args t0 l :
  main_data args = (t0, Ok l) →
  (mode_in args "train" "full" = Ok false →
   train_generator_ l = None ∧ class_weights_ l = None) ∧
  (mode_in args "test" "full" = Ok false → test_generator_ l = None) ∧
  (mode_in args "train" "full" = Ok false →
   mode_in args "test" "full" = Ok false →
   num_classes_ l = None ∧ t0 = []).
Proof.
  intros H. unfold main_data in H.
  destruct (main_import args) as [ti [cls|e]] eqn:Hi; [|done].
  assert (ti = []) as ->.
  { revert Hi. unfold main_import.
    lift_step; [intros ?; by simplify_eq|].
    case_match;
      [lift_step; unfold mret, M_ret; intros ?; by simplify_eq|].
    lift_step; [intros ?; by simplify_eq|].
    case_match; lift_step; unfold mret, M_ret, lift; intros ?; by simplify_eq. }
  rewrite (M_bind_Ok _ _ [] cls eq_refl) in H. cbn [app] in H.
  split; [|split].
  - intros Hm. revert H. unfold main_train_data, main_test_data.
    rewrite Hm. rewrite (M_bind_lift_Ok _ _ false) by done.
    rewrite M_bind_ret.
    lift_step; [done|]. case_match; [|by intros [= _ <-]].
    do 2 (lift_step; [done|]).
    match goal with |- context [call ?e ?r] => destruct r as [g|] eqn:Eg end;
      [|by rewrite (M_bind_call_Raise _ _ _ e)].
    rewrite (M_bind_call_Ok _ _ _ g) by done. cbn [fst snd].
    lift_step; [done|]. case_match. by intros [= _ <-].
  - intros Hm. revert H. unfold main_test_data. rewrite Hm.
    destruct (main_train_data args cls) as [tt [l'|e]] eqn:Et; [|done].
    rewrite (M_bind_Ok _ _ tt l') by done.
    rewrite (M_bind_lift_Ok _ _ false) by done.
    intros [= _ <-]. revert Et. unfold main_train_data.
    lift_step; [done|]. case_match; [|by intros [= _ <-]].
    do 2 (lift_step; [done|]).
    match goal with |- context [call ?e ?r] => destruct r as [g|] eqn:Eg end;
      [|by rewrite (M_bind_call_Raise _ _ _ e)].
    rewrite (M_bind_call_Ok _ _ _ g) by done.
    do 2 (lift_step; [done|]).
    match goal with |- context [call ?e ?r] => destruct r as [g'|] eqn:Eg' end;
      [|by rewrite (M_bind_call_Raise _ _ _ e)].
    rewrite (M_bind_call_Ok _ _ _ g') by done.
    lift_step; [done|]. case_match.
    match goal with |- context [main_class_weights ?a ?b ?c ≫= _] =>
      destruct (main_class_weights a b c) as [tw [cw|]] eqn:Ew end;
      [|done].
    rewrite (M_bind_Ok _ _ tw cw) by done.
    match goal with |- context [main_ignore_unlabelled ?a ?b ≫= _] =>
      destruct (main_ignore_unlabelled a b) as [tu [cw'|]] eqn:Eu end;
      [|done].
    rewrite (M_bind_Ok _ _ tu cw') by done.
    rewrite M_bind_emit. by intros [= _ <-].
  - intros Hm Ht. revert H. unfold main_train_data, main_test_data.
    rewrite Hm, Ht. rewrite !(M_bind_lift_Ok _ _ false) by done.
    rewrite M_bind_ret. rewrite (M_bind_lift_Ok _ _ false) by done.
    by intros [= <- <-].
Qed.

End BodyShape.

Section DataStage.
Context `{Co : Collaborators}.

Lemma main_class_weights_computed args tg nc (P : event → Prop) :
  (∀ s, P (EClassWeighing s)) →
  wp (main_class_weights args tg nc) P computed.
Proof.
  intros HP. unfold main_class_weights.
  apply wp_seq; [by apply wp_lift|]. intros weighing.
  assert (wp (mret None : M (option (list float))) P computed) as N
    by (apply wp_ret; by intros ? [=]).
  destruct weighing; try exact N.
  all: apply wp_seq; [by apply wp_lift|]; intros [|].
  all: try (apply wp_seq; [by apply wp_lift|]; intros [|]; [|exact N]).
  all: eapply wp_fmap;
    [apply wp_call; [apply HP | intros w Hw; exact Hw]|];
    intros w Hw ? [= <-]; exists tg, nc; auto.
Qed.

(** Lines 160-165 change nothing unless [ignore_unlabelled] is set and
    the dataset is camvid. *)
Lemma main_ignore_unlabelled_kept args v cw :
  args !! "ignore_unlabelled" = Some v →
  truthy v = false ∨ lower_is args "dataset" "camvid" = Ok false →
  main_ignore_unlabelled args cw = ([], Ok cw).
Proof.
  intros Hv H. unfold main_ignore_unlabelled.
  destruct cw as [w|]; [|done]. unfold getattr. rewrite Hv.
  rewrite (M_bind_lift_Ok _ _ v) by done.
  destruct (truthy v); [|done]. destruct H as [|H]; [done|].
  rewrite H. by rewrite (M_bind_lift_Ok _ _ false).
Qed.

(** The data stage, with what holds of the class weights it computes
    ([R1]) and of those it prints and binds ([R]). *)
Lemma main_data_weights_wp args (P : event → Prop)
    (R1 R : option (list float) → Prop) :
  (∀ c d b m, P (EDataGenerator c d b m)) →
  (∀ tg nc, wp (main_class_weights args tg nc) P R1) →
  (∀ cw, R1 cw → wp (main_ignore_unlabelled args cw) P R) →
  (∀ cw, R cw → P (EPrintClassWeights cw)) →
  wp (main_data args) P (λ l, ∀ cw, class_weights_ l = Some cw → R cw).
Proof.
  intros Hg H1 H2 Hp. unfold main_data.
  apply wp_seq; [unfold main_import; wp_trivial|]. intros cls.
  apply (wp_bind _ _ _ (λ l, ∀ cw, class_weights_ l = Some cw → R cw)).
  - unfold main_train_data.
    apply wp_seq; [by apply wp_lift|]. intros [|]; [|by apply wp_ret].
    do 2 (apply wp_seq; [by apply wp_lift|]; intros ?).
    apply wp_seq; [by apply wp_call|]. intros tg.
    do 2 (apply wp_seq; [by apply wp_lift|]; intros ?).
    apply wp_seq; [by apply wp_call|]. intros vg.
    apply wp_seq; [by apply wp_lift|]. intros [nc sh].
    eapply wp_bind; [apply H1|]. intros cw Hcw.
    eapply wp_bind; [by apply H2|]. intros cw' Hcw'.
    apply wp_seq; [apply wp_emit; [by apply Hp | done]|]. intros _.
    apply wp_ret. by intros ? [= <-].
  - intros l Hl. unfold main_test_data.
    apply wp_seq; [by apply wp_lift|]. intros [|]; [|by apply wp_ret].
    do 2 (apply wp_seq; [by apply wp_lift|]; intros ?).
    apply wp_seq; [by apply wp_call|]. intros g.
    apply wp_seq; [by apply wp_lift|]. intros [nc sh].
    by apply wp_ret.
Qed.

Lemma main_import_class args d (P : event → Prop) :
  args !! "dataset" = Some (VStr d) →
  wp (main_import args) P
    (λ cls, cls = if String.eqb (lower d) "camvid" then "CamVidGenerator"
                  else "CityscapesGenerator").
Proof.
  intros Hd. unfold main_import. rewrite !(lower_is_eq _ _ _ _ Hd).
  rewrite (M_bind_lift_Ok _ _ (String.eqb (lower d) "camvid")) by done.
  destruct (String.eqb (lower d) "camvid").
  - apply wp_seq; [by apply wp_lift|]. intros _. by apply wp_ret.
  - rewrite (M_bind_lift_Ok _ _ (String.eqb (lower d) "cityscapes")) by done.
    destruct (String.eqb (lower d) "cityscapes").
    + apply wp_seq; [by apply wp_lift|]. intros _. by apply wp_ret.
    + apply wp_seq; [by apply wp_lift|]. intros ?. by apply wp_lift.
Qed.

Lemma main_data_generators args cls0 :
  wp (main_import args) (generator_of args cls0) (λ cls, cls = cls0) →
  wp (main_data args) (generator_of args cls0) (λ _, True).
Proof.
  intros Hi. unfold main_data.
  assert (∀ m, m ∈ ["train"; "val"; "test"] →
          ∀ A (k : Generator → M A),
          (∀ g, wp (k g) (generator_of args cls0) (λ _, True)) →
          wp (dataset_dir ← lift (getattr args "dataset_dir");
              batch_size ← lift (getattr args "batch_size");
              g ← call (EDataGenerator cls0 dataset_dir batch_size m)
                    (DataGenerator cls0 dataset_dir batch_size m);
              k g) (generator_of args cls0) (λ _, True)) as G.
  { intros m Hm A k Hk.
    eapply wp_bind; [apply wp_lift; intros a Ha; exact Ha|].
    intros dir Hdir. apply of_option_Ok in Hdir.
    eapply wp_bind; [apply wp_lift; intros a Ha; exact Ha|].
    intros bs Hbs. apply of_option_Ok in Hbs.
    apply wp_seq; [by apply wp_call|]. exact Hk. }
  eapply wp_bind; [exact Hi|]. intros cls ->.
  apply wp_seq.
  - unfold main_train_data.
    apply wp_seq; [by apply wp_lift|]. intros [|]; [|by apply wp_ret].
    apply G; [by repeat constructor|]. intros tg.
    apply G; [by repeat constructor|]. intros vg.
    unfold main_class_weights, main_ignore_unlabelled. wp_trivial.
  - intros l. unfold main_test_data.
    apply wp_seq; [by apply wp_lift|]. intros [|]; [|by apply wp_ret].
    apply G; [by repeat constructor|]. intros g. wp_trivial.
Qed.

End DataStage.

Section PathFacts.

Lemma str_app_cons x (a b : string) : String x a +:+ b = String x (a +:+ b).
Proof. reflexivity. Qed.

Lemma str_app_assoc (a b c : string) : (a +:+ b) +:+ c = a +:+ b +:+ c.
Proof.
  induction a as [|x a IH]; [done|]. by rewrite !str_app_cons, IH.
Qed.

Lemma str_app_nonempty (a b : string) : b ≠ "" → a +:+ b ≠ "".
Proof. by destruct a. Qed.

Lemma endswith_slash_cons c s :
  s ≠ "" → endswith (String c s) "/" = endswith s "/".
Proof.
  destruct s as [|c' s']; [done|]. intros _. unfold endswith.
  cbn [String.length Nat.leb Nat.sub substring].
  by rewrite Nat.sub_0_r.
Qed.

Lemma endswith_slash_app (a b : string) :
  b ≠ "" → endswith (a +:+ b) "/" = endswith b "/".
Proof.
  intros H. induction a as [|x a IH]; [done|].
  rewrite str_app_cons.
  rewrite endswith_slash_cons; [done|]. by apply str_app_nonempty.
Qed.

Lemma startswith_slash_app (a b : string) :
  a ≠ "" → startswith (a +:+ b) "/" = startswith a "/".
Proof.
  destruct a as [|c a]; [done|]. intros _. unfold startswith.
  rewrite str_app_cons.
  cbn [String.prefix]. destruct (ascii_dec "/" c); [|done].
  by destruct (a +:+ b), a.
Qed.

End PathFacts.

Section FurtherDriver.
Context `{Co : Collaborators}.

(** X7.  A command line that is accepted and does not give [--weighing]
    runs ENet weighing: the default 'ENet' is none of the choices that a
    user may type, the parser would refuse it as an argument string, and
    [main] compares it in lower case. *)
Theorem default_weighing_is_enet argv toks args tg nc :
  classify parser argv = Ok toks → get_arguments argv = Ok args →
  (∀ v, ¬ supplies toks arg_weighing v) →
  args !! "weighing" = Some (VStr "ENet") ∧
  _get_values arg_weighing "ENet" = Raise (SystemExit 2) ∧
  main_class_weights args tg nc =
  ([EClassWeighing "enet"], Some <$> enet_weighing tg nc).
Proof.
  intros Hc H N.
  assert (arg_weighing ∈ stores parser) as Ha
    by (rewrite stores_parser; repeat constructor).
  assert (args !! "weighing" = Some (VStr "ENet")) as Hw.
  { rewrite (get_arguments_classified _ _ Hc) in H.
    apply bind_Ok in H as (st & Hs & H).
    apply bind_Ok in H as (ns & Hn & H).
    destruct (extras st); simplify_eq.
    apply (convert_defaults_default _ arg_weighing _ _ _ Hn
             stores_parser_Forall Ha).
    rewrite (consume_keeps _ _ _ _ Hs (classify_known _ _ _ Hc) Ha N).
    cbn [namespace]. exact (initial_namespace_default _ Ha). }
  split; [exact Hw|]. split; [reflexivity|].
  unfold main_class_weights, getattr. rewrite Hw.
  rewrite (M_bind_lift_Ok _ _ (VStr "ENet")) by done.
  rewrite !(lower_is_eq _ _ _ _ Hw).
  rewrite (M_bind_lift_Ok _ _ true) by done. reflexivity.
Qed.

(** X8.  A namespace whose dataset is neither camvid nor cityscapes, in
    any letter case, stops [main] at once: RuntimeError with the name as
    it was given, before any generator is made. *)
Theorem unsupported_dataset_raises args d :
  args !! "dataset" = Some (VStr d) →
  lower d ≠ "camvid" → lower d ≠ "cityscapes" →
  main_body args =
  ([], Raise (RuntimeError
                (quote +:+ d +:+ quote +:+ " is not a supported dataset."))).
Proof.
  intros Hd H1 H2. apply main_body_data_raises. unfold main_data.
  apply M_bind_Raise. unfold main_import.
  rewrite !(lower_is_eq _ _ _ _ Hd).
  rewrite (proj2 (String.eqb_neq _ _) H1), (proj2 (String.eqb_neq _ _) H2).
  rewrite !(M_bind_lift_Ok _ _ false) by done.
  unfold getattr. rewrite Hd. by rewrite (M_bind_lift_Ok _ _ d).
Qed.

(** X9.  Unless [ignore_unlabelled] is set and the dataset is camvid, the
    class weights are left as the weighing function returned them: those
    printed and those handed to the training are what [enet_weighing] or
    [median_freq_balancing] computed. *)
Theorem weights_kept_as_computed args v :
  args !! "ignore_unlabelled" = Some v →
  truthy v = false ∨ lower_is args "dataset" "camvid" = Ok false →
  Forall as_computed (trace (main_body args)) ∧
  ∀ cw, main_ignore_unlabelled args cw = ([], Ok cw).
Proof.
  intros Hv H.
  assert (∀ cw, main_ignore_unlabelled args cw = ([], Ok cw)) as K
    by (intros cw; by eapply main_ignore_unlabelled_kept).
  split; [|exact K].
  apply (main_body_wp as_computed args
           (λ l, ∀ cw, class_weights_ l = Some cw → computed cw));
    try done; [| |by right].
  - apply (main_data_weights_wp args as_computed computed computed);
      try done.
    + intros tg nc. by apply main_class_weights_computed.
    + intros cw Hcw. rewrite K. split; [constructor|]. by intros ? [= <-].
  - intros l cw m e k Hl Hcw. by apply Hl.
Qed.

(** X10.  Every generator that [main] makes is of the class that the
    dataset of the namespace selects, compared in lower case, and is made
    from the [dataset_dir] and the [batch_size] of the namespace, for the
    train, val or test split. *)
Theorem generators_follow_namespace args d :
  args !! "dataset" = Some (VStr d) →
  Forall (generator_of args
            (if String.eqb (lower d) "camvid" then "CamVidGenerator"
             else "CityscapesGenerator"))
    (trace (main_body args)).
Proof.
  intros Hd.
  apply (main_body_wp _ args (λ _, True)); try done; [|by right].
  by apply main_data_generators, main_import_class.
Qed.

(** X11.  With a weighing technique other than enet and mfb, 'none'
    among them, or with no technique at all, no weighing function runs:
    the class weights printed and handed to the training are [None]. *)
Theorem no_weighing_gives_no_weights args w :
  args !! "weighing" = Some w →
  w = VNone ∨ (∃ s, w = VStr s ∧ lower s ≠ "enet" ∧ lower s ≠ "mfb") →
  Forall unweighted (trace (main_body args)).
Proof.
  intros Hw H.
  assert (∀ tg nc, main_class_weights args tg nc = ([], Ok None)) as K.
  { intros tg nc. destruct H as [-> | (s & -> & H1 & H2)].
    - unfold main_class_weights, getattr. rewrite Hw.
      by rewrite (M_bind_lift_Ok _ _ VNone).
    - by eapply main_class_weights_other. }
  apply (main_body_wp unweighted args
           (λ l, ∀ cw, class_weights_ l = Some cw → cw = None));
    try done; [| |by right].
  - apply (main_data_weights_wp args unweighted
             (λ cw, cw = None) (λ cw, cw = None)); try done.
    + intros tg nc. rewrite K. split; [constructor|]. by intros ? [= <-].
    + intros cw ->. by apply wp_ret.
  - intros l cw m e k Hl Hcw. by apply Hl.
Qed.

(** X12.  A namespace whose mode is none of train, test and full: [main]
    makes no generator and trains, saves and evaluates nothing.  It
    prints the checkpoint path and returns, unless resume is set: then it
    raises UnboundLocalError, since [num_classes] was never bound. *)
Theorem other_mode_does_nothing args s t0 l p v :
  args !! "mode" = Some (VStr s) →
  lower s ≠ "train" → lower s ≠ "test" → lower s ≠ "full" →
  main_data args = (t0, Ok l) → main_checkpoint_path args = Ok p →
  args !! "resume" = Some v →
  main_body args =
  ([EPrintCheckpointPath p],
   if truthy v then Raise (UnboundLocalError "num_classes") else Ok ()).
Proof.
  intros Hm H1 H2 H3 Hd Hp Hv.
  assert (mode_in args "train" "full" = Ok false) as M1.
  { rewrite (mode_in_eq _ _ _ _ Hm).
    by rewrite !(proj2 (String.eqb_neq _ _)). }
  assert (mode_in args "test" "full" = Ok false) as M2.
  { rewrite (mode_in_eq _ _ _ _ Hm).
    by rewrite !(proj2 (String.eqb_neq _ _)). }
  destruct (main_data_unbound _ _ _ Hd) as (_ & _ & U).
  destruct (U M1 M2) as [Hn ->].
  rewrite (main_body_eq _ _ _ _ Hd Hp). cbn [app].
  unfold main_resume, getattr. rewrite Hv.
  rewrite (M_bind_lift_Ok _ _ v) by done.
  destruct (truthy v).
  - rewrite Hn. by rewrite (M_bind_lift_Raise _ _ (UnboundLocalError "num_classes")).
  - rewrite M_bind_ret. unfold main_train, main_test. rewrite M1, M2.
    rewrite (M_bind_lift_Ok _ _ false) by done. rewrite M_bind_ret.
    by rewrite (M_bind_lift_Ok _ _ false).
Qed.

(** X13.  In test mode without resume there is no model to test: after
    the data stage and the checkpoint path, [main] fails its assertion
    and evaluates nothing. *)
Theorem test_without_resume_asserts args s t0 l p v :
  args !! "mode" = Some (VStr s) → lower s = "test" →
  main_data args = (t0, Ok l) → main_checkpoint_path args = Ok p →
  args !! "resume" = Some v → truthy v = false →
  main_body args = (t0 ++ [EPrintCheckpointPath p], Raise AssertionError).
Proof.
  intros Hm Hs Hd Hp Hv Ht.
  rewrite (main_body_eq _ _ _ _ Hd Hp).
  unfold main_resume, getattr. rewrite Hv.
  rewrite (M_bind_lift_Ok _ _ v) by done. rewrite Ht, M_bind_ret.
  unfold main_train, main_test. rewrite !(mode_in_eq _ _ _ _ Hm), Hs.
  rewrite (M_bind_lift_Ok _ _ false) by done. rewrite M_bind_ret.
  rewrite (M_bind_lift_Ok _ _ true) by done.
  by rewrite (M_bind_lift_Raise _ _ AssertionError).
Qed.

(** X14.  In test mode with resume, [main] loads the checkpoint with the
    number of classes of the test generator and evaluates the loaded model
    on the test generator.  Nothing is trained and nothing is saved, and a
    checkpoint that does not load ends the run. *)
Theorem test_mode_evaluates_checkpoint args s t0 l p v :
  args !! "mode" = Some (VStr s) → lower s = "test" →
  main_data args = (t0, Ok l) → main_checkpoint_path args = Ok p →
  args !! "resume" = Some v → truthy v = true →
  is_Some (args !! "workers") → is_Some (args !! "verbose") →
  ∃ g nc sh,
    test_generator_ l = Some g ∧ first_batch g = Ok (nc, sh) ∧
    main_body args =
    match load_model p (custom_objects nc) with
    | Raise e =>
        (t0 ++ [EPrintCheckpointPath p; ELoadModel p (custom_objects nc)],
         Raise e)
    | Ok m =>
        (t0 ++ [EPrintCheckpointPath p; ELoadModel p (custom_objects nc);
                EEvaluate],
         (λ _, ()) <$> evaluate_generator m g)
    end.
Proof.
  intros Hm Hs Hd Hp Hv Ht [wk Hwk] [vb Hvb].
  assert (mode_in args "test" "full" = Ok true) as M2
    by by rewrite (mode_in_eq _ _ _ _ Hm), Hs.
  assert (mode_in args "train" "full" = Ok false) as M1
    by by rewrite (mode_in_eq _ _ _ _ Hm), Hs.
  destruct (main_data_test_bound _ _ _ M2 Hd) as (g & nc & sh & Hg & Hn & Hb).
  exists g, nc, sh. split; [done|]. split; [done|].
  rewrite (main_body_eq _ _ _ _ Hd Hp).
  unfold main_resume, getattr. rewrite Hv.
  rewrite (M_bind_lift_Ok _ _ v) by done. rewrite Ht, Hn.
  rewrite (M_bind_lift_Ok _ _ nc) by done.
  destruct (load_model p (custom_objects nc)) as [m|e].
  - rewrite (M_bind_Ok _ _ [ELoadModel p (custom_objects nc)] (Some m))
      by done.
    unfold main_train. rewrite M1.
    rewrite (M_bind_lift_Ok _ _ false) by done. rewrite M_bind_ret.
    unfold main_test, getattr. rewrite M2, Hg, Hwk, Hvb.
    rewrite (M_bind_lift_Ok _ _ true) by done.
    rewrite (M_bind_lift_Ok _ _ m) by done.
    rewrite (M_bind_lift_Ok _ _ g) by done.
    rewrite (M_bind_lift_Ok _ _ wk) by done.
    rewrite (M_bind_lift_Ok _ _ vb) by done.
    unfold test. by destruct (evaluate_generator m g) as [[]|].
  - by rewrite (M_bind_Raise _ _ [ELoadModel p (custom_objects nc)] e).
Qed.

End FurtherDriver.

Section TrainingRun.
Context `{Co : Collaborators}.

(** A training run on a fresh model, up to the evaluation. *)
Lemma training_body args t0 l p v epochs k lr d n :
  mode_in args "train" "full" = Ok true →
  main_data args = (t0, Ok l) → main_checkpoint_path args = Ok p →
  args !! "resume" = Some v → truthy v = false →
  hyperparameters args epochs k lr d n →
  ∃ tg vg cw workers verbose dir name,
    (train_generator_ l = Some tg ∧ val_generator_ l = Some vg ∧
     class_weights_ l = Some cw) ∧
    (args !! "workers" = Some workers ∧ args !! "verbose" = Some verbose ∧
     args !! "checkpoint_dir" = Some (VStr dir) ∧
     args !! "name" = Some (VStr name)) ∧
    main_body args =
    let run := train epochs k tg vg cw lr d n workers verbose
                 (path_join dir [name]) None in
    match outcome run with
    | Raise e => (t0 ++ EPrintCheckpointPath p :: trace run, Raise e)
    | Ok m =>
        match save m p with
        | Raise e =>
            (t0 ++ EPrintCheckpointPath p :: trace run ++ [ESave p], Raise e)
        | Ok _ =>
            (t0 ++ EPrintCheckpointPath p :: trace run
                ++ ESave p :: trace (main_test args l (Some m)),
             outcome (main_test args l (Some m)))
        end
    end.
Proof.
  intros Hm Hd Hp Hv Ht Hh.
  destruct (main_checkpoint_path_Ok _ _ Hp) as (dir & name & Hdir & Hname & _).
  destruct (main_data_bound _ _ _ Hm Hd)
    as (tg & vg & cw & nc0 & sh & nc & Htg & Hvg & Hcw & _ & _).
  destruct (main_train_calls args l p None tg vg cw epochs k lr d n dir
              name Hm Hdir Hname Hh Htg Hvg Hcw)
    as (workers & verbose & Hwk & Hvb & E).
  exists tg, vg, cw, workers, verbose, dir, name.
  split; [done|]. split; [done|].
  rewrite (main_body_eq _ _ _ _ Hd Hp).
  unfold main_resume, getattr. rewrite Hv.
  rewrite (M_bind_lift_Ok _ _ v) by done. rewrite Ht, M_bind_ret.
  rewrite E, train_save_eq. cbn zeta.
  destruct (outcome (train epochs k tg vg cw lr d n workers verbose
                       (path_join dir [name]) None)) as [m|e].
  - destruct (save m p) as [[]|e].
    + rewrite (M_bind_Ok _ _ _ (Some m) eq_refl).
      unfold trace at 1, outcome at 1. cbn [fst snd].
      by rewrite <- app_assoc.
    + reflexivity.
  - reflexivity.
Qed.

(** X15.  A training run on a fresh model, mode train: after the data
    stage [main] prints the checkpoint path, calls [train] with the
    hyper-parameters of the namespace and no model, saves the model that
    [train] returns at the checkpoint path, once, and returns.  If the
    training raises, nothing is saved and [main] raises the same. *)
Theorem train_mode_run args s t0 l p v epochs k lr d n :
  args !! "mode" = Some (VStr s) → lower s = "train" →
  main_data args = (t0, Ok l) → main_checkpoint_path args = Ok p →
  args !! "resume" = Some v → truthy v = false →
  hyperparameters args epochs k lr d n →
  ∃ tg vg cw workers verbose dir name,
    (train_generator_ l = Some tg ∧ val_generator_ l = Some vg ∧
     class_weights_ l = Some cw) ∧
    (args !! "workers" = Some workers ∧ args !! "verbose" = Some verbose ∧
     args !! "checkpoint_dir" = Some (VStr dir) ∧
     args !! "name" = Some (VStr name)) ∧
    main_body args =
    let run := train epochs k tg vg cw lr d n workers verbose
                 (path_join dir [name]) None in
    match outcome run with
    | Raise e => (t0 ++ EPrintCheckpointPath p :: trace run, Raise e)
    | Ok m =>
        (t0 ++ EPrintCheckpointPath p :: trace run ++ [ESave p],
         (λ _, ()) <$> save m p)
    end.
Proof.
  intros Hm Hs Hd Hp Hv Ht Hh.
  assert (mode_in args "train" "full" = Ok true) as M1
    by by rewrite (mode_in_eq _ _ _ _ Hm), Hs.
  assert (∀ m, main_test args l m = ([], Ok ())) as T.
  { intros m. unfold main_test. rewrite (mode_in_eq _ _ _ _ Hm), Hs.
    by rewrite (M_bind_lift_Ok _ _ false). }
  destruct (training_body _ _ _ _ _ _ _ _ _ _ M1 Hd Hp Hv Ht Hh)
    as (tg & vg & cw & workers & verbose & dir & name & H1 & H2 & E).
  exists tg, vg, cw, workers, verbose, dir, name.
  split; [done|]. split; [done|]. rewrite E. cbn zeta.
  destruct (outcome (train epochs k tg vg cw lr d n workers verbose
                       (path_join dir [name]) None)) as [m|e]; [|done].
  destruct (save m p) as [[]|e]; [|done]. by rewrite T.
Qed.

(** X16.  Mode full on a fresh model: the test generator is made in the
    data stage, before the training; the model is trained, saved at the
    checkpoint path and then evaluated on the test generator, and the model
    that is evaluated is the one [train] returned.  If the training or the
    saving raises, nothing is evaluated. *)
Theorem full_mode_run args s t0 l p v epochs k lr d n :
  args !! "mode" = Some (VStr s) → lower s = "full" →
  main_data args = (t0, Ok l) → main_checkpoint_path args = Ok p →
  args !! "resume" = Some v → truthy v = false →
  hyperparameters args epochs k lr d n →
  ∃ tg vg cw g workers verbose dir name,
    (train_generator_ l = Some tg ∧ val_generator_ l = Some vg ∧
     class_weights_ l = Some cw ∧ test_generator_ l = Some g) ∧
    (args !! "workers" = Some workers ∧ args !! "verbose" = Some verbose ∧
     args !! "checkpoint_dir" = Some (VStr dir) ∧
     args !! "name" = Some (VStr name)) ∧
    main_body args =
    let run := train epochs k tg vg cw lr d n workers verbose
                 (path_join dir [name]) None in
    match outcome run with
    | Raise e => (t0 ++ EPrintCheckpointPath p :: trace run, Raise e)
    | Ok m =>
        match save m p with
        | Raise e =>
            (t0 ++ EPrintCheckpointPath p :: trace run ++ [ESave p], Raise e)
        | Ok _ =>
            (t0 ++ EPrintCheckpointPath p :: trace run
                ++ [ESave p; EEvaluate],
             (λ _, ()) <$> evaluate_generator m g)
        end
    end.
Proof.
  intros Hm Hs Hd Hp Hv Ht Hh.
  assert (mode_in args "train" "full" = Ok true) as M1
    by by rewrite (mode_in_eq _ _ _ _ Hm), Hs.
  assert (mode_in args "test" "full" = Ok true) as M2
    by by rewrite (mode_in_eq _ _ _ _ Hm), Hs.
  destruct (main_data_test_bound _ _ _ M2 Hd) as (g & nc & sh & Hg & _ & _).
  destruct (training_body _ _ _ _ _ _ _ _ _ _ M1 Hd Hp Hv Ht Hh)
    as (tg & vg & cw & workers & verbose & dir & name & H1 & H2 & E).
  assert (∀ m, main_test args l (Some m) =
               ([EEvaluate], (λ _, ()) <$> evaluate_generator m g)) as T.
  { intros m. destruct H2 as (Hwk & Hvb & _).
    unfold main_test, getattr. rewrite M2, Hg, Hwk, Hvb.
    rewrite (M_bind_lift_Ok _ _ true) by done.
    rewrite (M_bind_lift_Ok _ _ m) by done.
    rewrite (M_bind_lift_Ok _ _ g) by done.
    rewrite (M_bind_lift_Ok _ _ workers) by done.
    rewrite (M_bind_lift_Ok _ _ verbose) by done.
    unfold test. by destruct (evaluate_generator m g) as [[]|]. }
  exists tg, vg, cw, g, workers, verbose, dir, name.
  split; [by destruct H1 as (? & ? & ?)|]. split; [done|].
  rewrite E. cbn zeta.
  destruct (outcome (train epochs k tg vg cw lr d n workers verbose
                       (path_join dir [name]) None)) as [m|e]; [|done].
  destruct (save m p) as [[]|e]; [|done]. by rewrite T.
Qed.

(** X17.  Whatever the namespace, a run of [main] saves a model at most
    once, and then at the checkpoint path that it printed before; after
    the save nothing is left but the evaluation. *)
Theorem model_saved_at_most_once args :
  saves (trace (main_body args)) = [] ∨
  ∃ p pre post,
    main_checkpoint_path args = Ok p ∧
    trace (main_body args) = pre ++ ESave p :: post ∧
    saves pre = [] ∧ EPrintCheckpointPath p ∈ pre ∧
    (post = [] ∨ post = [EEvaluate]).
Proof.
  destruct (main_data args) as [t0 [l|e]] eqn:Hd.
  2: { left. rewrite (main_body_data_raises _ _ _ Hd).
       rewrite <- (main_data_saves args). by rewrite Hd. }
  assert (saves t0 = []) as S0
    by (rewrite <- (main_data_saves args); by rewrite Hd).
  destruct (main_checkpoint_path args) as [p|e] eqn:Hp.
  2: { left. by rewrite (main_body_path_raises _ _ _ _ Hd Hp). }
  rewrite (main_body_eq _ _ _ _ Hd Hp). unfold trace at 1 3. cbn [fst].
  assert (∀ tr model,
    saves tr = [] →
    let rest := model' ← main_train args l p model; main_test args l model' in
    saves (t0 ++ EPrintCheckpointPath p :: tr ++ trace rest) = [] ∨
    ∃ p' pre post,
      Ok p = Ok p' ∧
      t0 ++ EPrintCheckpointPath p :: tr ++ trace rest = pre ++ ESave p' :: post ∧
      saves pre = [] ∧ EPrintCheckpointPath p' ∈ pre ∧
      (post = [] ∨ post = [EEvaluate])) as K.
  { intros tr model Str rest.
    destruct (after_resume_saves args l p model)
      as [S | (pre & post & E & Sp & Hpost)]; fold rest in S || fold rest in E.
    - left. rewrite saves_app. cbn [saves omap list_omap].
      change (omap _ (tr ++ trace rest)) with (saves (tr ++ trace rest)).
      by rewrite saves_app, S0, Str, S.
    - right. exists p, (t0 ++ EPrintCheckpointPath p :: tr ++ pre), post.
      split; [done|]. split.
      { rewrite E. by rewrite <- !app_assoc, <- !app_comm_cons, <- app_assoc. }
      split.
      { rewrite saves_app. cbn [saves omap list_omap].
        change (omap _ (tr ++ pre)) with (saves (tr ++ pre)).
        by rewrite saves_app, S0, Str, Sp. }
      split; [|done]. apply elem_of_app. right. by left. }
  destruct (main_resume_cases args l p)
    as [(e & E) | [(v & _ & _ & E) | (v & nc & _ & _ & _ & E)]]; rewrite E.
  - left. rewrite (M_bind_Raise _ _ [] e) by done. cbn [fst].
    rewrite saves_app. by rewrite S0.
  - rewrite (M_bind_Ok _ _ [] None) by done. cbn [fst].
    apply (K [] None). done.
  - destruct (load_model p (custom_objects nc)) as [m|e].
    + rewrite (M_bind_Ok _ _ [ELoadModel p (custom_objects nc)] (Some m))
        by done.
      cbn [fst]. apply (K [ELoadModel p (custom_objects nc)] (Some m)). done.
    + left.
      rewrite (M_bind_Raise _ _ [ELoadModel p (custom_objects nc)] e) by done.
      cbn [fst]. rewrite saves_app. by rewrite S0.
Qed.

(** X18.  All that has to do with the data comes first: the trace of
    [main] is the trace of its data stage, in which no model is loaded,
    built, trained, saved or evaluated, followed by events among which no
    generator is made and no class weights are computed or printed.  A
    data stage that raises ends the run with its exception. *)
Theorem data_comes_first args :
  ∃ rest,
    trace (main_body args) = trace (main_data args) ++ rest ∧
    Forall (λ e, model_event e = false) (trace (main_data args)) ∧
    Forall (λ e, model_event e = true ∨ ∃ p, e = EPrintCheckpointPath p) rest ∧
    ∀ e, outcome (main_data args) = Raise e →
         main_body args = (trace (main_data args), Raise e).
Proof.
  destruct (trace_bind_wp (main_data args)
              (λ l, checkpoint_path ← lift (main_checkpoint_path args);
                    _ ← emit (EPrintCheckpointPath checkpoint_path);
                    model ← main_resume args l checkpoint_path;
                    model ← main_train args l checkpoint_path model;
                    main_test args l model)
              (λ e, model_event e = true ∨ ∃ p, e = EPrintCheckpointPath p))
    as (rest & E & F).
  { intros l. apply wp_seq; [by apply wp_lift|]. intros p.
    apply wp_seq; [apply wp_emit; [by eauto | done]|]. intros _.
    apply wp_seq; [eapply wp_weaken; [apply main_resume_wp|]; by auto|].
    intros model.
    apply wp_seq; [apply main_train_wp; by auto|]. intros model'.
    apply main_test_wp. by left. }
  exists rest. split; [exact E|]. split; [apply main_data_no_model|].
  split; [exact F|]. intros e He.
  destruct (main_data args) as [t0 r] eqn:Hd. unfold outcome in He.
  cbn [snd] in He. subst r. by apply main_body_data_raises.
Qed.

End TrainingRun.

Section ScheduleEdges.
Context `{Co : Collaborators}.

Lemma rates_from_raise f e n k :
  (∀ i, f i = Raise e) → rates_from f k n = [].
Proof. intros H. destruct n as [|n]; [done|]. simpl. by rewrite H. Qed.

(** X19.  In a run of [train] the learning rate is constant between the
    steps of the schedule: two epochs whose indices have the same quotient
    by [lr_decay_epochs] run at the same rate. *)
Theorem rate_constant_between_steps
    epochs k tg vg cw lr d n workers verbose dir ckpt i j r r' :
  let run := train epochs k tg vg cw lr d n workers verbose dir ckpt in
  EEpoch i r ∈ trace run → EEpoch j r' ∈ trace run →
  i / n = j / n → r = r'.
Proof.
  intros run Hi Hj Hq.
  destruct (train_trace epochs k tg vg cw lr d n workers verbose dir ckpt)
    as (pre & l & Ht & Hpre & Hp & _).
  fold run in Ht.
  assert (∀ i r, EEpoch i r ∈ trace run → _lr_decay lr d n i lr = Ok r) as K.
  { intros i0 r0 H. rewrite Ht in H. apply elem_of_app in H as [H|H].
    - rewrite Forall_forall in Hpre. by apply Hpre in H.
    - apply elem_of_epoch_events in H. eapply prefix_elem in H; [|exact Hp].
      by apply rates_from_spec in H as [H _]. }
  apply K in Hi. apply K in Hj. unfold _lr_decay, floordiv in Hi, Hj.
  destruct (n =? 0); [done|]. simpl in Hi, Hj. rewrite Hq in Hi. congruence.
Qed.

(** X20.  With [lr_decay_epochs] 0 the schedule divides by zero: a run of
    [train] that has an epoch to run raises ZeroDivisionError when the
    first epoch begins, and no epoch runs. *)
Theorem zero_decay_period_raises
    epochs k tg vg cw lr d workers verbose dir nc sh m :
  k < epochs → first_batch tg = Ok (nc, sh) →
  train epochs k tg vg cw lr d 0 workers verbose dir (Some m) =
    ([ECompile lr; EFitGenerator m cw epochs k], Raise ZeroDivisionError) ∧
  (LinkNet nc sh = Ok m →
   train epochs k tg vg cw lr d 0 workers verbose dir None =
     ([ELinkNet nc; ECompile lr; EFitGenerator m cw epochs k],
      Raise ZeroDivisionError)).
Proof.
  intros Hk Hb.
  assert (∀ m0, fit_epochs tg vg cw lr d 0 m0 lr k (Z.to_nat (epochs - k))
                = ([], Raise ZeroDivisionError)) as F.
  { intros m0. destruct (Z.to_nat (epochs - k)) as [|n'] eqn:E; [lia|].
    cbn [fit_epochs].
    by rewrite (M_bind_lift_Raise _ _ ZeroDivisionError). }
  split.
  - rewrite train_eq, Hb. cbn beta iota zeta. by rewrite F.
  - intros Hl. rewrite train_eq, Hb. cbn beta iota zeta.
    rewrite Hl. by rewrite F.
Qed.

(** X21.  A run of [train] whose [initial_epoch] is not below [epochs]
    has no epoch to run: the schedule is never asked, the model comes back
    as it was handed over, and this whatever [lr_decay_epochs] is, 0
    included. *)
Theorem no_epoch_left epochs k tg vg cw lr d n workers verbose dir nc sh m :
  epochs ≤ k → first_batch tg = Ok (nc, sh) →
  train epochs k tg vg cw lr d n workers verbose dir (Some m) =
  ([ECompile lr; EFitGenerator m cw epochs k], Ok m).
Proof.
  intros Hk Hb. rewrite train_eq, Hb. cbn beta iota zeta.
  replace (Z.to_nat (epochs - k)) with 0%nat by lia. reflexivity.
Qed.

(** X22.  The checkpoint path, from [checkpoint_dir] and [name] as
    strings.  For a directory and a name that are not empty, with no slash
    at the end and a name that is not absolute, it is
    [dir/name/name.h5].  A name that starts with a slash replaces the
    directory: the path is the name followed by [.h5]. *)
Theorem checkpoint_path_shape args dir name :
  args !! "checkpoint_dir" = Some (VStr dir) →
  args !! "name" = Some (VStr name) →
  (dir ≠ "" → endswith dir "/" = false →
   name ≠ "" → startswith name "/" = false → endswith name "/" = false →
   main_checkpoint_path args =
   Ok (dir +:+ "/" +:+ name +:+ "/" +:+ name +:+ ".h5")) ∧
  (startswith name "/" = true →
   main_checkpoint_path args = Ok (name +:+ ".h5")).
Proof.
  intros Hdir Hname.
  assert (main_checkpoint_path args =
          Ok (path_join2 (path_join2 dir name) (name +:+ ".h5"))) as E.
  { unfold main_checkpoint_path, getattr. by rewrite Hdir, Hname. }
  rewrite E. split.
  - intros Hd He Hn Hs Hen. f_equal. unfold path_join2.
    rewrite Hs, He, (proj2 (String.eqb_neq dir "")) by done. cbn [orb].
    rewrite startswith_slash_app, Hs by done.
    rewrite (proj2 (String.eqb_neq (dir +:+ "/" +:+ name) "")).
    2: { apply str_app_nonempty. by apply str_app_nonempty. }
    cbn [orb]. rewrite !endswith_slash_app by (done || by apply str_app_nonempty).
    rewrite Hen. by rewrite !str_app_assoc.
  - intros Hs. f_equal. unfold path_join2. rewrite Hs.
    assert (name ≠ "") as Hn by (by intros ->).
    by rewrite startswith_slash_app, Hs.
Qed.

End ScheduleEdges.

Section AliasFacts.
Context `{Co : Collaborators}.

(** The loop of the parser does not look at the option string that an
    argument was given by. *)
Lemma consume_forget p st toks :
  consume p st (forget_option_string <$> toks) = consume p st toks.
Proof.
  functional induction (consume p st toks);
    cbn [fmap list_fmap forget_option_string];
    rewrite consume_equation; try done;
    try (match goal with T : take_action _ _ _ = _ |- _ => rewrite T end;
         done).
  - match goal with H : _ && _ = true |- _ => rewrite H end.
    by destruct rest as [|[| |[[]|]] ?].
  - by match goal with H : _ && _ = false |- _ => rewrite H end.
  - destruct _x as [|t r]; [done|]. cbn [fmap list_fmap].
    by destruct t as [| |[[]|]].
Qed.

(** X23.  The short options are aliases: [-m], [-b] and [-lr] anywhere
    among the options of a command line do what [--mode], [--batch_size]
    and [--learning_rate] do there, for the parser and so for [main]. *)
Theorem short_options_are_aliases pre post short long :
  (short, long) ∈ [("-m", "--mode"); ("-b", "--batch_size");
                   ("-lr", "--learning_rate")] →
  "--" ∉ pre →
  get_arguments (pre ++ short :: post) = get_arguments (pre ++ long :: post) ∧
  main (pre ++ short :: post) = main (pre ++ long :: post).
Proof.
  intros Hin Hpre.
  assert (get_arguments (pre ++ short :: post)
          = get_arguments (pre ++ long :: post)) as E;
    [|split; [exact E | unfold main; by rewrite E]].
  assert (short ≠ "--" ∧ long ≠ "--" ∧
          ∃ a, _parse_optional parser short
               = Ok (TOpt (Some (Store a)) short None) ∧
               _parse_optional parser long
               = Ok (TOpt (Some (Store a)) long None))
    as (Hs & Hl & a & Ps & Pl).
  { repeat (apply elem_of_cons in Hin as [[= -> ->] | Hin]);
      [split; [done|]; split; [done|]; by eexists..|].
    by apply elem_of_nil in Hin. }
  unfold get_arguments, parse_args. rewrite !classify_app by done.
  rewrite Ps, Pl.
  destruct (classify parser pre) as [tp|]; [|done].
  destruct (classify parser post) as [ts|]; [|done].
  cbn [mbind result_bind].
  rewrite <- (consume_forget _ _ (tp ++ TOpt (Some (Store a)) short None :: ts)).
  rewrite <- (consume_forget _ _ (tp ++ TOpt (Some (Store a)) long None :: ts)).
  by rewrite !fmap_app.
Qed.

End AliasFacts.

Section AliasWitness.
#[local] Existing Instance Exact.python.

Lemma short_options_are_aliases_witness :
  get_arguments (["--epochs"; "3"] ++ "-b" :: ["4"])
  = get_arguments (["--epochs"; "3"] ++ "--batch_size" :: ["4"]).
Proof.
  refine (proj1 (short_options_are_aliases (Co := Lab.lab (Ok 7))
                   ["--epochs"; "3"] ["4"] "-b" "--batch_size" _ _)).
  - right. by left.
  - apply (bool_decide_unpack _). by vm_compute.
Defined.

End AliasWitness.

(** ** The further properties at concrete inputs *)

Section FurtherWitnesses.
#[local] Existing Instance Exact.python.

Lemma unsupplied_option_keeps_default_witness :
  let argv := ["--epochs"; "5"] in
  let toks := [TOpt (Some (Store arg_epochs)) "--epochs" None; TArg "5"] in
  let args := <["epochs" := VInt 5]> Lab.defaults in
  classify parser argv = Ok toks ∧ get_arguments argv = Ok args ∧
  (∀ v, ¬ supplies toks arg_weighing v) ∧
  args !! "weighing" = Some (VStr "ENet").
Proof.
  intros argv toks args.
  assert (classify parser argv = Ok toks) as H1 by reflexivity.
  assert (get_arguments argv = Ok args) as H2 by reflexivity.
  assert (∀ v, ¬ supplies toks arg_weighing v) as H3.
  { intros v S. apply supplies_pair_arg in S as [E _].
    apply (f_equal option_strings) in E. discriminate E. }
  assert (arg_weighing ∈ stores parser) as H4
    by (rewrite stores_parser; repeat constructor).
  split; [exact H1|]. split; [exact H2|]. split; [exact H3|].
  exact (unsupplied_option_keeps_default
           argv toks args arg_weighing H1 H2 H4 H3).
Defined.

Lemma last_value_is_stored_witness :
  let argv := ["--name"; "a"; "--name=b"] in
  let toks := [TOpt (Some (Store arg_name)) "--name" None; TArg "a";
               TOpt (Some (Store arg_name)) "--name" (Some "b")] in
  let args := <["name" := VStr "b"]> Lab.defaults in
  classify parser argv = Ok toks ∧ get_arguments argv = Ok args ∧
  supplies_last toks arg_name "b" ∧
  ∃ x, _get_values arg_name "b" = Ok x ∧ args !! "name" = Some x.
Proof.
  intros argv toks args.
  assert (classify parser argv = Ok toks) as H1 by reflexivity.
  assert (get_arguments argv = Ok args) as H2 by reflexivity.
  assert (supplies_last toks arg_name "b") as H3.
  { exists [TOpt (Some (Store arg_name)) "--name" None; TArg "a"],
      "--name", [].
    split; [by left|]. intros v. apply supplies_nil. }
  assert ("b" ≠ "--") as H4 by discriminate.
  split; [exact H1|]. split; [exact H2|]. split; [exact H3|].
  exact (last_value_is_stored
           argv toks args arg_name "b" H1 H2 H3 H4).
Defined.

Lemma accepted_command_lines_witness :
  let argv := ["--epochs"; "5"] in
  let toks := [TOpt (Some (Store arg_epochs)) "--epochs" None; TArg "5"] in
  classify parser argv = Ok toks ∧ (∀ a, ¬ supplies toks a "--") ∧
  ((∃ args, get_arguments argv = Ok args) ↔
   option_value_pairs toks = true ∧
   ∀ a v, supplies toks a v → ∃ x, _get_values a v = Ok x).
Proof.
  intros argv toks.
  assert (classify parser argv = Ok toks) as H1 by reflexivity.
  assert (∀ a, ¬ supplies toks a "--") as H2.
  { intros a S. apply supplies_pair_arg in S as [_ E]. discriminate E. }
  split; [exact H1|]. split; [exact H2|].
  exact (accepted_command_lines argv toks H1 H2).
Defined.

Lemma help_exits_witness :
  "-h" ∈ ["-h"; "--help"] ∧ ("--" ∉ ["--epochs"; "3"]) ∧
  ∃ status,
    main (Co := Lab.lab (Ok 7)) (["--epochs"; "3"] ++ "-h" :: ["x"])
    = ([], Raise (SystemExit status)) ∧
    (status = 0 ∨ status = 2).
Proof.
  assert ("-h" ∈ ["-h"; "--help"]) as H1 by (by left).
  assert ("--" ∉ ["--epochs"; "3"]) as H2
    by (apply (bool_decide_unpack _); by vm_compute).
  split; [exact H1|]. split; [exact H2|].
  exact (proj1 (help_exits (Co := Lab.lab (Ok 7))
                  ["--epochs"; "3"] "-h" ["x"] H1 H2)).
Defined.

Lemma ambiguous_abbreviation_exits_witness :
  main (Co := Lab.lab (Ok 7)) (["-h"] ++ "--lr" :: ["0.1"])
  = ([], Raise (SystemExit 2)).
Proof.
  apply (ambiguous_abbreviation_exits (Co := Lab.lab (Ok 7))
           ["-h"] "--lr" ["0.1"] "--lr_decay" "--lr_decay_epochs").
  - apply (bool_decide_unpack _). by vm_compute.
  - discriminate.
  - reflexivity.
  - reflexivity.
  - rewrite parser_option_strings_eq. apply (bool_decide_unpack _).
    by vm_compute.
  - rewrite parser_option_strings_eq. apply (bool_decide_unpack _).
    by vm_compute.
  - rewrite parser_option_strings_eq. apply (bool_decide_unpack _).
    by vm_compute.
  - discriminate.
  - reflexivity.
  - reflexivity.
Defined.

Lemma namespace_is_typed_witness :
  let argv := ["-b"; "4"] in
  let toks := [TOpt (Some (Store arg_batch_size)) "-b" None; TArg "4"] in
  let args := <["batch_size" := VInt 4]> Lab.defaults in
  classify parser argv = Ok toks ∧ (∀ a, ¬ supplies toks a "--") ∧
  get_arguments argv = Ok args ∧
  ∃ n, args !! "batch_size" = Some (VInt n).
Proof.
  intros argv toks args.
  assert (classify parser argv = Ok toks) as H1 by reflexivity.
  assert (∀ a, ¬ supplies toks a "--") as H2.
  { intros a S. apply supplies_pair_arg in S as [_ E]. discriminate E. }
  assert (get_arguments argv = Ok args) as H3 by reflexivity.
  split; [exact H1|]. split; [exact H2|]. split; [exact H3|].
  apply (proj1 (proj2 (namespace_is_typed
                         argv toks args H1 H2 H3))).
  by left.
Defined.

Lemma default_weighing_is_enet_witness :
  classify parser [] = Ok [] ∧ get_arguments [] = Ok Lab.defaults ∧
  main_class_weights (Co := Lab.lab (Ok 7)) Lab.defaults "train" 12
  = ([EClassWeighing "enet"],
     Some <$> enet_weighing (Collaborators := Lab.lab (Ok 7)) "train" 12).
Proof.
  assert (classify parser [] = Ok []) as H1 by reflexivity.
  assert (get_arguments [] = Ok Lab.defaults) as H2 by reflexivity.
  split; [exact H1|]. split; [exact H2|].
  exact (proj2 (proj2 (default_weighing_is_enet (Co := Lab.lab (Ok 7))
                         [] [] Lab.defaults "train" 12 H1 H2
                         (λ v, supplies_nil arg_weighing v)))).
Defined.

Lemma unsupported_dataset_raises_witness :
  let args := <["dataset" := VStr "Pascal"]> Lab.defaults in
  main_body (Co := Lab.lab (Ok 7)) args =
  ([], Raise (RuntimeError
                (quote +:+ "Pascal" +:+ quote
                   +:+ " is not a supported dataset."))).
Proof.
  intros args.
  apply (unsupported_dataset_raises (Co := Lab.lab (Ok 7)) args "Pascal").
  - reflexivity.
  - intros E. vm_compute in E. discriminate E.
  - intros E. vm_compute in E. discriminate E.
Defined.

Lemma weights_kept_as_computed_witness :
  let args := <["ignore_unlabelled" := VBool false]> Lab.defaults in
  get_arguments ["--ignore_unlabelled="] = Ok args ∧
  Forall as_computed (trace (main_body (Co := Lab.lab (Ok 7)) args)).
Proof.
  intros args. split; [reflexivity|].
  apply (proj1 (weights_kept_as_computed (Co := Lab.lab (Ok 7)) args
                  (VBool false) eq_refl (or_introl eq_refl))).
Defined.

Lemma generators_follow_namespace_witness :
  Forall (generator_of Lab.defaults "CamVidGenerator")
    (trace (main_body (Co := Lab.lab (Ok 7)) Lab.defaults)).
Proof.
  exact (generators_follow_namespace (Co := Lab.lab (Ok 7)) Lab.defaults
           "camvid" eq_refl).
Defined.

Lemma no_weighing_gives_no_weights_witness :
  let args := <["weighing" := VStr "none"]> Lab.defaults in
  get_arguments ["--weighing"; "none"] = Ok args ∧
  Forall unweighted (trace (main_body (Co := Lab.lab (Ok 7)) args)).
Proof.
  intros args. split; [reflexivity|].
  apply (no_weighing_gives_no_weights (Co := Lab.lab (Ok 7)) args
           (VStr "none") eq_refl).
  right. exists "none". split; [reflexivity|].
  split; intros E; vm_compute in E; discriminate E.
Defined.

Lemma other_mode_does_nothing_witness :
  let args := Runs.in_mode "predict" (Lab.resuming 100) in
  main_body (Co := Lab.lab (Ok 7)) args =
  ([EPrintCheckpointPath Runs.checkpoint],
   Raise (UnboundLocalError "num_classes")).
Proof.
  intros args.
  apply (other_mode_does_nothing (Co := Lab.lab (Ok 7)) args "predict" []
           (Runs.no_locals (Ok 7)) Runs.checkpoint (VBool true));
    try reflexivity; intros E; vm_compute in E; discriminate E.
Defined.

Lemma test_without_resume_asserts_witness :
  let args := Runs.in_mode "test" (Runs.fresh 100) in
  main_body (Co := Lab.lab (Ok 7)) args =
  ([Runs.test_event (Ok 7)] ++ [EPrintCheckpointPath Runs.checkpoint],
   Raise AssertionError).
Proof.
  intros args.
  apply (test_without_resume_asserts (Co := Lab.lab (Ok 7)) args "test"
           [Runs.test_event (Ok 7)] (Runs.test_locals (Ok 7))
           Runs.checkpoint (VBool false)); reflexivity.
Defined.

Lemma test_mode_evaluates_checkpoint_witness :
  let args := Runs.in_mode "test" (Lab.resuming 100) in
  main_body (Co := Lab.lab (Ok 7)) args =
  ([Runs.test_event (Ok 7)]
     ++ [EPrintCheckpointPath Runs.checkpoint;
         ELoadModel Runs.checkpoint (custom_objects 12); EEvaluate],
   Ok ()).
Proof.
  intros args.
  destruct (test_mode_evaluates_checkpoint (Co := Lab.lab (Ok 7)) args "test"
              [Runs.test_event (Ok 7)] (Runs.test_locals (Ok 7))
              Runs.checkpoint (VBool true))
    as (g & nc & sh & Hg & Hb & E).
  - reflexivity.
  - reflexivity.
  - reflexivity.
  - reflexivity.
  - reflexivity.
  - reflexivity.
  - eexists; reflexivity.
  - eexists; reflexivity.
  - simpl in Hg, Hb. injection Hg as <-. injection Hb as <- _. exact E.
Defined.

End FurtherWitnesses.

Section MoreWitnesses.
#[local] Existing Instance Exact.python.

Lemma train_mode_run_witness :
  let args := Runs.fresh 100 in
  let t0 := Lab.data_events (Ok 7) in
  let l := Lab.data_locals (Ok 7) in
  let p := Runs.checkpoint in
  let lr := float_lit 5 (-4) in
  let d := float_lit 1 (-1) in
  main_data (Co := Lab.lab (Ok 7)) args = (t0, Ok l) ∧
  main_checkpoint_path args = Ok p ∧
  hyperparameters args 102 100 lr d 100 ∧
  ∃ tg vg cw workers verbose dir name,
    (train_generator_ l = Some tg ∧ val_generator_ l = Some vg ∧
     class_weights_ l = Some cw) ∧
    (args !! "workers" = Some workers ∧ args !! "verbose" = Some verbose ∧
     args !! "checkpoint_dir" = Some (VStr dir) ∧
     args !! "name" = Some (VStr name)) ∧
    main_body (Co := Lab.lab (Ok 7)) args =
    let run := train 102 100 tg vg cw lr d 100 workers verbose
                 (path_join dir [name]) None in
    match outcome run with
    | Raise e => (t0 ++ EPrintCheckpointPath p :: trace run, Raise e)
    | Ok m =>
        (t0 ++ EPrintCheckpointPath p :: trace run ++ [ESave p],
         (λ _, ()) <$> save m p)
    end.
Proof.
  intros args t0 l p lr d.
  assert (main_data (Co := Lab.lab (Ok 7)) args = (t0, Ok l)) as H1
    by reflexivity.
  assert (main_checkpoint_path args = Ok p) as H2 by reflexivity.
  assert (hyperparameters args 102 100 lr d 100) as H3
    by (repeat split; try reflexivity; eexists; reflexivity).
  split; [exact H1|]. split; [exact H2|]. split; [exact H3|].
  exact (train_mode_run (Co := Lab.lab (Ok 7)) args "train" t0 l p
           (VBool false) 102 100 lr d 100 eq_refl eq_refl H1 H2 eq_refl
           eq_refl H3).
Defined.

Lemma full_mode_run_witness :
  let args := Runs.in_mode "full" (Runs.fresh 100) in
  let t0 := Lab.data_events (Ok 7) ++ [Runs.test_event (Ok 7)] in
  let l := Runs.full_locals (Ok 7) in
  let p := Runs.checkpoint in
  let lr := float_lit 5 (-4) in
  let d := float_lit 1 (-1) in
  main_data (Co := Lab.lab (Ok 7)) args = (t0, Ok l) ∧
  main_checkpoint_path args = Ok p ∧
  hyperparameters args 102 100 lr d 100 ∧
  ∃ tg vg cw g workers verbose dir name,
    (train_generator_ l = Some tg ∧ val_generator_ l = Some vg ∧
     class_weights_ l = Some cw ∧ test_generator_ l = Some g) ∧
    (args !! "workers" = Some workers ∧ args !! "verbose" = Some verbose ∧
     args !! "checkpoint_dir" = Some (VStr dir) ∧
     args !! "name" = Some (VStr name)) ∧
    main_body (Co := Lab.lab (Ok 7)) args =
    let run := train 102 100 tg vg cw lr d 100 workers verbose
                 (path_join dir [name]) None in
    match outcome run with
    | Raise e => (t0 ++ EPrintCheckpointPath p :: trace run, Raise e)
    | Ok m =>
        match save m p with
        | Raise e =>
            (t0 ++ EPrintCheckpointPath p :: trace run ++ [ESave p], Raise e)
        | Ok _ =>
            (t0 ++ EPrintCheckpointPath p :: trace run
                ++ [ESave p; EEvaluate],
             (λ _, ()) <$> evaluate_generator m g)
        end
    end.
Proof.
  intros args t0 l p lr d.
  assert (main_data (Co := Lab.lab (Ok 7)) args = (t0, Ok l)) as H1
    by reflexivity.
  assert (main_checkpoint_path args = Ok p) as H2 by reflexivity.
  assert (hyperparameters args 102 100 lr d 100) as H3
    by (repeat split; try reflexivity; eexists; reflexivity).
  split; [exact H1|]. split; [exact H2|]. split; [exact H3|].
  exact (full_mode_run (Co := Lab.lab (Ok 7)) args "full" t0 l p
           (VBool false) 102 100 lr d 100 eq_refl eq_refl H1 H2 eq_refl
           eq_refl H3).
Defined.

Lemma rate_constant_between_steps_witness :
  let lr : float := float_lit 5 (-4) in
  let d : float := float_lit 1 (-1) in
  let run := train (Co := Lab.lab (Ok 7)) 102 100 "train" "val" None lr d 100
               (VInt 4) (VInt 1) "checkpoints/LinkNet" (Some 7) in
  let r : float := float_mul (Qpower d (100 / 100)) lr in
  let r' : float := float_mul (Qpower d (101 / 100)) lr in
  EEpoch 100 r ∈ trace run ∧ EEpoch 101 r' ∈ trace run ∧ r = r'.
Proof.
  intros lr d run r r'.
  assert (EEpoch 100 r ∈ trace run) as H1
    by (apply (list_elem_of_lookup_2 _ 3%nat); reflexivity).
  assert (EEpoch 101 r' ∈ trace run) as H2
    by (apply (list_elem_of_lookup_2 _ 5%nat); reflexivity).
  split; [exact H1|]. split; [exact H2|].
  exact (rate_constant_between_steps (Co := Lab.lab (Ok 7)) 102 100 "train"
           "val" None lr d 100 (VInt 4) (VInt 1) "checkpoints/LinkNet"
           (Some 7) 100 101 r r' H1 H2 eq_refl).
Defined.

Lemma zero_decay_period_raises_witness :
  let lr : float := float_lit 5 (-4) in
  let d : float := float_lit 1 (-1) in
  train (Co := Lab.lab (Ok 7)) 102 100 "train" "val" None lr d 0
    (VInt 4) (VInt 1) "checkpoints/LinkNet" (Some 7)
  = ([ECompile lr; EFitGenerator (Co := Lab.lab (Ok 7)) 7 None 102 100],
     Raise ZeroDivisionError).
Proof.
  intros lr d.
  refine (proj1 (zero_decay_period_raises (Co := Lab.lab (Ok 7)) 102 100
                   "train" "val" None lr d (VInt 4) (VInt 1)
                   "checkpoints/LinkNet" 12 () 7 _ _)).
  - lia.
  - reflexivity.
Defined.

Lemma no_epoch_left_witness :
  let lr : float := float_lit 5 (-4) in
  let d : float := float_lit 1 (-1) in
  train (Co := Lab.lab (Ok 7)) 100 100 "train" "val" None lr d 0
    (VInt 4) (VInt 1) "checkpoints/LinkNet" (Some 7)
  = ([ECompile lr; EFitGenerator (Co := Lab.lab (Ok 7)) 7 None 100 100],
     Ok 7).
Proof.
  intros lr d.
  refine (no_epoch_left (Co := Lab.lab (Ok 7)) 100 100 "train" "val" None
            lr d 0 (VInt 4) (VInt 1) "checkpoints/LinkNet" 12 () 7 _ _).
  - lia.
  - reflexivity.
Defined.

Lemma checkpoint_path_shape_witness :
  main_checkpoint_path (Lab.resuming 100)
  = Ok ("checkpoints" +:+ "/" +:+ "LinkNet" +:+ "/" +:+ "LinkNet" +:+ ".h5") ∧
  main_checkpoint_path (<["name" := VStr "/tmp/run"]> (Lab.resuming 100))
  = Ok ("/tmp/run" +:+ ".h5").
Proof.
  split.
  - apply (proj1 (checkpoint_path_shape (Lab.resuming 100)
                    "checkpoints" "LinkNet" eq_refl eq_refl));
      try reflexivity; discriminate.
  - refine (proj2 (checkpoint_path_shape
                     (<["name" := VStr "/tmp/run"]> (Lab.resuming 100))
                     "checkpoints" "/tmp/run" _ _) _); reflexivity.
Defined.

End MoreWitnesses.
